(** * i2shell: the USB-serial to I2C shell, embedded and verified

    A shallow embedding of [i2shell.ino]: the hex codec ([read_hex],
    [tohex], [print_hex]), the six global variables, and the body of
    [loop()], whose [switch] with its two labels [parse_cmd] and
    [recv_now] is kept as blocks that end in [break] or in a [goto].

    The two libraries the sketch talks to are kept outside: the serial
    transport hands [loop] either a byte or nothing, and the I2C master
    ([TinyWireM]) is a type class over an arbitrary device state, so that
    every statement below holds for every bus behaviour unless it names
    one.

    The earlier revision of the sketch ([src/i2shell.ino], with
    [ST_INIT] and [hextab]) is embedded beside it, in the module
    [Earlier], and compared with the later one. *)

From Stdlib Require Import ZArith List String Ascii Bool Lia.
Import ListNotations.
Open Scope Z_scope.

(** ** Bytes and characters *)

(** [unsigned char]: every store into one truncates to eight bits. *)
Definition u8 (x : Z) : Z := x mod 256.

(** A [uint8_t] returned by a library call: the same truncation. *)
Definition uint8_t (x : Z) : Z := u8 x.

(** A character literal, as its code. *)
Definition chr (a : ascii) : Z := Z.of_N (N_of_ascii a).

(** A string literal, as the bytes [SerialUSB.write] sends. *)
Fixpoint str (s : string) : list Z :=
  match s with
  | EmptyString => []
  | String a s' => chr a :: str s'
  end.

Definition CR : Z := 13.
Definition LF : Z := 10.

(** ** Hex codec *)

(** [read_hex(in, c)]: [in] may be NULL, hence the option.  The result is
    the returned flag and the cell [in] points to afterwards.  [c] is a
    [char] holding the [unsigned char] that [loop] read: a byte of 128
    or more fails every test below, whether [char] is signed or not. *)
Definition read_hex (inp : option Z) (c : Z) : Z * option Z :=
  let shift_in d := option_map (fun v => u8 (Z.shiftl v 4 + d)) inp in
  if (chr "0" <=? c) && (c <=? chr "9") then (1, shift_in (c - chr "0"))
  else if (chr "A" <=? c) && (c <=? chr "F") then (1, shift_in (c - (chr "A" - 10)))
  else if (chr "a" <=? c) && (c <=? chr "z") then (1, shift_in (c - (chr "a" - 10)))
  else (0, inp).

(** [read_hex(&x, c)] on a global [x]: the flag and the new value of [x]. *)
Definition read_hex_at (x : Z) (c : Z) : Z * Z :=
  let (r, o) := read_hex (Some x) c in
  (r, match o with Some y => y | None => x end).

(** [tohex]: 0-9/A-Z for 0..35. *)
Definition tohex (i : Z) : Z :=
  u8 (if i <? 10 then i + chr "0" else i - 10 + chr "A").

(** The two characters [print_hex] writes for [x]. *)
Definition hex2 (x : Z) : list Z :=
  [tohex (Z.shiftr x 4); tohex (Z.land x 15)].

(** An uppercase hex digit, and its value. *)
Definition is_upper_hex (c : Z) : bool :=
  ((chr "0" <=? c) && (c <=? chr "9")) || ((chr "A" <=? c) && (c <=? chr "F")).

Definition hex_value (c : Z) : Z :=
  if c <=? chr "9" then c - chr "0" else c - chr "A" + 10.

(** Whether [hex2 x] is two uppercase hex digits that spell [x]. *)
Definition hex2_ok (x : Z) : bool :=
  match hex2 x with
  | [h; l] => is_upper_hex h && is_upper_hex l && (16 * hex_value h + hex_value l =? x)
  | _ => false
  end.

(** The upper-casing at the top of [loop]:
    [if ((unsigned char)(l - 'a') <= 'z' - 'a') l -= 'a' - 'A';] *)
Definition to_upper (l : Z) : Z :=
  if u8 (l - chr "a") <=? chr "z" - chr "a" then u8 (l - (chr "a" - chr "A")) else l.

(** ** The program's state *)

Inductive enum_state : Type :=
  | ST_CMD    (* parsing command *)
  | ST_ADDR   (* parsing address *)
  | ST_CMDW   (* addr+w sent, parsing byte to send *)
  | ST_CMDR   (* addr+r sent, parsing byte count to recv *)
  | ST_RECV.  (* receiving requested bytes *)

Definition enum_state_eqb (a b : enum_state) : bool :=
  match a, b with
  | ST_CMD, ST_CMD | ST_ADDR, ST_ADDR | ST_CMDW, ST_CMDW
  | ST_CMDR, ST_CMDR | ST_RECV, ST_RECV => true
  | _, _ => false
  end.

(** A call [loop] makes on the I2C master, with its arguments. *)
Inductive bus_call : Type :=
  | BeginTransmission (a : Z)
  | Send (d : Z)
  | EndTransmission
  | RequestFrom (a n : Z)
  | Available
  | Receive.

Definition is_end (c : bus_call) : bool :=
  match c with EndTransmission => true | _ => false end.



(** The I2C master library.  [B] is whatever the library and the devices
    behind it remember; every call may change it. *)
Class TinyWireM (B : Type) : Type := {
  beginTransmission : Z -> B -> B;
  send : Z -> B -> B;
  endTransmission : B -> Z * B;
  requestFrom : Z -> Z -> B -> Z * B;
  available : B -> Z * B;
  receive : B -> Z * B
}.

(** The globals of the sketch ([buf] is never used), the bus behind
    [TinyWireM], and two logs: the calls made on the bus and the bytes
    written to [SerialUSB]. *)
Record world (B : Type) : Type := World {
  ret : Z;
  addr : Z;
  data : Z;
  digits : Z;
  to_print : Z;
  state : enum_state;
  wire : B;
  calls : list bus_call;
  serial : list Z
}.

Arguments World {B}.
Arguments ret {B}.
Arguments addr {B}.
Arguments data {B}.
Arguments digits {B}.
Arguments to_print {B}.
Arguments state {B}.
Arguments wire {B}.
Arguments calls {B}.
Arguments serial {B}.

(** Where a [goto] of [loop] lands. *)
Inductive label : Type := parse_cmd_label | recv_now_label.

(** How a [case] block ends. *)
Inductive control : Type := Break | Goto (t : label).

Definition label_eqb (a b : label) : bool :=
  match a, b with
  | parse_cmd_label, parse_cmd_label | recv_now_label, recv_now_label => true
  | _, _ => false
  end.

Section Sketch.

Context {B : Type} {TW : TinyWireM B}.

Definition set_ret (v : Z) (w : world B) : world B :=
  let 'World _ a d g p s b cs out := w in World v a d g p s b cs out.
Definition set_addr (v : Z) (w : world B) : world B :=
  let 'World r _ d g p s b cs out := w in World r v d g p s b cs out.
Definition set_data (v : Z) (w : world B) : world B :=
  let 'World r a _ g p s b cs out := w in World r a v g p s b cs out.
Definition set_digits (v : Z) (w : world B) : world B :=
  let 'World r a d _ p s b cs out := w in World r a d v p s b cs out.
Definition set_to_print (v : Z) (w : world B) : world B :=
  let 'World r a d g _ s b cs out := w in World r a d g v s b cs out.
Definition set_state (v : enum_state) (w : world B) : world B :=
  let 'World r a d g p _ b cs out := w in World r a d g p v b cs out.

(** [SerialUSB.write] of some bytes. *)
Definition write (bs : list Z) (w : world B) : world B :=
  let 'World r a d g p s b cs out := w in World r a d g p s b cs (out ++ bs).

(** A call on the bus: logged, and the bus moves on. *)
Definition on_bus (c : bus_call) (b' : B) (w : world B) : world B :=
  let 'World r a d g p s _ cs out := w in World r a d g p s b' (cs ++ [c]) out.

Definition do_beginTransmission (a : Z) (w : world B) : world B :=
  on_bus (BeginTransmission a) (beginTransmission a (wire w)) w.

Definition do_send (d : Z) (w : world B) : world B :=
  on_bus (Send d) (send d (wire w)) w.

(** The status comes back as a [uint8_t]. *)
Definition do_endTransmission (w : world B) : Z * world B :=
  let (s, b) := endTransmission (wire w) in (uint8_t s, on_bus EndTransmission b w).

Definition do_requestFrom (a n : Z) (w : world B) : Z * world B :=
  let (s, b) := requestFrom a n (wire w) in (uint8_t s, on_bus (RequestFrom a n) b w).

Definition do_available (w : world B) : Z * world B :=
  let (n, b) := available (wire w) in (uint8_t n, on_bus Available b w).

Definition do_receive (w : world B) : Z * world B :=
  let (d, b) := receive (wire w) in (uint8_t d, on_bus Receive b w).

(** [print_hex(pfx, x, sfx)]; a NULL or empty affix writes nothing. *)
Definition print_hex (pfx : option (list Z)) (x : Z) (sfx : option (list Z)) (w : world B)
  : world B :=
  let w := match pfx with Some (c :: s) => write (c :: s) w | _ => w end in
  let w := write [tohex (Z.shiftr x 4)] w in
  let w := write [tohex (Z.land x 15)] w in
  match sfx with Some (c :: s) => write (c :: s) w | _ => w end.

Definition help_text : list Z :=
  str "?       : print this help" ++ [CR; LF] ++
  str "S<addr> : set I2C addr (hex)" ++ [CR; LF] ++
  str "W<byte>*: write bytes (hex)" ++ [CR; LF] ++
  str "P       : push (end of write)" ++ [CR; LF] ++
  str "R<num>  : read bytes (hex)" ++ [CR; LF] ++
  [CR; LF].

(** [print_help], built without NOHELP. *)
Definition print_help (w : world B) : world B := write help_text w.

(** *** The blocks of the switch *)

(** [parse_cmd:], the body of [case ST_CMD]; it always ends in [break]. *)
Definition parse_cmd (l : Z) (w : world B) : world B :=
  let w := set_digits 0 (set_data 0 w) in
  if l =? chr "S" then set_addr 0 (set_state ST_ADDR w)
  else if l =? chr "W" then set_state ST_CMDW (do_beginTransmission (addr w) w)
  else if l =? chr "R" then set_state ST_CMDR w
  else if l =? chr "?" then set_to_print 0 (print_help w)
  else w.

Definition case_ST_CMD (l : Z) (w : world B) : world B * control :=
  (parse_cmd l w, Break).

Definition case_ST_ADDR (l : Z) (w : world B) : world B * control :=
  let w := set_addr (snd (read_hex_at (addr w) l)) w in
  let w := if (l =? chr "S") || (l =? chr "P")
           then set_addr 0 (set_state ST_ADDR w) else w in
  if negb (l =? chr "W") && negb (l =? chr "R") && negb (l =? chr "?")
  then (w, Break)
  else (set_state ST_CMD w, Goto parse_cmd_label).

(** The error line of a failed bus call: when [ret] is not 0,
    [print_hex(pfx, ret, "\n"); to_print = 0;]. *)
Definition report (pfx : string) (w : world B) : world B :=
  if negb (ret w =? 0)
  then set_to_print 0 (print_hex (Some (str pfx)) (ret w) (Some [LF]) w)
  else w.

(** The first statements of [case ST_CMDW]: read a digit, count it, and
    send the byte when it is complete. *)
Definition accumulate_CMDW (l : Z) (w : world B) : world B :=
  let (r, d) := read_hex_at (data w) l in
  let w := set_ret r (set_data d w) in
  let w := set_digits (u8 (digits w + ret w)) w in
  if (negb (digits w =? 0) && (ret w =? 0)) || (digits w =? 2)
  then set_digits 0 (set_data 0 (do_send (data w) w))
  else w.

Definition case_ST_CMDW (l : Z) (w : world B) : world B * control :=
  let w := accumulate_CMDW l w in
  if (ret w =? 0) && negb (l =? chr " ") && negb (l =? chr "W") then
    let (s, w) := do_endTransmission w in
    let w := report "W!" (set_ret s w) in
    (set_state ST_CMD w, Goto parse_cmd_label)
  else (w, Break).

(** The first statements of [case ST_CMDR]: read a digit and count it. *)
Definition accumulate_CMDR (l : Z) (w : world B) : world B :=
  let (r, d) := read_hex_at (data w) l in
  let w := set_ret r (set_data d w) in
  set_digits (u8 (digits w + ret w)) w.

Definition case_ST_CMDR (l : Z) (w : world B) : world B * control :=
  let w := accumulate_CMDR l w in
  if (ret w =? 0) && negb (digits w =? 0) then
    let (s, w) := do_requestFrom (addr w) (data w) w in
    let w := report "R!" (set_ret s w) in
    (set_state ST_RECV (set_digits 0 (set_data 0 w)), Goto recv_now_label)
  else if (ret w =? 0) && negb (l =? chr " ") && negb (l =? LF) then
    (set_state ST_CMD w, Goto parse_cmd_label)
  else (w, Break).

(** [while (TinyWireM.available()) { data = receive(); print_hex(NULL, data, " "); }]
    The loop runs as long as the bus says so; [None] when [fuel] tests
    of [available()] did not see it end. *)
Fixpoint recv_while (fuel : nat) (w : world B) : option (world B) :=
  match fuel with
  | O => None
  | S fuel' =>
      let (n, w) := do_available w in
      if n =? 0 then Some w
      else
        let (d, w) := do_receive w in
        let w := set_data d w in
        recv_while fuel' (print_hex None (data w) (Some (str " ")) w)
  end.

(** The statements of [case ST_RECV] after the loop. *)
Definition finish_RECV (w : world B) : world B :=
  let w := write [CR; LF] w in
  let w := set_to_print 0 w in
  set_state ST_CMD w.

(** [recv_now:], the body of [case ST_RECV]. *)
Definition case_ST_RECV (fuel : nat) (w : world B) : option (world B * control) :=
  match recv_while fuel w with
  | None => None
  | Some w => Some (finish_RECV w, Goto parse_cmd_label)
  end.

Definition block (fuel : nat) (s : enum_state) (l : Z) (w : world B)
  : option (world B * control) :=
  match s with
  | ST_CMD => Some (case_ST_CMD l w)
  | ST_ADDR => Some (case_ST_ADDR l w)
  | ST_CMDW => Some (case_ST_CMDW l w)
  | ST_CMDR => Some (case_ST_CMDR l w)
  | ST_RECV => case_ST_RECV fuel w
  end.

(** The case a label sits in. *)
Definition case_of (t : label) : enum_state :=
  match t with parse_cmd_label => ST_CMD | recv_now_label => ST_RECV end.

(** [switch (state)]: run the block of [s] and follow its [goto]s.  The
    result is the world at the final [break] and the labels jumped to,
    in order.  [fuel] bounds the jumps and each run of the receive
    loop. *)
Fixpoint switch (fuel : nat) (s : enum_state) (l : Z) (w : world B)
  : option (world B * list label) :=
  match fuel with
  | O => None
  | S fuel' =>
      match block fuel' s l w with
      | None => None
      | Some (w', Break) => Some (w', [])
      | Some (w', Goto t) =>
          match switch fuel' (case_of t) l w' with
          | None => None
          | Some (w'', path) => Some (w'', t :: path)
          end
      end
  end.

(** [loop()] with nothing to read: the keep-alive byte goes out. *)
Definition idle (w : world B) : world B :=
  if to_print w =? 0 then w else set_to_print 0 (write [to_print w] w).

(** [loop()].  [input] is [None] when [SerialUSB.available() < 1], and
    otherwise what [SerialUSB.read()] returns. *)
Definition loop_path (fuel : nat) (input : option Z) (w : world B)
  : option (world B * list label) :=
  match input with
  | None => Some (idle w, [])
  | Some c =>
      let l := u8 c in
      let w := set_to_print (if (l =? CR) || (l =? LF) then CR else chr " ") w in
      let l := to_upper l in
      switch fuel (state w) l w
  end.

Definition loop (fuel : nat) (input : option Z) (w : world B) : option (world B) :=
  option_map fst (loop_path fuel input w).

(** [loop()] called again and again, once per element of [inputs]. *)
Fixpoint run (fuel : nat) (inputs : list (option Z)) (w : world B) : option (world B) :=
  match inputs with
  | [] => Some w
  | i :: rest =>
      match loop fuel i w with
      | None => None
      | Some w' => run fuel rest w'
      end
  end.

(** The bytes of [s] arriving back to back. *)
Definition typed (s : string) : list (option Z) := map Some (str s).

(** The globals as initialised, over a bus in state [b]. *)
Definition power_on (b : B) : world B := World 0 0 0 0 0 ST_CMD b [] [].

End Sketch.

(** ** Bus collaborators to run the sketch against *)

(** Modelled from the spec: the simulated bus responder of the end-to-end
    property, which is not in the repository.  A register bank with an
    auto-incrementing register pointer, as the README describes such
    devices: the first byte of a write is the register address, the
    bytes after it go to that register and the following ones, and a
    read returns registers from the pointer on.  It acknowledges
    everything. *)
Record responder : Type := Responder {
  regs : list Z;
  pointer : nat;
  written : list Z;
  readable : list Z
}.

Fixpoint store (rs : list Z) (p : nat) (v : Z) : list Z :=
  match rs, p with
  | [], _ => []
  | _ :: rs', O => v :: rs'
  | r :: rs', S p' => r :: store rs' p' v
  end.

Fixpoint store_from (rs : list Z) (p : nat) (vs : list Z) : list Z :=
  match vs with
  | [] => rs
  | v :: vs' => store_from (store rs p v) (S p) vs'
  end.

Fixpoint fetch_from (rs : list Z) (p : nat) (n : nat) : list Z :=
  match n with
  | O => []
  | S n' => nth p rs 0 :: fetch_from rs (S p) n'
  end.

Definition responder_end (s : responder) : Z * responder :=
  match written s with
  | [] => (0, s)
  | p :: vs =>
      (0, Responder (store_from (regs s) (Z.to_nat p) vs)
                    (Z.to_nat p + List.length vs) [] (readable s))
  end.

Definition responder_request (n : Z) (s : responder) : Z * responder :=
  (0, Responder (regs s) (pointer s + Z.to_nat n) (written s)
                (fetch_from (regs s) (pointer s) (Z.to_nat n))).

#[export] Instance responder_bus : TinyWireM responder := {
  beginTransmission _ s := Responder (regs s) (pointer s) [] (readable s);
  send d s := Responder (regs s) (pointer s) (written s ++ [d]) (readable s);
  endTransmission := responder_end;
  requestFrom _ n := responder_request n;
  available s := (Z.of_nat (List.length (readable s)), s);
  receive s := (hd 0 (readable s), Responder (regs s) (pointer s) (written s) (tl (readable s)))
}.

(** The responder with every register zero. *)
Definition all_zero : responder := Responder (repeat 0 64) 0 [] [].

(** A bus with nothing on it that answers [endTransmission] and
    [requestFrom] with fixed status codes. *)
Record faulty : Type := Faulty { end_status : Z; request_status : Z }.

#[export] Instance faulty_bus : TinyWireM faulty := {
  beginTransmission _ s := s;
  send _ s := s;
  endTransmission s := (end_status s, s);
  requestFrom _ _ s := (request_status s, s);
  available s := (0, s);
  receive s := (0, s)
}.

(** A bus that acknowledges everything and delivers nothing. *)
Definition quiet : faulty := Faulty 0 0.

(** A bus whose requested bytes (all zero) arrive a few at a time: the
    head of [arriving] is what [available()] counts now; once it has
    reported 0 the next group has arrived. *)
Record trickle : Type := Trickle { group : nat; arriving : list (list Z) }.

Fixpoint groups (fuel : nat) (k : nat) (n : nat) : list (list Z) :=
  match fuel with
  | O => []
  | S fuel' => if (n <=? k)%nat then [repeat 0 n]
               else repeat 0 k :: groups fuel' k (n - k)
  end.

Definition trickle_available (s : trickle) : Z * trickle :=
  match arriving s with
  | [] => (0, s)
  | [] :: later => (0, Trickle (group s) later)
  | (d :: now) :: later => (Z.of_nat (List.length (d :: now)), s)
  end.

Definition trickle_receive (s : trickle) : Z * trickle :=
  match arriving s with
  | (d :: now) :: later => (d, Trickle (group s) (now :: later))
  | _ => (0, s)
  end.

#[export] Instance trickle_bus : TinyWireM trickle := {
  beginTransmission _ s := s;
  send _ s := s;
  endTransmission s := (0, s);
  requestFrom _ n s := (0, Trickle (group s) (groups (Z.to_nat n) (group s) (Z.to_nat n)));
  available := trickle_available;
  receive := trickle_receive
}.

(** A bus whose [available()] never returns 0. *)
Inductive babbling : Type := Babbling.

#[export] Instance babbling_bus : TinyWireM babbling := {
  beginTransmission _ s := s;
  send _ s := s;
  endTransmission s := (0, s);
  requestFrom _ _ s := (0, s);
  available s := (1, s);
  receive s := (0, s)
}.

(** ** What one run of the receive loop takes from a bus *)

Section Draining.

Context {B : Type} {TW : TinyWireM B}.

(** The bytes [while (available()) receive()] reads from a bus in state
    [b], and the bus afterwards; [None] when [fuel] tests of
    [available()] did not see 0. *)
Fixpoint pull (fuel : nat) (b : B) : option (list Z * B) :=
  match fuel with
  | O => None
  | S fuel' =>
      let (n, b1) := available b in
      if uint8_t n =? 0 then Some ([], b1)
      else
        let (d, b2) := receive b1 in
        match pull fuel' b2 with
        | None => None
        | Some (ds, b3) => Some (uint8_t d :: ds, b3)
        end
  end.

(** The calls the receive loop makes to read [n] bytes. *)
Fixpoint pull_calls (n : nat) : list bus_call :=
  match n with
  | O => [Available]
  | S n' => Available :: Receive :: pull_calls n'
  end.

(** What the receive loop prints for the bytes [ds]. *)
Fixpoint hex_row (ds : list Z) : list Z :=
  match ds with
  | [] => []
  | d :: ds' => hex2 d ++ chr " " :: hex_row ds'
  end.

(** The world after the receive loop has read [ds] and left the bus in
    state [b']. *)
Definition received (ds : list Z) (b' : B) (w : world B) : world B :=
  World (ret w) (addr w) (last ds (data w)) (digits w) (to_print w) (state w) b'
        (calls w ++ pull_calls (List.length ds)) (serial w ++ hex_row ds).

(** A bus on which the receive loop always comes to an end. *)
Definition drains : Prop :=
  forall b : B, exists fuel ds b', pull fuel b = Some (ds, b').

(** What a block does, without the fuel: the receive loop of
    [case ST_RECV] is replaced by what it reads. *)
Inductive does (l : Z) : enum_state -> world B -> world B * control -> Prop :=
  | does_CMD w : does l ST_CMD w (case_ST_CMD l w)
  | does_ADDR w : does l ST_ADDR w (case_ST_ADDR l w)
  | does_CMDW w : does l ST_CMDW w (case_ST_CMDW l w)
  | does_CMDR w : does l ST_CMDR w (case_ST_CMDR l w)
  | does_RECV w fuel ds b' :
      pull fuel (wire w) = Some (ds, b') ->
      does l ST_RECV w (finish_RECV (received ds b' w), Goto parse_cmd_label).

(** [goes l s w w' path]: entered at the case of [s] with the byte [l],
    the switch leaves the world [w'] at its [break], after the jumps
    [path]. *)
Inductive goes (l : Z) : enum_state -> world B -> world B -> list label -> Prop :=
  | goes_break s w w' :
      does l s w (w', Break) -> goes l s w w' []
  | goes_goto s w w1 t w' path :
      does l s w (w1, Goto t) -> goes l (case_of t) w1 w' path ->
      goes l s w w' (t :: path).

End Draining.

(** Where the switch ends after a block that did not go to [recv_now]:
    at the block's own [break], or at the [break] of [parse_cmd]. *)
Definition resume {B : Type} {TW : TinyWireM B} (l : Z) (r : world B * control) : world B :=
  match snd r with
  | Break => fst r
  | Goto _ => parse_cmd l (fst r)
  end.

(** The keep-alive byte armed at the top of [loop] for the byte [c]. *)
Definition filler (c : Z) : Z :=
  if (u8 c =? CR) || (u8 c =? LF) then CR else chr " ".

(** Whether [c], as [loop] reads it, ends an open write: not a digit, not
    a space, not [W]. *)
Definition closes_write (x : Z) (c : Z) : bool :=
  (fst (read_hex_at x (to_upper (u8 c))) =? 0)
  && negb (to_upper (u8 c) =? chr " ") && negb (to_upper (u8 c) =? chr "W").

(** How often a call for which [p] holds occurs in a log. *)
Definition count (p : bus_call -> bool) (cs : list bus_call) : nat :=
  List.length (filter p cs).

(** How many times a path jumps to [t]. *)
Definition jumps_to (t : label) (path : list label) : nat :=
  List.length (filter (label_eqb t) path).

(** The bytes of an affix of [print_hex]; NULL stands for none. *)
Definition affix (s : option (list Z)) : list Z :=
  match s with Some bs => bs | None => [] end.

(** ** Words for the properties of the whole sketch *)

(** The input without the calls of [loop()] that found nothing to read. *)
Definition polls_removed (inputs : list (option Z)) : list (option Z) :=
  filter (fun i => match i with Some _ => true | None => false end) inputs.

(** The world without what concerns the serial port only: the log of
    what was written and the keep-alive byte. *)
Definition parser_side {B : Type} (w : world B) : world B :=
  let 'World r a d g _ s b cs _ := w in World r a d g 0 s b cs [].

(** The input with every byte upper-cased as [loop] does. *)
Definition upper_cased (inputs : list (option Z)) : list (option Z) :=
  map (option_map (fun c => to_upper (u8 c))) inputs.

(** Where a conversation with the I2C master stands: nothing open, a
    write open, an answer to be polled for ([available()] must come
    next), or polled (a [receive()] may follow). *)
Inductive phase : Type := Free | Writing | Awaited | Polled.

(** The calls that may follow in each phase. *)
Definition next_phase (p : phase) (c : bus_call) : option phase :=
  match p, c with
  | (Free | Polled), BeginTransmission _ => Some Writing
  | (Free | Polled), RequestFrom _ _ => Some Awaited
  | Writing, Send _ => Some Writing
  | Writing, EndTransmission => Some Free
  | Awaited, Available => Some Polled
  | Polled, Receive => Some Awaited
  | _, _ => None
  end.

(** The phase after a log of calls; [None] when a call came out of turn. *)
Fixpoint follows (p : phase) (cs : list bus_call) : option phase :=
  match cs with
  | [] => Some p
  | c :: cs' =>
      match next_phase p c with
      | Some p' => follows p' cs'
      | None => None
      end
  end.

(** The calls made so far are in turn, a write is open exactly in
    [ST_CMDW], and [loop] is not resting in [ST_RECV]. *)
Definition in_turn {B : Type} (w : world B) : Prop :=
  exists ph, follows Free (calls w) = Some ph
    /\ ph <> Awaited /\ (ph = Writing <-> state w = ST_CMDW) /\ state w <> ST_RECV.

(** The bytes [bs] typed as [print_hex] writes them: two uppercase hex
    digits each. *)
Definition hex_typed (bs : list Z) : list (option Z) :=
  map Some (flat_map hex2 bs).

(** The value left in a byte by the hex digits [ds] shifted into it one
    after the other, as [read_hex] does. *)
Definition hex_number (ds : list Z) (x : Z) : Z :=
  fold_left (fun x c => u8 (16 * x + hex_value c)) ds x.

(** The bus after the bytes [bs] were sent on it. *)
Definition bus_sent {B : Type} {TW : TinyWireM B} (bs : list Z) (b : B) : B :=
  fold_left (fun b x => send x b) bs b.

(** The values [vs], each below 16, typed as one hex digit and a space. *)
Definition digits_typed (vs : list Z) : list (option Z) :=
  flat_map (fun v => [Some (tohex v); Some (chr " ")]) vs.

(** The line [loop] writes for the status [s] of a bus call: nothing
    when it is 0. *)
Definition error_line (pfx : string) (s : Z) : list Z :=
  if uint8_t s =? 0 then [] else str pfx ++ hex2 (uint8_t s) ++ [LF].

(** What the accumulator holds between the bytes of the input: nothing
    outside a write or a read count, and inside a write at most one
    digit. *)
Definition pending {B : Type} (w : world B) : Prop :=
  (state w = ST_CMD \/ state w = ST_ADDR -> data w = 0 /\ digits w = 0)
  /\ (state w = ST_CMDW ->
      (digits w = 0 /\ data w = 0) \/ (digits w = 1 /\ 0 <= data w < 16)).

(** A byte a terminal shows as text: printable ASCII, CR or LF. *)
Definition is_text (x : Z) : bool :=
  (x =? LF) || (x =? CR) || ((32 <=? x) && (x <? 127)).

(** ** The sketch before the keep-alive byte and the help

    [src/i2shell.ino] is the sketch in the revision that starts in
    [ST_INIT], prints through [hextab] and reads every pending byte in
    one call of [loop()].  [read_hex] is the same function in both. *)

Module Earlier.

Inductive enum_state : Type :=
  | ST_INIT   (* totally idle *)
  | ST_ADDR   (* parsing address *)
  | ST_CMD    (* parsing command *)
  | ST_CMDW   (* addr+w sent, parsing byte to send *)
  | ST_CMDR   (* addr+r sent, parsing byte count to recv *)
  | ST_RECV.  (* receiving requested bytes *)

(** [const unsigned char hextab[16] = "0123456789ABCDEF";] *)
Definition hextab : list Z := str "0123456789ABCDEF".

(** [hextab[i]]; [print_hex] only asks for [i] below 16. *)
Definition hextab_at (i : Z) : Z := nth (Z.to_nat i) hextab 0.

(** The globals ([buf] is never used), the bus and the two logs. *)
Record world (B : Type) : Type := World {
  ret : Z;
  addr : Z;
  data : Z;
  digits : Z;
  state : enum_state;
  wire : B;
  calls : list bus_call;
  serial : list Z
}.

Arguments World {B}.
Arguments ret {B}.
Arguments addr {B}.
Arguments data {B}.
Arguments digits {B}.
Arguments state {B}.
Arguments wire {B}.
Arguments calls {B}.
Arguments serial {B}.

Section Sketch.

Context {B : Type} {TW : TinyWireM B}.

Definition set_ret (v : Z) (w : world B) : world B :=
  let 'World _ a d g s b cs out := w in World v a d g s b cs out.
Definition set_addr (v : Z) (w : world B) : world B :=
  let 'World r _ d g s b cs out := w in World r v d g s b cs out.
Definition set_data (v : Z) (w : world B) : world B :=
  let 'World r a _ g s b cs out := w in World r a v g s b cs out.
Definition set_digits (v : Z) (w : world B) : world B :=
  let 'World r a d _ s b cs out := w in World r a d v s b cs out.
Definition set_state (v : enum_state) (w : world B) : world B :=
  let 'World r a d g _ b cs out := w in World r a d g v b cs out.

Definition write (bs : list Z) (w : world B) : world B :=
  let 'World r a d g s b cs out := w in World r a d g s b cs (out ++ bs).

Definition on_bus (c : bus_call) (b' : B) (w : world B) : world B :=
  let 'World r a d g s _ cs out := w in World r a d g s b' (cs ++ [c]) out.

Definition do_beginTransmission (a : Z) (w : world B) : world B :=
  on_bus (BeginTransmission a) (beginTransmission a (wire w)) w.

Definition do_send (d : Z) (w : world B) : world B :=
  on_bus (Send d) (send d (wire w)) w.

Definition do_endTransmission (w : world B) : Z * world B :=
  let (s, b) := endTransmission (wire w) in (uint8_t s, on_bus EndTransmission b w).

Definition do_requestFrom (a n : Z) (w : world B) : Z * world B :=
  let (s, b) := requestFrom a n (wire w) in (uint8_t s, on_bus (RequestFrom a n) b w).

Definition do_available (w : world B) : Z * world B :=
  let (n, b) := available (wire w) in (uint8_t n, on_bus Available b w).

Definition do_receive (w : world B) : Z * world B :=
  let (d, b) := receive (wire w) in (uint8_t d, on_bus Receive b w).

(** [print_hex(pfx, x, sfx)], through [hextab]. *)
Definition print_hex (pfx : option (list Z)) (x : Z) (sfx : option (list Z)) (w : world B)
  : world B :=
  let w := match pfx with Some (c :: s) => write (c :: s) w | _ => w end in
  let w := write [hextab_at (Z.shiftr x 4)] w in
  let w := write [hextab_at (Z.land x 15)] w in
  match sfx with Some (c :: s) => write (c :: s) w | _ => w end.

(** [parse_cmd:], the body of [case ST_CMD]. *)
Definition parse_cmd (l : Z) (w : world B) : world B :=
  let w := set_digits 0 (set_data 0 w) in
  if l =? chr "S" then set_addr 0 (set_state ST_ADDR w)
  else if l =? chr "W" then set_state ST_CMDW (do_beginTransmission (addr w) w)
  else if l =? chr "R" then set_state ST_CMDR w
  else w.

Definition case_ST_INIT (l : Z) (w : world B) : world B * control :=
  (if l =? chr "S" then set_addr 0 (set_state ST_ADDR w) else w, Break).

Definition case_ST_CMD (l : Z) (w : world B) : world B * control :=
  (parse_cmd l w, Break).

(** [case ST_ADDR] ends in [break] or falls through into [case ST_CMD]. *)
Definition case_ST_ADDR (l : Z) (w : world B) : world B * control :=
  let w := set_addr (snd (read_hex_at (addr w) l)) w in
  let w := if (l =? chr "S") || (l =? chr "P")
           then set_addr 0 (set_state ST_ADDR w) else w in
  if negb (l =? chr "W") && negb (l =? chr "R")
  then (w, Break)
  else case_ST_CMD l (set_state ST_CMD w).

(** [if (ret) print_hex(pfx, ret, "\n");] *)
Definition report (pfx : string) (w : world B) : world B :=
  if negb (ret w =? 0) then print_hex (Some (str pfx)) (ret w) (Some [LF]) w else w.

Definition case_ST_CMDW (l : Z) (w : world B) : world B * control :=
  let (r, d) := read_hex_at (data w) l in
  let w := set_ret r (set_data d w) in
  let w := set_digits (u8 (digits w + ret w)) w in
  let w := if (negb (digits w =? 0) && (ret w =? 0)) || (digits w =? 2)
           then set_digits 0 (set_data 0 (do_send (data w) w))
           else w in
  if (ret w =? 0) && negb (l =? chr " ") && negb (l =? chr "W") then
    let (s, w) := do_endTransmission w in
    let w := report "W!" (set_ret s w) in
    (set_state ST_CMD w, Goto parse_cmd_label)
  else (w, Break).

Definition case_ST_CMDR (l : Z) (w : world B) : world B * control :=
  let (r, d) := read_hex_at (data w) l in
  let w := set_ret r (set_data d w) in
  let w := set_digits (u8 (digits w + ret w)) w in
  if (ret w =? 0) && negb (digits w =? 0) then
    let (s, w) := do_requestFrom (addr w) (data w) w in
    let w := report "R!" (set_ret s w) in
    (set_state ST_RECV (set_digits 0 (set_data 0 w)), Goto recv_now_label)
  else if (ret w =? 0) && negb (l =? chr " ") && negb (l =? LF) then
    (set_state ST_CMD w, Goto parse_cmd_label)
  else (w, Break).

(** The receive loop; [None] when [fuel] tests of [available()] did not
    see it end. *)
Fixpoint recv_while (fuel : nat) (w : world B) : option (world B) :=
  match fuel with
  | O => None
  | S fuel' =>
      let (n, w) := do_available w in
      if n =? 0 then Some w
      else
        let (d, w) := do_receive w in
        let w := set_data d w in
        recv_while fuel' (print_hex None (data w) (Some (str " ")) w)
  end.

(** [recv_now:], the body of [case ST_RECV]. *)
Definition case_ST_RECV (fuel : nat) (w : world B) : option (world B * control) :=
  match recv_while fuel w with
  | None => None
  | Some w => Some (set_state ST_CMD w, Goto parse_cmd_label)
  end.

Definition block (fuel : nat) (s : enum_state) (l : Z) (w : world B)
  : option (world B * control) :=
  match s with
  | ST_INIT => Some (case_ST_INIT l w)
  | ST_ADDR => Some (case_ST_ADDR l w)
  | ST_CMD => Some (case_ST_CMD l w)
  | ST_CMDW => Some (case_ST_CMDW l w)
  | ST_CMDR => Some (case_ST_CMDR l w)
  | ST_RECV => case_ST_RECV fuel w
  end.

Definition case_of (t : label) : enum_state :=
  match t with parse_cmd_label => ST_CMD | recv_now_label => ST_RECV end.

(** [switch (state)], following the [goto]s. *)
Fixpoint switch (fuel : nat) (s : enum_state) (l : Z) (w : world B) : option (world B) :=
  match fuel with
  | O => None
  | S fuel' =>
      match block fuel' s l w with
      | None => None
      | Some (w', Break) => Some w'
      | Some (w', Goto t) => switch fuel' (case_of t) l w'
      end
  end.

(** The body of the [while] of [loop()], for the count [avl] that
    [SerialUSB.available()] returned and the byte [c] that
    [SerialUSB.read()] returned. *)
Definition iteration (fuel : nat) (avl c : Z) (w : world B) : option (world B) :=
  let l := to_upper (u8 c) in
  let w := if avl <? 2 then write [chr " "] w else w in
  switch fuel (state w) l w.

(** [loop()].  [port] is what the serial port answers, iteration after
    iteration: the count of [available()] and the byte of [read()];
    the [while] ends at the first count that is not positive, or when
    [port] is used up. *)
Fixpoint loop (fuel : nat) (port : list (Z * Z)) (w : world B) : option (world B) :=
  match port with
  | [] => Some w
  | (avl, c) :: rest =>
      if 0 <? avl then
        match iteration fuel avl c w with
        | None => None
        | Some w' => loop fuel rest w'
        end
      else Some w
  end.

(** The globals as initialised. *)
Definition power_on (b : B) : world B := World 0 0 0 0 ST_INIT b [] [].

End Sketch.

(** What the port answers when [cs] is pending and nothing more
    arrives: each byte with the number of bytes still there. *)
Fixpoint queued (cs : list Z) : list (Z * Z) :=
  match cs with
  | [] => []
  | c :: rest => (Z.of_nat (List.length cs), c) :: queued rest
  end.

End Earlier.

(** The state of the later sketch that stands for one of the earlier
    one; [ST_INIT] has none. *)
Definition later_state (s : Earlier.enum_state) : option enum_state :=
  match s with
  | Earlier.ST_INIT => None
  | Earlier.ST_ADDR => Some ST_ADDR
  | Earlier.ST_CMD => Some ST_CMD
  | Earlier.ST_CMDW => Some ST_CMDW
  | Earlier.ST_CMDR => Some ST_CMDR
  | Earlier.ST_RECV => Some ST_RECV
  end.

(** The two sketches stand at the same point: the same globals, the same
    bus, the same calls made. *)
Definition same_point {B : Type} (w1 : Earlier.world B) (w2 : world B) : Prop :=
  later_state (Earlier.state w1) = Some (state w2)
  /\ Earlier.ret w1 = ret w2 /\ Earlier.addr w1 = addr w2 /\ Earlier.data w1 = data w2
  /\ Earlier.digits w1 = digits w2 /\ Earlier.wire w1 = wire w2
  /\ Earlier.calls w1 = calls w2.

(** Both sketches came back, at the same point, or neither did. *)
Definition agree {B : Type} (r1 : option (Earlier.world B)) (r2 : option (world B)) : Prop :=
  match r1, r2 with
  | Some w1, Some w2 => same_point w1 w2
  | None, None => True
  | _, _ => False
  end.

(** What the receive loop of the earlier sketch prints for the bytes [ds]. *)
Fixpoint hextab_row (ds : list Z) : list Z :=
  match ds with
  | [] => []
  | d :: ds' =>
      Earlier.hextab_at (Z.shiftr d 4) :: Earlier.hextab_at (Z.land d 15) :: chr " "
      :: hextab_row ds'
  end.

(** ** Tactics for the case analysis on the blocks *)

Create Rewrite HintDb sketch.

Ltac open_blocks :=
  unfold resume, case_ST_CMD, case_ST_ADDR, case_ST_CMDW, case_ST_CMDR, accumulate_CMDW,
    accumulate_CMDR, parse_cmd, report, finish_RECV, received, do_beginTransmission,
    do_send, do_endTransmission, do_requestFrom, print_help in *.

(** Projections and updates of an explicit world. *)
Ltac fields :=
  repeat (progress (cbv beta iota zeta delta
      [ret addr data digits to_print state wire calls serial
       set_ret set_addr set_data set_digits set_to_print set_state write on_bus
       fst snd affix] in *; autorewrite with sketch in * )).

Ltac plain c :=
  lazymatch c with
  | context [if _ then _ else _] => fail
  | context [match _ with World _ _ _ _ _ _ _ _ _ => _ end] => fail
  | context [match _ with pair _ _ => _ end] => fail
  | _ => idtac
  end.

(** Splits on every test a block makes and on every answer of the bus. *)
Ltac split_ifs :=
  repeat (fields;
          match goal with
          | |- context [read_hex_at ?x ?l] =>
              plain x; destruct (read_hex_at x l) as [? ?] eqn:?
          | |- context [if ?c then _ else _] =>
              lazymatch type of c with bool => idtac end;
              plain c; destruct c eqn:?
          | |- context [endTransmission ?b] =>
              plain b; destruct (endTransmission b) as [? ?] eqn:?
          | |- context [requestFrom ?a ?n ?b] =>
              plain b; destruct (requestFrom a n b) as [? ?] eqn:?
          end);
  fields.

(** Character literals as numbers. *)
Ltac chars :=
  repeat match goal with
    | |- context [chr ?a] =>
        let v := eval vm_compute in (chr a) in change (chr a) with v
    | H : context [chr ?a] |- _ =>
        let v := eval vm_compute in (chr a) in change (chr a) with v in H
    end;
  change LF with 10 in *; change CR with 13 in *.

(** Tests that came out true or false, as equations and inequations. *)
Ltac tests :=
  repeat match goal with
    | H : (_ =? _) = true |- _ => apply Z.eqb_eq in H
    | H : (_ =? _) = false |- _ => apply Z.eqb_neq in H
    | H : negb _ = true |- _ => apply negb_true_iff in H
    | H : negb _ = false |- _ => apply negb_false_iff in H
    | H : _ && _ = true |- _ => apply andb_true_iff in H; destruct H
    | H : _ || _ = false |- _ => apply orb_false_iff in H; destruct H
    end.


Ltac branches :=
  repeat match goal with
    | H : _ || _ = true |- _ => apply orb_true_iff in H; destruct H
    | H : _ && _ = false |- _ => apply andb_false_iff in H; destruct H
    | H : _ \/ _ |- _ => destruct H
    end;
  tests.



(** Appended lists, flattened. *)
Ltac lists := rewrite <- ?app_assoc; cbn [app]; rewrite ?app_nil_r.

(** Comparisons of numbers, decided. *)
Ltac leb_cases :=
  repeat match goal with
    | |- context [?a <=? ?b] => destruct (Z.leb_spec a b)
    | |- context [?a <? ?b] => destruct (Z.ltb_spec a b)
    | |- context [?a =? ?b] => destruct (Z.eqb_spec a b)
    end.

(** Tests on a byte, decided from what is known of it. *)
Ltac decide_tests :=
  chars;
  repeat match goal with
    | |- context [?a =? ?b] => destruct (Z.eqb_spec a b); try (exfalso; lia)
    | |- context [?a <=? ?b] => destruct (Z.leb_spec a b); try (exfalso; lia)
    end;
  cbn [andb orb negb].

(** *** The same for the earlier sketch *)

Ltac old_blocks :=
  unfold Earlier.case_ST_INIT, Earlier.case_ST_ADDR, Earlier.case_ST_CMD,
    Earlier.case_ST_CMDW, Earlier.case_ST_CMDR, Earlier.parse_cmd, Earlier.report,
    Earlier.do_beginTransmission, Earlier.do_send, Earlier.do_endTransmission,
    Earlier.do_requestFrom, Earlier.print_hex in *.

Ltac old_fields :=
  repeat (progress (cbv beta iota zeta delta
      [Earlier.ret Earlier.addr Earlier.data Earlier.digits Earlier.state Earlier.wire
       Earlier.calls Earlier.serial Earlier.set_ret Earlier.set_addr Earlier.set_data
       Earlier.set_digits Earlier.set_state Earlier.write Earlier.on_bus
       fst snd affix] in * )).

Ltac old_plain c :=
  lazymatch c with
  | context [if _ then _ else _] => fail
  | context [match _ with Earlier.World _ _ _ _ _ _ _ _ => _ end] => fail
  | context [match _ with World _ _ _ _ _ _ _ _ _ => _ end] => fail
  | context [match _ with pair _ _ => _ end] => fail
  | _ => idtac
  end.

(** Splits on every test either sketch makes and on every answer of the bus. *)
Ltac split_both :=
  repeat (old_fields; fields;
          match goal with
          | |- context [read_hex_at ?x ?l] =>
              old_plain x; destruct (read_hex_at x l) as [? ?] eqn:?
          | |- context [if ?c then _ else _] =>
              lazymatch type of c with bool => idtac end;
              old_plain c; destruct c eqn:?
          | |- context [endTransmission ?b] =>
              old_plain b; destruct (endTransmission b) as [? ?] eqn:?
          | |- context [requestFrom ?a ?n ?b] =>
              old_plain b; destruct (requestFrom a n b) as [? ?] eqn:?
          end);
  old_fields; fields.

(** * Properties *)

(** ** Bytes and the hex codec *)

Lemma u8_range (x : Z) : 0 <= u8 x < 256.
Proof. unfold u8. apply Z.mod_pos_bound. lia. Qed.

Lemma u8_small (x : Z) : 0 <= x < 256 -> u8 x = x.
Proof. intros H. unfold u8. apply Z.mod_small. exact H. Qed.

Lemma uint8_t_range (x : Z) : 0 <= uint8_t x < 256.
Proof. apply u8_range. Qed.

Lemma read_hex_at_flag (x c : Z) :
  fst (read_hex_at x c) = 0 \/ fst (read_hex_at x c) = 1.
Proof.
  unfold read_hex_at, read_hex.
  destruct ((chr "0" <=? c) && (c <=? chr "9")); [right; reflexivity|].
  destruct ((chr "A" <=? c) && (c <=? chr "F")); [right; reflexivity|].
  destruct ((chr "a" <=? c) && (c <=? chr "z")); [right; reflexivity|].
  left; reflexivity.
Qed.

Lemma read_hex_at_miss (x c : Z) :
  fst (read_hex_at x c) = 0 -> snd (read_hex_at x c) = x.
Proof.
  unfold read_hex_at, read_hex.
  destruct ((chr "0" <=? c) && (c <=? chr "9")); [discriminate|].
  destruct ((chr "A" <=? c) && (c <=? chr "F")); [discriminate|].
  destruct ((chr "a" <=? c) && (c <=? chr "z")); [discriminate|].
  reflexivity.
Qed.

Lemma read_hex_at_range (x c : Z) :
  0 <= x < 256 -> 0 <= snd (read_hex_at x c) < 256.
Proof.
  intros Hx. unfold read_hex_at, read_hex.
  destruct ((chr "0" <=? c) && (c <=? chr "9")); [apply u8_range|].
  destruct ((chr "A" <=? c) && (c <=? chr "F")); [apply u8_range|].
  destruct ((chr "a" <=? c) && (c <=? chr "z")); [apply u8_range|].
  exact Hx.
Qed.

(** After the upper-casing of [loop], a byte is a digit for [read_hex]
    exactly when it is one of 0-9, A-F, a-f. *)
Lemma read_hex_after_to_upper (x c : Z) :
  0 <= c < 256 ->
  fst (read_hex_at x (to_upper c)) = 1 <->
  (chr "0" <= c <= chr "9" \/ chr "A" <= c <= chr "F" \/ chr "a" <= c <= chr "f").
Proof.
  intros Hc. unfold read_hex_at, read_hex, to_upper, u8.
  change (chr "0") with 48; change (chr "9") with 57; change (chr "A") with 65;
    change (chr "F") with 70; change (chr "a") with 97; change (chr "f") with 102;
    change (chr "z") with 122.
  destruct (Z.leb_spec ((c - 97) mod 256) (122 - 97)) as [Hl|Hl].
  - assert (Hlow : 97 <= c <= 122).
    { destruct (Z_lt_le_dec c 97) as [Hlt|Hge].
      - replace ((c - 97) mod 256) with (c - 97 + 256) in Hl; [lia|].
        apply (Z.mod_unique_pos _ _ (-1)); lia.
      - rewrite Z.mod_small in Hl; lia. }
    replace ((c - (97 - 65)) mod 256) with (c - 32) by (rewrite Z.mod_small; lia).
    destruct (Z.leb_spec 48 (c - 32)), (Z.leb_spec (c - 32) 57),
      (Z.leb_spec 65 (c - 32)), (Z.leb_spec (c - 32) 70),
      (Z.leb_spec 97 (c - 32)), (Z.leb_spec (c - 32) 122);
      cbn; split; intros; try discriminate; try reflexivity; lia.
  - assert (Hno : c < 97 \/ 122 < c).
    { destruct (Z_lt_le_dec c 97) as [Hlt|Hge]; [left; exact Hlt|right].
      rewrite Z.mod_small in Hl; lia. }
    destruct (Z.leb_spec 48 c), (Z.leb_spec c 57), (Z.leb_spec 65 c), (Z.leb_spec c 70),
      (Z.leb_spec 97 c), (Z.leb_spec c 122);
      cbn; split; intros; try discriminate; try reflexivity; lia.
Qed.

Lemma hex2_ok_all : forallb hex2_ok (map Z.of_nat (seq 0 256)) = true.
Proof. vm_compute. reflexivity. Qed.

(** [print_hex] writes a byte as its two uppercase hex digits, the high
    one first. *)
Lemma hex2_digits (x : Z) :
  0 <= x < 256 ->
  exists h l, hex2 x = [h; l] /\ is_upper_hex h = true /\ is_upper_hex l = true
              /\ 16 * hex_value h + hex_value l = x.
Proof.
  intros Hx.
  assert (Hin : In x (map Z.of_nat (seq 0 256))).
  { apply in_map_iff. exists (Z.to_nat x). split; [lia|]. apply in_seq. lia. }
  pose proof (proj1 (forallb_forall _ _) hex2_ok_all x Hin) as Hok.
  unfold hex2_ok in Hok. unfold hex2 in *.
  apply andb_true_iff in Hok. destruct Hok as [Hok Hv].
  apply andb_true_iff in Hok. destruct Hok as [Hh Hl].
  apply Z.eqb_eq in Hv.
  eexists. eexists. repeat split; eassumption.
Qed.

Lemma last_nonempty {A : Type} (x d d' : A) (l : list A) :
  last (x :: l) d = last (x :: l) d'.
Proof.
  revert x. induction l as [|y l IH]; intros x; [reflexivity|].
  change (last (y :: l) d = last (y :: l) d'). apply IH.
Qed.

Lemma last_cons_default {A : Type} (a d : A) (l : list A) :
  last (a :: l) d = last l a.
Proof.
  destruct l as [|x l]; [reflexivity|].
  change (last (x :: l) d = last (x :: l) a). apply last_nonempty.
Qed.

Section Facts.

Context {B : Type} {TW : TinyWireM B}.

(** ** The receive loop *)

(** The receive loop reads what [pull] says and prints it as [hex_row]. *)
Lemma recv_while_pull (fuel : nat) (w : world B) :
  recv_while fuel w =
  match pull fuel (wire w) with
  | None => None
  | Some (ds, b') => Some (received ds b' w)
  end.
Proof.
  revert w. induction fuel as [|fuel IH]; intros w; [reflexivity|].
  destruct w as [r a d g p s b cs out].
  cbn [recv_while pull wire]. unfold do_available. cbn [wire].
  destruct (available b) as [n b1].
  destruct (uint8_t n =? 0).
  - unfold received. cbn. rewrite app_nil_r. reflexivity.
  - unfold do_receive. cbn [wire on_bus].
    destruct (receive b1) as [x b2]. cbn [set_data data print_hex write str].
    rewrite IH. cbn [wire].
    destruct (pull fuel b2) as [[ds b3]|]; [|reflexivity].
    unfold received. cbn [ret addr data digits to_print state calls serial].
    rewrite last_cons_default. cbn [List.length pull_calls hex_row hex2].
    repeat rewrite <- app_assoc. reflexivity.
Qed.

Lemma pull_more (fuel fuel' : nat) (b : B) (r : list Z * B) :
  pull fuel b = Some r -> (fuel <= fuel')%nat -> pull fuel' b = Some r.
Proof.
  revert fuel' b r. induction fuel as [|fuel IH]; intros fuel' b r H Hle; [discriminate|].
  destruct fuel' as [|fuel']; [lia|].
  cbn [pull] in *. destruct (available b) as [n b1].
  destruct (uint8_t n =? 0); [exact H|].
  destruct (receive b1) as [x b2].
  destruct (pull fuel b2) as [r0|] eqn:E; [|discriminate].
  rewrite (IH fuel' b2 r0 E); [exact H|lia].
Qed.

(** ** The switch, without fuel *)

Lemma loop_path_switch (fuel : nat) (c : Z) (w : world B) :
  loop_path fuel (Some c) w =
  switch fuel (state w) (to_upper (u8 c)) (set_to_print (filler c) w).
Proof. destruct w; reflexivity. Qed.

Lemma block_does (fuel : nat) (s : enum_state) (l : Z) (w : world B) (r : world B * control) :
  block fuel s l w = Some r -> does l s w r.
Proof.
  destruct s; cbn [block]; intros H; try (injection H as <-; constructor).
  unfold case_ST_RECV in H. rewrite recv_while_pull in H.
  destruct (pull fuel (wire w)) as [[ds b']|] eqn:E; [|discriminate].
  injection H as <-. econstructor. exact E.
Qed.

Lemma does_block (s : enum_state) (l : Z) (w : world B) (r : world B * control) :
  does l s w r ->
  exists n, forall fuel, (n <= fuel)%nat -> block fuel s l w = Some r.
Proof.
  intros H. destruct H as [w|w|w|w|w n ds b' E]; try (exists O; intros; reflexivity).
  exists n. intros fuel Hle. cbn [block]. unfold case_ST_RECV.
  rewrite recv_while_pull. rewrite (pull_more n fuel _ _ E Hle). reflexivity.
Qed.

Lemma switch_goes (fuel : nat) (s : enum_state) (l : Z) (w w' : world B) (path : list label) :
  switch fuel s l w = Some (w', path) -> goes l s w w' path.
Proof.
  revert s w w' path. induction fuel as [|fuel IH]; intros s w w' path H; [discriminate|].
  cbn [switch] in H.
  destruct (block fuel s l w) as [[w1 [|t]]|] eqn:E; [| |discriminate].
  - injection H as <- <-. apply goes_break. eapply block_does. exact E.
  - destruct (switch fuel (case_of t) l w1) as [[w2 p]|] eqn:E2; [|discriminate].
    injection H as <- <-. eapply goes_goto.
    + eapply block_does. exact E.
    + apply IH. exact E2.
Qed.

Lemma goes_switch (s : enum_state) (l : Z) (w w' : world B) (path : list label) :
  goes l s w w' path ->
  exists n, forall fuel, (n <= fuel)%nat -> switch fuel s l w = Some (w', path).
Proof.
  induction 1 as [s w w' Hd|s w w1 t w' path Hd Hg [n IH]].
  - destruct (does_block _ _ _ _ Hd) as [n Hn].
    exists (S n). intros [|fuel] Hle; [lia|].
    cbn [switch]. rewrite Hn by lia. reflexivity.
  - destruct (does_block _ _ _ _ Hd) as [m Hm].
    exists (S (Nat.max n m)). intros [|fuel] Hle; [lia|].
    cbn [switch]. rewrite Hm by lia. rewrite IH by lia. reflexivity.
Qed.

(** Where the blocks jump: only [case ST_CMDR] ever goes to [recv_now]. *)
Lemma does_goto (l : Z) (s : enum_state) (w w1 : world B) (t : label) :
  does l s w (w1, Goto t) ->
  (t = parse_cmd_label /\ s <> ST_CMD) \/ (t = recv_now_label /\ s = ST_CMDR).
Proof.
  intros H. remember (w1, Goto t) as r eqn:E.
  destruct H as [w|w|w|w|w n ds b' Hp].
  - discriminate.
  - unfold case_ST_ADDR in E.
    destruct (negb _ && negb _ && negb _) in E; [discriminate|].
    injection E as _ ->. left; split; [reflexivity|discriminate].
  - unfold case_ST_CMDW in E.
    destruct (_ && _ && _) in E; [|discriminate].
    destruct (do_endTransmission _) in E.
    injection E as _ ->. left; split; [reflexivity|discriminate].
  - unfold case_ST_CMDR in E.
    destruct ((ret _ =? 0) && negb (digits _ =? 0)) in E.
    + destruct (do_requestFrom _ _ _) in E. injection E as _ ->. right; split; reflexivity.
    + destruct (_ && _ && _) in E; [|discriminate].
      injection E as _ ->. left; split; [reflexivity|discriminate].
  - injection E as _ ->. left; split; [reflexivity|discriminate].
Qed.

Lemma does_CMD_inv (l : Z) (w : world B) (r : world B * control) :
  does l ST_CMD w r -> r = (parse_cmd l w, Break).
Proof. intros H. inversion H. reflexivity. Qed.

Lemma does_RECV_inv (l : Z) (w : world B) (r : world B * control) :
  does l ST_RECV w r -> snd r = Goto parse_cmd_label.
Proof.
  intros H. remember ST_RECV as s eqn:Es.
  destruct H; try discriminate. reflexivity.
Qed.

Lemma goes_CMD (l : Z) (w w' : world B) (path : list label) :
  goes l ST_CMD w w' path -> w' = parse_cmd l w /\ path = [].
Proof.
  intros H. remember ST_CMD as s eqn:Es.
  destruct H as [s w w' Hd|s w w1 t w' path Hd Hg]; subst s;
    apply does_CMD_inv in Hd; [|discriminate].
  injection Hd as ->. split; reflexivity.
Qed.

(** The three shapes a run of the switch can have. *)
Lemma goes_cases (l : Z) (s : enum_state) (w w' : world B) (path : list label) :
  goes l s w w' path ->
  (does l s w (w', Break) /\ path = [])
  \/ (exists w1, does l s w (w1, Goto parse_cmd_label)
                 /\ w' = parse_cmd l w1 /\ path = [parse_cmd_label])
  \/ (exists w1 w2, s = ST_CMDR /\ does l s w (w1, Goto recv_now_label)
                    /\ does l ST_RECV w1 (w2, Goto parse_cmd_label)
                    /\ w' = parse_cmd l w2 /\ path = [recv_now_label; parse_cmd_label]).
Proof.
  intros H. destruct H as [s w w' Hd|s w w1 t w' path Hd Hg].
  - left. split; [exact Hd|reflexivity].
  - right. destruct (does_goto _ _ _ _ _ Hd) as [[-> Hs]|[-> ->]]; cbn [case_of] in Hg.
    + left. exists w1. apply goes_CMD in Hg. destruct Hg as [-> ->].
      split; [exact Hd|]. split; reflexivity.
    + right. remember ST_RECV as s eqn:Es.
      destruct Hg as [s w0 w0' Hd0|s w0 w2 t0 w0' p0 Hd0 Hg0]; subst s.
      * apply does_RECV_inv in Hd0. discriminate.
      * pose proof (does_RECV_inv _ _ _ Hd0) as Ht. cbn [snd] in Ht.
        injection Ht as ->. cbn [case_of] in Hg0.
        apply goes_CMD in Hg0. destruct Hg0 as [-> ->].
        exists w0, w2. repeat split; assumption.
Qed.

Lemma does_inv (l : Z) (s : enum_state) (w : world B) (r : world B * control) :
  does l s w r ->
  match s with
  | ST_CMD => r = case_ST_CMD l w
  | ST_ADDR => r = case_ST_ADDR l w
  | ST_CMDW => r = case_ST_CMDW l w
  | ST_CMDR => r = case_ST_CMDR l w
  | ST_RECV => exists n ds b', pull n (wire w) = Some (ds, b')
                 /\ r = (finish_RECV (received ds b' w), Goto parse_cmd_label)
  end.
Proof. destruct 1; eauto. Qed.

(** ** One call of [loop] *)

Lemma loop_idle (fuel : nat) (w : world B) : loop fuel None w = Some (idle w).
Proof. reflexivity. Qed.

(** What a call of [loop] that read the byte [c] has done when it returns. *)
Lemma loop_inv (fuel : nat) (c : Z) (w w' : world B) :
  loop fuel (Some c) w = Some w' ->
  match state w with
  | ST_CMD => w' = parse_cmd (to_upper (u8 c)) (set_to_print (filler c) w)
  | ST_ADDR =>
      w' = resume (to_upper (u8 c))
             (case_ST_ADDR (to_upper (u8 c)) (set_to_print (filler c) w))
  | ST_CMDW =>
      w' = resume (to_upper (u8 c))
             (case_ST_CMDW (to_upper (u8 c)) (set_to_print (filler c) w))
  | ST_CMDR =>
      (snd (case_ST_CMDR (to_upper (u8 c)) (set_to_print (filler c) w))
         <> Goto recv_now_label
       /\ w' = resume (to_upper (u8 c))
                 (case_ST_CMDR (to_upper (u8 c)) (set_to_print (filler c) w)))
      \/ (snd (case_ST_CMDR (to_upper (u8 c)) (set_to_print (filler c) w))
            = Goto recv_now_label
          /\ exists n ds b',
              pull n (wire (fst (case_ST_CMDR (to_upper (u8 c))
                                   (set_to_print (filler c) w)))) = Some (ds, b')
              /\ w' = parse_cmd (to_upper (u8 c))
                        (finish_RECV
                           (received ds b'
                              (fst (case_ST_CMDR (to_upper (u8 c))
                                      (set_to_print (filler c) w))))))
  | ST_RECV =>
      exists n ds b',
        pull n (wire w) = Some (ds, b')
        /\ w' = parse_cmd (to_upper (u8 c))
                  (finish_RECV (received ds b' (set_to_print (filler c) w)))
  end.
Proof.
  unfold loop. intros H.
  destruct (loop_path fuel (Some c) w) as [[w2 path]|] eqn:E; [|discriminate].
  injection H as ->. rewrite loop_path_switch in E.
  apply switch_goes in E. apply goes_cases in E.
  set (l := to_upper (u8 c)) in *. set (w0 := set_to_print (filler c) w) in *.
  assert (Hw : wire w0 = wire w) by (destruct w; reflexivity).
  destruct E as [[Hd _]|[(w1 & Hd & -> & _)|(w1 & w2 & Hs & Hd & Hd2 & -> & _)]].
  - apply does_inv in Hd. destruct (state w).
    + injection Hd as ->. reflexivity.
    + rewrite <- Hd. reflexivity.
    + rewrite <- Hd. reflexivity.
    + left. rewrite <- Hd. split; [discriminate|reflexivity].
    + destruct Hd as (n & ds & b' & _ & Hd). discriminate.
  - apply does_inv in Hd. destruct (state w).
    + discriminate.
    + rewrite <- Hd. reflexivity.
    + rewrite <- Hd. reflexivity.
    + left. rewrite <- Hd. split; [discriminate|reflexivity].
    + destruct Hd as (n & ds & b' & Hp & Hd). injection Hd as ->.
      exists n, ds, b'. rewrite <- Hw. split; [exact Hp|reflexivity].
  - rewrite Hs in *. apply does_inv in Hd. apply does_inv in Hd2.
    destruct Hd2 as (n & ds & b' & Hp & Hd2). injection Hd2 as ->.
    right. rewrite <- Hd. split; [reflexivity|].
    exists n, ds, b'. split; [exact Hp|reflexivity].
Qed.

(** A call of [loop] that does not reach the receive loop returns, with
    any fuel of at least 2. *)
Lemma loop_returns (fuel : nat) (c : Z) (w : world B) (r : world B * control) :
  block 0 (state w) (to_upper (u8 c)) (set_to_print (filler c) w) = Some r ->
  snd r <> Goto recv_now_label ->
  loop (S (S fuel)) (Some c) w = Some (resume (to_upper (u8 c)) r).
Proof.
  intros Hb Hr. unfold loop. rewrite loop_path_switch.
  set (l := to_upper (u8 c)) in *. set (w0 := set_to_print (filler c) w) in *.
  assert (Hb' : block (S fuel) (state w) l w0 = Some r).
  { destruct (state w); try exact Hb. discriminate. }
  cbn [switch]. rewrite Hb'. destruct r as [w1 [|[|]]]; cbn [snd] in Hr.
  - reflexivity.
  - reflexivity.
  - contradiction.
Qed.

Lemma pull_needs_fuel (n : nat) (b : B) (r : list Z * B) :
  pull n b = Some r -> exists m, n = S m.
Proof. destruct n as [|m]; [discriminate|]. intros _. exists m. reflexivity. Qed.

(** Entered at [recv_now], the switch ends once the fuel covers what
    the receive loop reads. *)
Lemma switch_RECV (n fuel : nat) (l : Z) (w : world B) (ds : list Z) (b' : B) :
  pull n (wire w) = Some (ds, b') -> (n + 1 <= fuel)%nat ->
  switch fuel ST_RECV l w =
  Some (parse_cmd l (finish_RECV (received ds b' w)), [parse_cmd_label]).
Proof.
  intros Hp Hle. destruct (pull_needs_fuel _ _ _ Hp) as [m ->].
  destruct fuel as [|[|fuel]]; try lia.
  cbn [switch block]. unfold case_ST_RECV. rewrite recv_while_pull.
  rewrite (pull_more (S m) (S fuel) _ _ Hp) by lia. reflexivity.
Qed.

Lemma loop_returns_RECV (n fuel : nat) (c : Z) (w : world B) (ds : list Z) (b' : B) :
  state w = ST_RECV ->
  pull n (wire w) = Some (ds, b') -> (n + 1 <= fuel)%nat ->
  loop fuel (Some c) w =
  Some (parse_cmd (to_upper (u8 c))
          (finish_RECV (received ds b' (set_to_print (filler c) w)))).
Proof.
  intros Hs Hp Hle. unfold loop. rewrite loop_path_switch. rewrite Hs.
  rewrite (switch_RECV n fuel _ _ ds b'); [reflexivity| |exact Hle].
  destruct w; exact Hp.
Qed.

Lemma loop_returns_CMDR (n fuel : nat) (c : Z) (w : world B) (ds : list Z) (b' : B) :
  state w = ST_CMDR ->
  snd (case_ST_CMDR (to_upper (u8 c)) (set_to_print (filler c) w)) = Goto recv_now_label ->
  pull n (wire (fst (case_ST_CMDR (to_upper (u8 c)) (set_to_print (filler c) w))))
    = Some (ds, b') ->
  (n + 2 <= fuel)%nat ->
  loop fuel (Some c) w =
  Some (parse_cmd (to_upper (u8 c))
          (finish_RECV
             (received ds b'
                (fst (case_ST_CMDR (to_upper (u8 c)) (set_to_print (filler c) w)))))).
Proof.
  intros Hs Hk Hp Hle. unfold loop. rewrite loop_path_switch. rewrite Hs.
  destruct fuel as [|fuel]; [lia|].
  cbn [switch block].
  destruct (case_ST_CMDR (to_upper (u8 c)) (set_to_print (filler c) w)) as [w1 k].
  cbn [fst snd] in *. subst k. cbn [case_of].
  rewrite (switch_RECV n fuel _ _ ds b' Hp) by lia. reflexivity.
Qed.

End Facts.

(** ** Case analysis on the blocks *)

(** [print_hex] writes the prefix, two hex digits and the suffix. *)
Lemma print_hex_write {B : Type} (pfx sfx : option (list Z)) (x : Z) (w : world B) :
  print_hex pfx x sfx w = write (affix pfx ++ hex2 x ++ affix sfx) w.
Proof.
  destruct w as [r a d g p s b cs out].
  destruct pfx as [[|c0 s0]|], sfx as [[|c1 s1]|]; cbn;
    rewrite <- ?app_assoc, ?app_nil_r; reflexivity.
Qed.

#[export] Hint Rewrite @print_hex_write : sketch.

Lemma count_app (p : bus_call -> bool) (xs ys : list bus_call) :
  count p (xs ++ ys) = (count p xs + count p ys)%nat.
Proof. unfold count. rewrite filter_app, length_app. reflexivity. Qed.

Lemma count_pull_calls (p : bus_call -> bool) (n : nat) :
  p Available = false -> p Receive = false -> count p (pull_calls n) = O.
Proof.
  intros Ha Hr. unfold count.
  induction n as [|n IH]; cbn [pull_calls filter]; rewrite Ha; [reflexivity|].
  rewrite Hr. exact IH.
Qed.

Section Claims.

Context {B : Type} {TW : TinyWireM B}.

(** The calls of one [loop()]: how many of them are [endTransmission()]. *)
Lemma loop_count_end (fuel : nat) (c : Z) (w w' : world B) :
  loop fuel (Some c) w = Some w' ->
  count is_end (calls w') =
  (count is_end (calls w)
   + (if enum_state_eqb (state w) ST_CMDW && closes_write (data w) c then 1 else 0))%nat.
Proof.
  intros H. apply loop_inv in H. unfold closes_write.
  set (l := to_upper (u8 c)) in *. clearbody l.
  destruct w as [r a d g p st b cs out]. fields.
  destruct st; cbn [enum_state_eqb andb].
  - subst w'. open_blocks. split_ifs; rewrite ?count_app; cbn; lia.
  - subst w'. open_blocks. split_ifs; rewrite ?count_app; cbn; lia.
  - subst w'. open_blocks. split_ifs; rewrite ?count_app; cbn; lia.
  - destruct H as [[_ ->]|[_ (n & ds & b' & _ & ->)]].
    + open_blocks. split_ifs; rewrite ?count_app; cbn; lia.
    + open_blocks. split_ifs;
        rewrite ?count_app, ?count_pull_calls by reflexivity; cbn; lia.
  - destruct H as (n & ds & b' & _ & ->).
    open_blocks. split_ifs;
      rewrite ?count_app, ?count_pull_calls by reflexivity; cbn; lia.
Qed.

(** After a byte that ends an open write, [loop] is no longer in
    [ST_CMDW]. *)
Lemma loop_leaves_write (fuel : nat) (c : Z) (w w' : world B) :
  loop fuel (Some c) w = Some w' ->
  state w = ST_CMDW -> closes_write (data w) c = true ->
  state w' <> ST_CMDW.
Proof.
  intros H Hs Hc. apply loop_inv in H. rewrite Hs in H.
  unfold closes_write in Hc.
  set (l := to_upper (u8 c)) in *. clearbody l.
  destruct w as [r a d g p st b cs out]. fields. subst w'.
  revert Hc. open_blocks. split_ifs; intros Hc; try discriminate.
  all: repeat match goal with
         | H : (_ =? _) = true |- _ => rewrite H in *
         end;
       cbn [negb andb] in *; rewrite ?andb_false_r in *; discriminate.
Qed.

(** C10. [endTransmission()] is called only by a [loop()] that starts in
    [ST_CMDW] and leaves it (once, on a byte that ends the write); a
    [loop()] without input calls nothing; and a [P] (or [p]) read in
    [ST_CMD] is ignored: [loop] returns with no bus call, no output, the
    bus, the state and the address as they were.  As for every byte
    that [ST_CMD] ignores, the keep-alive byte is armed and the digit
    accumulator is (again) cleared. *)
Theorem endTransmission_only_leaving_write (fuel : nat) (c : Z) (w : world B) :
  (forall w', loop fuel (Some c) w = Some w' ->
     count is_end (calls w') =
       (count is_end (calls w)
        + (if enum_state_eqb (state w) ST_CMDW && closes_write (data w) c then 1 else 0))%nat
     /\ (count is_end (calls w') <> count is_end (calls w) ->
         state w = ST_CMDW /\ state w' <> ST_CMDW))
  /\ calls (idle w) = calls w
  /\ (state w = ST_CMD -> to_upper (u8 c) = chr "P" ->
      exists w', loop (S fuel) (Some c) w = Some w'
        /\ calls w' = calls w /\ serial w' = serial w /\ wire w' = wire w
        /\ state w' = ST_CMD /\ addr w' = addr w /\ ret w' = ret w
        /\ to_print w' = filler c /\ data w' = 0 /\ digits w' = 0).
Proof.
  split; [|split].
  - intros w' H. pose proof (loop_count_end _ _ _ _ H) as Hn.
    split; [exact Hn|]. intros Hne.
    destruct (enum_state_eqb (state w) ST_CMDW) eqn:Es; cbn [andb] in Hn; [|lia].
    destruct (closes_write (data w) c) eqn:Ec; [|lia].
    assert (Hs : state w = ST_CMDW) by (destruct (state w); try discriminate; reflexivity).
    split; [exact Hs|]. eapply loop_leaves_write; eassumption.
  - destruct w as [r a d g p st b cs out]. unfold idle. fields.
    destruct (p =? 0); reflexivity.
  - intros Hs HP.
    assert (Hl : loop (S fuel) (Some c) w
                 = Some (parse_cmd (to_upper (u8 c)) (set_to_print (filler c) w))).
    { unfold loop. rewrite loop_path_switch, Hs. reflexivity. }
    rewrite Hl, HP. eexists. split; [reflexivity|].
    destruct w as [r a d g p st b cs out]. fields. subst st.
    repeat split; reflexivity.
Qed.

End Claims.

(** C10 at a concrete input: [P] typed at power-on. *)
Lemma endTransmission_only_leaving_write_witness :
  exists w', loop 1 (Some (chr "P")) (power_on quiet) = Some w'
    /\ calls w' = [] /\ serial w' = [] /\ wire w' = quiet
    /\ state w' = ST_CMD /\ addr w' = 0 /\ ret w' = 0
    /\ to_print w' = chr " " /\ data w' = 0 /\ digits w' = 0.
Proof.
  destruct (endTransmission_only_leaving_write 0 (chr "P") (power_on quiet)) as [_ [_ H]].
  apply H; reflexivity.
Defined.

(** [read_hex] does not take a command letter for a digit. *)
Lemma read_hex_at_command (x l : Z) :
  l = 83 \/ l = 80 \/ l = 87 \/ l = 82 \/ l = 63 \/ l = 32 \/ l = 10 ->
  read_hex_at x l = (0, x).
Proof. intros [->|[->|[->|[->|[->|[->| ->]]]]]]; reflexivity. Qed.

(** All that the case analysis needs of a result of [read_hex]. *)
Lemma read_hex_at_facts (x l z z0 : Z) :
  read_hex_at x l = (z, z0) ->
  (0 <= x < 256 -> 0 <= z0 < 256)
  /\ (z = 0 -> z0 = x)
  /\ (z = 0 \/ z = 1)
  /\ (l = 83 \/ l = 80 \/ l = 87 \/ l = 82 \/ l = 63 \/ l = 32 \/ l = 10 -> z = 0 /\ z0 = x).
Proof.
  intros H.
  pose proof (read_hex_at_range x l) as Hr.
  pose proof (read_hex_at_miss x l) as Hm.
  pose proof (read_hex_at_flag x l) as Hf.
  pose proof (read_hex_at_command x l) as Hc.
  rewrite H in Hr, Hm, Hf, Hc. cbn [fst snd] in Hr, Hm, Hf.
  split; [exact Hr|]. split; [exact Hm|]. split; [exact Hf|].
  intros Hl. injection (Hc Hl) as -> ->. split; reflexivity.
Qed.

(** What is known of a result of [read_hex]. *)
Ltac digit_facts :=
  repeat match goal with
    | H : read_hex_at ?x ?l = (?z, ?z0) |- _ =>
        let Hr := fresh "Hrange" in
        let Hm := fresh "Hmiss" in
        let Hf := fresh "Hflag" in
        let Hc := fresh "Hcmd" in
        destruct (read_hex_at_facts x l z z0 H) as (Hr & Hm & Hf & Hc);
        clear H;
        first [ let HP := fresh in
                assert (HP : l = 83 \/ l = 80 \/ l = 87 \/ l = 82 \/ l = 63 \/ l = 32 \/ l = 10)
                  by lia;
                destruct (Hc HP) as [-> ->]; clear Hc HP
              | clear Hc ]
    end.

Section Address.

Context {B : Type} {TW : TinyWireM B}.

(** The address over one [loop()]. *)
Lemma loop_addr (fuel : nat) (i : option Z) (w w' : world B) :
  loop fuel i w = Some w' ->
  (0 <= addr w < 256 -> 0 <= addr w' < 256)
  /\ (state w <> ST_ADDR ->
      (forall c, i = Some c -> to_upper (u8 c) <> chr "S") ->
      addr w' = addr w /\ state w' <> ST_ADDR)
  /\ (forall c, i = Some c ->
      to_upper (u8 c) = chr "W" \/ to_upper (u8 c) = chr "R" ->
      addr w' = addr w /\ state w' <> ST_ADDR).
Proof.
  intros H. destruct i as [c|].
  2:{ injection H as <-. destruct w as [r a d g p st b cs out]. unfold idle. fields.
      destruct (p =? 0); fields; intuition (try discriminate; try congruence). }
  apply loop_inv in H.
  assert (HS : forall P : Prop,
             (to_upper (u8 c) <> chr "S" -> P) ->
             (forall c0, Some c = Some c0 -> to_upper (u8 c0) <> chr "S") -> P).
  { intros P HP Hall. apply HP. apply Hall. reflexivity. }
  assert (HW : forall P : Prop,
             (to_upper (u8 c) = chr "W" \/ to_upper (u8 c) = chr "R" -> P) ->
             (forall c0, Some c = Some c0 ->
                to_upper (u8 c0) = chr "W" \/ to_upper (u8 c0) = chr "R" -> P)).
  { intros P HP c0 E. injection E as <-. exact HP. }
  set (l := to_upper (u8 c)) in *. clearbody l.
  destruct w as [r a d g p st b cs out]. fields.
  split; [|split; [intros Hst; apply HS; intros HnS|apply HW; intros HWR]].
  all: destruct st; try congruence.
  all: try (destruct H as [[_ ->]|[_ (n & ds & b' & _ & ->)]]).
  all: try (destruct H as (n & ds & b' & _ & ->)).
  all: try subst w'.
  all: open_blocks; split_ifs; tests; chars; digit_facts.
  all: try (intros; repeat split; first [lia|discriminate|congruence]).
Qed.

(** The address over any number of [loop()]s. *)
Lemma run_addr (fuel : nat) (inputs : list (option Z)) (w w' : world B) :
  run fuel inputs w = Some w' ->
  (0 <= addr w < 256 -> 0 <= addr w' < 256)
  /\ (state w <> ST_ADDR ->
      (forall c, In (Some c) inputs -> to_upper (u8 c) <> chr "S") ->
      addr w' = addr w /\ state w' <> ST_ADDR).
Proof.
  revert w. induction inputs as [|i rest IH]; intros w H.
  - injection H as <-. split; [tauto|]. intros Hs _. split; [reflexivity|exact Hs].
  - cbn [run] in H. destruct (loop fuel i w) as [w1|] eqn:E; [|discriminate].
    destruct (loop_addr _ _ _ _ E) as (Hr & Hk & _).
    destruct (IH _ H) as (Hr' & Hk').
    split; [tauto|]. intros Hs Hno.
    destruct Hk as [Ha Hs1]; [exact Hs| |].
    + intros c ->. apply Hno. left. reflexivity.
    + destruct Hk' as [Ha' Hs']; [exact Hs1| |].
      * intros c Hin. apply Hno. right. exact Hin.
      * split; [congruence|exact Hs'].
Qed.

(** C6, as the code has it.  The bus address is an [unsigned char]: it
    stays within 0..255 (not 0..127: nothing masks the eighth bit).  It
    changes only in [ST_ADDR] or on an [S]: from any other state, input
    without [S] leaves it as it is, and so does a [W] or an [R] that
    ends the address, with whatever follows up to the next [S]. *)
Theorem bus_address_kept_until_S (fuel : nat) (inputs : list (option Z)) (w w' : world B) :
  run fuel inputs w = Some w' ->
  (0 <= addr w < 256 -> 0 <= addr w' < 256)
  /\ (state w <> ST_ADDR ->
      (forall c, In (Some c) inputs -> to_upper (u8 c) <> chr "S") ->
      addr w' = addr w)
  /\ (forall c rest, inputs = Some c :: rest ->
      to_upper (u8 c) = chr "W" \/ to_upper (u8 c) = chr "R" ->
      (forall c', In (Some c') rest -> to_upper (u8 c') <> chr "S") ->
      addr w' = addr w).
Proof.
  intros H. destruct (run_addr _ _ _ _ H) as (Hr & Hk).
  split; [exact Hr|]. split; [intros Hs Hno; apply Hk; assumption|].
  intros c rest -> HWR Hno. cbn [run] in H.
  destruct (loop fuel (Some c) w) as [w1|] eqn:E; [|discriminate].
  destruct (loop_addr _ _ _ _ E) as (_ & _ & H1).
  destruct (H1 c eq_refl HWR) as [Ha Hs].
  destruct (run_addr _ _ _ _ H) as (_ & H2).
  destruct (H2 Hs Hno) as [Ha' _]. congruence.
Qed.

End Address.

(** C6 at a concrete input: after [S68], the input [W0 R7] and a line
    feed leaves the address at 0x68. *)
Lemma bus_address_kept_until_S_witness :
  run 4 (typed "W0 R7" ++ [Some LF]) (World 0 104 0 0 32 ST_ADDR quiet [] [])
  = Some (World 0 104 0 0 0 ST_CMD quiet
            [BeginTransmission 104; Send 0; EndTransmission; RequestFrom 104 7; Available]
            [13; 10])
  /\ addr (World 0 104 0 0 0 ST_CMD quiet
             [BeginTransmission 104; Send 0; EndTransmission; RequestFrom 104 7; Available]
             [13; 10])
     = addr (World 0 104 0 0 32 ST_ADDR quiet [] []).
Proof.
  split; [reflexivity|].
  refine (proj2 (proj2 (bus_address_kept_until_S 4
            (typed "W0 R7" ++ [Some LF])
            (World 0 104 0 0 32 ST_ADDR quiet [] []) _ _)) (chr "W") _ _ _ _).
  - reflexivity.
  - reflexivity.
  - left. reflexivity.
  - cbn. intros c' [E|[E|[E|[E|[E|[]]]]]]; injection E as <-; vm_compute; discriminate.
Defined.

(** C6 as stated fails: [SFF] sets the address to 255, and the next [W]
    begins a transmission to it. *)
Lemma bus_address_above_127 :
  option_map (fun w => (addr w, calls w)) (run 2 (typed "SFFW") (power_on quiet))
  = Some (255, [BeginTransmission 255]).
Proof. reflexivity. Qed.

(** ** The digit count *)


Section Digits.

Context {B : Type} {TW : TinyWireM B}.



End Digits.

(** ** Running the sketch on given input, against any bus *)

Section Runs.

Context {B : Type} {TW : TinyWireM B}.

Lemma run_app (fuel : nat) (xs ys : list (option Z)) (w : world B) :
  run fuel (xs ++ ys) w =
  match run fuel xs w with
  | Some w1 => run fuel ys w1
  | None => None
  end.
Proof.
  revert w. induction xs as [|x xs IH]; intros w; [reflexivity|].
  cbn [run app]. destruct (loop fuel x w); [apply IH|reflexivity].
Qed.

(** The error line, spelled out. *)
Lemma report_write (pfx : string) (w : world B) :
  report pfx w =
  if ret w =? 0 then w
  else set_to_print 0 (write (str pfx ++ hex2 (ret w) ++ [LF]) w).
Proof.
  unfold report. destruct (ret w =? 0); cbn [negb]; [reflexivity|].
  rewrite print_hex_write. reflexivity.
Qed.

Lemma accumulate_CMDW_ret (l : Z) (w : world B) :
  ret (accumulate_CMDW l w) = fst (read_hex_at (data w) l).
Proof.
  destruct w as [r a d g p st b cs out]. unfold accumulate_CMDW. fields.
  destruct (read_hex_at d l) as [z z0]. fields.
  destruct (negb (u8 (g + z) =? 0) && (z =? 0) || (u8 (g + z) =? 2)); reflexivity.
Qed.

Lemma data_set_to_print (v : Z) (w : world B) : data (set_to_print v w) = data w.
Proof. destruct w; reflexivity. Qed.

(** The [loop()] that ends an open write: what is left of the byte is
    sent, then [endTransmission()], then the byte goes to [parse_cmd]. *)
Lemma loop_closes_write (fuel : nat) (c : Z) (w : world B) (s : Z) (b' : B) :
  state w = ST_CMDW ->
  closes_write (data w) c = true ->
  endTransmission (wire (accumulate_CMDW (to_upper (u8 c)) (set_to_print (filler c) w)))
    = (s, b') ->
  case_ST_CMDW (to_upper (u8 c)) (set_to_print (filler c) w) =
    (set_state ST_CMD
       (report "W!"
          (set_ret (uint8_t s)
             (on_bus EndTransmission b'
                (accumulate_CMDW (to_upper (u8 c)) (set_to_print (filler c) w))))),
     Goto parse_cmd_label)
  /\ loop (S (S fuel)) (Some c) w =
     Some (parse_cmd (to_upper (u8 c))
             (set_state ST_CMD
                (report "W!"
                   (set_ret (uint8_t s)
                      (on_bus EndTransmission b'
                         (accumulate_CMDW (to_upper (u8 c))
                            (set_to_print (filler c) w))))))).
Proof.
  intros Hs Hc He.
  assert (Hk : case_ST_CMDW (to_upper (u8 c)) (set_to_print (filler c) w) =
    (set_state ST_CMD
       (report "W!"
          (set_ret (uint8_t s)
             (on_bus EndTransmission b'
                (accumulate_CMDW (to_upper (u8 c)) (set_to_print (filler c) w))))),
     Goto parse_cmd_label)).
  { unfold case_ST_CMDW. rewrite accumulate_CMDW_ret, data_set_to_print.
    unfold closes_write in Hc. rewrite Hc.
    unfold do_endTransmission. rewrite He. reflexivity. }
  split; [exact Hk|].
  rewrite (loop_returns fuel c w _ (eq_trans
             (f_equal (fun s => block 0 s _ _) Hs) (f_equal Some Hk))).
  - reflexivity.
  - discriminate.
Qed.

End Runs.

(** Evaluates the [run] on the input [s], from an explicit world, when
    no answer of the bus is needed. *)
Ltac eval_run s :=
  match goal with
  | |- context [run ?f (typed s) ?w] =>
      let t := eval lazy -[beginTransmission send endTransmission requestFrom available
                           receive uint8_t tohex hex2 Z.shiftr Z.land]
               in (run f (typed s) w) in
      change (run f (typed s) w) with t; cbv beta iota
  end.

(** Takes the [loop()] that ends an open write, given the answer [E] of
    the bus to [endTransmission()] and its status [Es]. *)
Ltac close_write E Es :=
  rewrite ?run_app; cbn [run typed str map];
  match goal with
  | |- context [loop (S (S ?f)) (Some ?c) ?w] =>
      rewrite (proj2 (loop_closes_write f c w _ _ eq_refl eq_refl E)); rewrite Es
  end;
  cbv beta iota.

Ltac eval_all :=
  lazy -[beginTransmission send endTransmission requestFrom available
         receive uint8_t tohex hex2 Z.shiftr Z.land].

Section Inputs.

Context {B : Type} {TW : TinyWireM B}.




(** The three spellings of [S68W0R7], against any bus and with any fuel
    of at least 2, end in one and the same world. *)
Lemma S68W0R7_spellings (b : B) (k : nat) :
  exists w,
    run (S (S k)) (typed "S68W0R7") (power_on b) = Some w
    /\ run (S (S k)) (typed "S 68 W 0 R 7") (power_on b) = Some w
    /\ run (S (S k)) (typed "s68w0r7") (power_on b) = Some w
    /\ calls w = [BeginTransmission 104; Send 0; EndTransmission].
Proof.
  destruct (endTransmission (send 0 (beginTransmission 104 b))) as [s b'] eqn:E.
  destruct (uint8_t s) as [|p|p] eqn:Es.
  all: eexists; split; [|split; [|split]].
  all: try change (typed "S68W0R7") with (typed "S68W0" ++ typed "R" ++ typed "7").
  all: try change (typed "S 68 W 0 R 7") with (typed "S 68 W 0 " ++ typed "R" ++ typed " 7").
  all: try change (typed "s68w0r7") with (typed "s68w0" ++ typed "r" ++ typed "7").
  all: try rewrite run_app.
  all: try eval_run ("S68W0"%string).
  all: try eval_run ("S 68 W 0 "%string).
  all: try eval_run ("s68w0"%string).
  all: try (close_write E Es; eval_all; reflexivity).
  all: reflexivity.
Qed.

(** C8.  The inputs [S68W0R7], [S 68 W 0 R 7] and [s68w0r7], each from
    power-on with its bytes arriving back to back, against any bus: the
    same calls on the bus, with the same arguments in the same order,
    and the same bytes written to the serial port. *)
Theorem spellings_agree (b : B) (k : nat) :
  option_map calls (run (S (S k)) (typed "S 68 W 0 R 7") (power_on b))
    = option_map calls (run (S (S k)) (typed "S68W0R7") (power_on b))
  /\ option_map calls (run (S (S k)) (typed "s68w0r7") (power_on b))
    = option_map calls (run (S (S k)) (typed "S68W0R7") (power_on b))
  /\ option_map serial (run (S (S k)) (typed "S 68 W 0 R 7") (power_on b))
    = option_map serial (run (S (S k)) (typed "S68W0R7") (power_on b))
  /\ option_map serial (run (S (S k)) (typed "s68w0r7") (power_on b))
    = option_map serial (run (S (S k)) (typed "S68W0R7") (power_on b))
  /\ option_map calls (run (S (S k)) (typed "S68W0R7") (power_on b))
    = Some [BeginTransmission 104; Send 0; EndTransmission].
Proof.
  destruct (S68W0R7_spellings b k) as (w & -> & -> & -> & Hc).
  cbn [option_map]. rewrite Hc. repeat split; reflexivity.
Qed.

End Inputs.



(** ** Ending a write *)

Section Closing.

Context {B : Type} {TW : TinyWireM B}.

(** C1, as the code has it.  After [W3A], against any bus: a write is
    open and 0x3A has been sent.  A [P], [p] or [R] then ends the
    transmission inside the block of [ST_CMDW], which only afterwards
    jumps to [parse_cmd] with the same byte; [parse_cmd] calls nothing
    more.  A [W] does not: it is taken as a delimiter, the write stays
    open and nothing is called.  So [W3Ap] and [W3AR1] make the calls
    begin, send(0x3A), end, and [W3AW] makes begin, send(0x3A) only. *)
Theorem write_closed_before_P_and_R (b : B) (k : nat) :
  exists w3,
    run (S (S k)) (typed "W3A") (power_on b) = Some w3
    /\ calls w3 = [BeginTransmission 0; Send 58] /\ state w3 = ST_CMDW
    /\ (forall c, c = chr "P" \/ c = chr "p" \/ c = chr "R" ->
        exists w4,
          case_ST_CMDW (to_upper (u8 c)) (set_to_print (filler c) w3)
            = (w4, Goto parse_cmd_label)
          /\ calls w4 = [BeginTransmission 0; Send 58; EndTransmission]
          /\ loop (S (S k)) (Some c) w3 = Some (parse_cmd (to_upper (u8 c)) w4)
          /\ calls (parse_cmd (to_upper (u8 c)) w4) = calls w4)
    /\ (exists w4,
          loop (S (S k)) (Some (chr "W")) w3 = Some w4
          /\ calls w4 = calls w3 /\ wire w4 = wire w3 /\ state w4 = ST_CMDW)
    /\ option_map calls (run (S (S k)) (typed "W3Ap") (power_on b))
       = Some [BeginTransmission 0; Send 58; EndTransmission]
    /\ option_map calls (run (S (S k)) (typed "W3AR1") (power_on b))
       = Some [BeginTransmission 0; Send 58; EndTransmission]
    /\ option_map calls (run (S (S k)) (typed "W3AW") (power_on b))
       = Some [BeginTransmission 0; Send 58].
Proof.
  destruct (endTransmission (send 58 (beginTransmission 0 b))) as [s b'] eqn:E.
  eexists. split; [eval_all; reflexivity|].
  split; [reflexivity|]. split; [reflexivity|]. split; [|split; [|split; [|split]]].
  - intros c Hc.
    match goal with
    | |- context [loop (S (S ?f)) (Some c) ?w] =>
        destruct (loop_closes_write f c w s b') as [Hk Hl];
        [reflexivity
        |destruct Hc as [->|[->| ->]]; reflexivity
        |destruct Hc as [->|[->| ->]]; exact E
        |]
    end.
    eexists. split; [exact Hk|]. split; [|split; [exact Hl|]].
    + destruct Hc as [->|[->| ->]]; destruct (uint8_t s); reflexivity.
    + destruct Hc as [->|[->| ->]]; destruct (uint8_t s); reflexivity.
  - eexists. split; [eval_all; reflexivity|]. repeat split; reflexivity.
  - destruct (uint8_t s) as [|p|p] eqn:Es.
    all: change (typed "W3Ap") with (typed "W3A" ++ typed "p").
    all: rewrite run_app; eval_run ("W3A"%string); close_write E Es; reflexivity.
  - destruct (uint8_t s) as [|p|p] eqn:Es.
    all: change (typed "W3AR1") with (typed "W3A" ++ typed "R" ++ typed "1").
    all: rewrite run_app; eval_run ("W3A"%string); close_write E Es; eval_all; reflexivity.
  - eval_all. reflexivity.
Qed.

End Closing.

(** C1 at a concrete input: the [R] of [W3AR1] on a quiet bus. *)
Lemma write_closed_before_P_and_R_witness :
  exists w3 w4,
    run 2 (typed "W3A") (power_on quiet) = Some w3
    /\ case_ST_CMDW (to_upper (u8 (chr "R"))) (set_to_print (filler (chr "R")) w3)
       = (w4, Goto parse_cmd_label)
    /\ calls w4 = [BeginTransmission 0; Send 58; EndTransmission]
    /\ loop 2 (Some (chr "R")) w3 = Some (parse_cmd (to_upper (u8 (chr "R"))) w4).
Proof.
  destruct (write_closed_before_P_and_R quiet 0) as (w3 & H3 & _ & _ & H & _).
  destruct (H (chr "R")) as (w4 & H4 & Hc & Hl & _).
  - right. right. reflexivity.
  - exists w3, w4. repeat split; assumption.
Defined.

(** C1 as stated fails for [W3AW]: the second [W] does not end the
    write, so no [endTransmission()] is called. *)
Lemma W3AW_leaves_write_open :
  option_map (fun w => (calls w, state w, count is_end (calls w)))
    (run 2 (typed "W3AW") (power_on quiet))
  = Some ([BeginTransmission 0; Send 58], ST_CMDW, O).
Proof. reflexivity. Qed.

(** ** Bus errors and reads *)

Section Errors.

Context {B : Type} {TW : TinyWireM B}.

(** The block of [ST_CMDR] on the byte that ends the count: the read is
    requested, a failure is reported, and the block goes to [recv_now]. *)
Lemma case_ST_CMDR_requests (l : Z) (w : world B) (s : Z) (b1 : B) :
  fst (read_hex_at (data w) l) = 0 -> u8 (digits w) <> 0 ->
  requestFrom (addr w) (data w) (wire w) = (s, b1) ->
  case_ST_CMDR l w =
  (set_state ST_RECV
     (set_digits 0
        (set_data 0
           (report "R!"
              (set_ret (uint8_t s)
                 (on_bus (RequestFrom (addr w) (data w)) b1 (set_ret 0 w)))))),
   Goto recv_now_label).
Proof.
  intros Hf Hg Hr. destruct w as [r a d g p st b cs out]. fields.
  unfold case_ST_CMDR, accumulate_CMDR, do_requestFrom. fields.
  pose proof (read_hex_at_miss d l Hf) as Hm.
  destruct (read_hex_at d l) as [z z0]. fields. subst z z0.
  replace (g + 0) with g by lia.
  destruct (u8 g =? 0) eqn:Eg; [apply Z.eqb_eq in Eg; contradiction|].
  cbn [Z.eqb andb negb]. rewrite Hr.
  unfold report. fields.
  destruct (negb (uint8_t s =? 0)); fields; reflexivity.
Qed.

(** The [loop()] that ends the count of a read: the request, its error
    line if it failed, the row of what the receive loop got, the end of
    the line, and then the byte goes to [parse_cmd]. *)
Lemma loop_reads (n fuel : nat) (c : Z) (w : world B) (s : Z) (b1 b2 : B) (ds : list Z) :
  state w = ST_CMDR ->
  fst (read_hex_at (data w) (to_upper (u8 c))) = 0 -> u8 (digits w) <> 0 ->
  requestFrom (addr w) (data w) (wire w) = (s, b1) ->
  pull n b1 = Some (ds, b2) ->
  (n + 2 <= fuel)%nat ->
  exists w',
    loop fuel (Some c) w = Some w'
    /\ serial w' =
       serial w
       ++ (if uint8_t s =? 0 then [] else str "R!" ++ hex2 (uint8_t s) ++ [LF])
       ++ hex_row ds ++ [CR; LF]
       ++ (if to_upper (u8 c) =? chr "?" then help_text else [])
    /\ to_print w' = 0
    /\ state w' = state (parse_cmd (to_upper (u8 c)) (set_state ST_CMD w))
    /\ calls w' =
       calls w ++ RequestFrom (addr w) (data w) :: pull_calls (List.length ds)
       ++ (if to_upper (u8 c) =? chr "W" then [BeginTransmission (addr w)] else []).
Proof.
  intros Hs Hf Hg Hr Hp Hle.
  set (l := to_upper (u8 c)) in *.
  destruct w as [r a d g p st b cs out]. fields. subst st.
  pose proof (case_ST_CMDR_requests l (World r a d g (filler c) ST_CMDR b cs out) s b1
                Hf Hg Hr) as Hk.
  eexists. split.
  - apply (loop_returns_CMDR n fuel c _ ds b2); fold l; fields.
    + reflexivity.
    + rewrite Hk. reflexivity.
    + rewrite Hk. unfold report. fields.
      destruct (negb (uint8_t s =? 0)); fields; exact Hp.
    + exact Hle.
  - fold l. fields. rewrite Hk. clearbody l. clear Hk.
    open_blocks. split_ifs; lists; repeat split;
      first [reflexivity | exfalso; cbn [negb] in *; tests; chars; first [lia | congruence]].
Qed.

(** C4, as the code has it.  When the [endTransmission()] of a [loop()]
    answers a status that is not 0, the [loop()] writes [W!], the two
    uppercase hex digits of the status and a line feed (LF alone, no
    CR), leaves no keep-alive byte armed, and hands the byte to
    [parse_cmd] as from [ST_CMD], as ever.  When its [requestFrom()]
    does, it writes [R!], the two digits and a line feed, and goes on
    with the read as ever: the row of received bytes, CR LF, no
    keep-alive byte, and the byte to [parse_cmd].  With status 2 the
    error line is [W!02] and LF. *)
Theorem bus_error_reported (fuel : nat) (c : Z) (w : world B) (s : Z) (b' : B) :
  uint8_t s <> 0 ->
  (state w = ST_CMDW -> closes_write (data w) c = true ->
   endTransmission (wire (accumulate_CMDW (to_upper (u8 c)) (set_to_print (filler c) w)))
     = (s, b') ->
   exists w',
     loop (S (S fuel)) (Some c) w = Some w'
     /\ serial w' =
        serial w ++ str "W!" ++ hex2 (uint8_t s) ++ [LF]
        ++ (if to_upper (u8 c) =? chr "?" then help_text else [])
     /\ to_print w' = 0
     /\ state w' = state (parse_cmd (to_upper (u8 c)) (set_state ST_CMD w)))
  /\ (forall n ds b2,
      state w = ST_CMDR ->
      fst (read_hex_at (data w) (to_upper (u8 c))) = 0 -> u8 (digits w) <> 0 ->
      requestFrom (addr w) (data w) (wire w) = (s, b') ->
      pull n b' = Some (ds, b2) ->
      exists w',
        loop (n + 2 + fuel) (Some c) w = Some w'
        /\ serial w' =
           serial w ++ str "R!" ++ hex2 (uint8_t s) ++ [LF]
           ++ hex_row ds ++ [CR; LF]
           ++ (if to_upper (u8 c) =? chr "?" then help_text else [])
        /\ to_print w' = 0
        /\ state w' = state (parse_cmd (to_upper (u8 c)) (set_state ST_CMD w)))
  /\ (exists h l,
        hex2 (uint8_t s) = [h; l] /\ is_upper_hex h = true /\ is_upper_hex l = true
        /\ 16 * hex_value h + hex_value l = uint8_t s)
  /\ (uint8_t s = 2 -> str "W!" ++ hex2 (uint8_t s) ++ [LF] = str "W!02" ++ [LF]).
Proof.
  intros Hs. split; [|split; [|split; [apply hex2_digits, uint8_t_range|]]].
  - intros Hst Hc He.
    destruct (loop_closes_write fuel c w s b' Hst Hc He) as [_ Hl].
    eexists. split; [exact Hl|].
    unfold closes_write in Hc.
    set (l := to_upper (u8 c)) in *. clearbody l.
    destruct w as [r a d g p st b cs out]. fields. clear He Hl.
    revert Hc. rewrite report_write. open_blocks.
    split_ifs; intros Hc; try discriminate; lists; repeat split;
      first [reflexivity | exfalso; cbn [negb] in *; tests; chars; first [lia | congruence]].
  - intros n ds b2 Hst Hf Hg Hr Hp.
    destruct (loop_reads n (n + 2 + fuel) c w s b' b2 ds Hst Hf Hg Hr Hp) as (w' & Hl & Hser & Hrest);
      [lia|].
    exists w'. split; [exact Hl|]. split; [|tauto].
    rewrite Hser. destruct (uint8_t s =? 0) eqn:E; [apply Z.eqb_eq in E; contradiction|].
    lists. reflexivity.
  - intros ->. reflexivity.
Qed.

(** C3, as the code has it.  After [requestFrom()] has answered 0, the
    read prints one row: a hex pair and a space for each byte the bus
    hands over until [available()] first returns 0, then CR LF; so as
    many pairs as bytes were there in that one run of the receive loop
    (seven when seven were), and none for bytes that arrive later. *)
Theorem read_prints_what_is_available
  (n fuel : nat) (c : Z) (w : world B) (s : Z) (b1 b2 : B) (ds : list Z) :
  state w = ST_CMDR ->
  fst (read_hex_at (data w) (to_upper (u8 c))) = 0 -> u8 (digits w) <> 0 ->
  requestFrom (addr w) (data w) (wire w) = (s, b1) -> uint8_t s = 0 ->
  pull n b1 = Some (ds, b2) ->
  exists w',
    loop (n + 2 + fuel) (Some c) w = Some w'
    /\ serial w' =
       serial w ++ hex_row ds ++ [CR; LF]
       ++ (if to_upper (u8 c) =? chr "?" then help_text else [])
    /\ List.length (hex_row ds) = (3 * List.length ds)%nat
    /\ calls w' =
       calls w ++ RequestFrom (addr w) (data w) :: pull_calls (List.length ds)
       ++ (if to_upper (u8 c) =? chr "W" then [BeginTransmission (addr w)] else []).
Proof.
  intros Hst Hf Hg Hr Hs Hp.
  destruct (loop_reads n (n + 2 + fuel) c w s b1 b2 ds Hst Hf Hg Hr Hp)
    as (w' & Hl & Hser & _ & _ & Hc); [lia|].
  exists w'. split; [exact Hl|]. split; [|split; [|exact Hc]].
  - rewrite Hser, Hs. reflexivity.
  - clear. induction ds as [|d ds IH]; [reflexivity|].
    cbn [hex_row hex2 List.length app]. rewrite IH. lia.
Qed.

End Errors.

(** C4 at concrete inputs: [P] ending a write on a bus whose
    [endTransmission()] answers 2, and the space after [R1] on a bus
    whose [requestFrom()] answers 3. *)
Lemma bus_error_reported_witness :
  (exists w',
     loop 2 (Some (chr "P"))
       (World 0 0 0 0 32 ST_CMDW (Faulty 2 0) [BeginTransmission 0] []) = Some w'
     /\ serial w' = str "W!02" ++ [LF]
     /\ to_print w' = 0
     /\ state w' = ST_CMD)
  /\ (exists w',
       loop 3 (Some (chr " ")) (World 1 0 1 1 32 ST_CMDR (Faulty 0 3) [] []) = Some w'
       /\ serial w' = str "R!03" ++ [LF] ++ [CR; LF]
       /\ to_print w' = 0
       /\ state w' = ST_CMD).
Proof.
  split.
  - destruct (bus_error_reported 0 (chr "P")
                (World 0 0 0 0 32 ST_CMDW (Faulty 2 0) [BeginTransmission 0] [])
                2 (Faulty 2 0)) as [H _].
    + vm_compute. discriminate.
    + destruct H as (w' & Hl & Hs & Hp & Hst); [reflexivity|reflexivity|reflexivity|].
      exists w'. repeat split; assumption.
  - destruct (bus_error_reported 0 (chr " ")
                (World 1 0 1 1 32 ST_CMDR (Faulty 0 3) [] [])
                3 (Faulty 0 3)) as (_ & H & _).
    + vm_compute. discriminate.
    + destruct (H 1%nat [] (Faulty 0 3)) as (w' & Hl & Hs & Hp & Hst).
      1-2: reflexivity.
      1: vm_compute; discriminate.
      1-2: reflexivity.
      exists w'. repeat split; assumption.
Defined.

(** C4 as stated fails in its example: the error line ends in LF alone. *)
Lemma error_line_ends_in_LF :
  option_map serial (run 2 (typed "WP") (power_on (Faulty 2 0)))
    = Some (str "W!02" ++ [LF])
  /\ str "W!02" ++ [LF] <> str "W!02" ++ [CR; LF].
Proof. split; [reflexivity|discriminate]. Qed.

(** C3 at a concrete input: the line feed after [S68W0R7], on the
    responder with every register zero. *)
Lemma read_prints_what_is_available_witness :
  exists w w',
    run 3 (typed "S68W0R7") (power_on all_zero) = Some w
    /\ loop 10 (Some LF) w = Some w'
    /\ serial w' = str "00 00 00 00 00 00 00 " ++ [CR; LF].
Proof.
  destruct (read_prints_what_is_available 8 0 LF
              (World 1 104 7 1 32 ST_CMDR all_zero
                 [BeginTransmission 104; Send 0; EndTransmission] [])
              0
              (Responder (repeat 0 64) 7 [] (repeat 0 7))
              (Responder (repeat 0 64) 7 [] [])
              (repeat 0 7))
    as (w' & Hl & Hs & _).
  1-2: reflexivity.
  1: vm_compute; discriminate.
  1-3: reflexivity.
  eexists. exists w'. split; [reflexivity|]. split; [exact Hl|exact Hs].
Defined.

(** C3 as stated fails: on a bus that has three of the seven bytes ready
    and the rest later, the read prints three pairs, and later polls
    print nothing more. *)
Lemma late_bytes_are_not_printed :
  option_map (fun w => (serial w, wire w))
    (run 8 (typed "S68W0R7" ++ [Some LF; None; None; None]) (power_on (Trickle 3 [])))
  = Some (str "00 00 00 " ++ [CR; LF], Trickle 3 [[0; 0; 0]; [0]]).
Proof. reflexivity. Qed.

(** ** Reprocessing a byte *)

Section Reprocessing.

Context {B : Type} {TW : TinyWireM B}.

(** On a bus where the receive loop ends, the switch reaches a [break]
    from every case. *)
Lemma goes_total (l : Z) :
  drains -> forall s (w : world B), exists w' path, goes l s w w' path.
Proof.
  intros Hd.
  assert (HC : forall w : world B, exists w' path, goes l ST_CMD w w' path).
  { intros w. exists (parse_cmd l w), []. apply goes_break. exact (does_CMD l w). }
  assert (HR : forall w : world B, exists w' path, goes l ST_RECV w w' path).
  { intros w. destruct (Hd (wire w)) as (n & ds & b' & Hp).
    destruct (HC (finish_RECV (received ds b' w))) as (w' & path & Hg).
    exists w', (parse_cmd_label :: path).
    eapply goes_goto; [eapply does_RECV; exact Hp|exact Hg]. }
  assert (HT : forall t (w : world B), exists w' path, goes l (case_of t) w w' path).
  { intros [|] w; [apply HC|apply HR]. }
  assert (HB : forall s (w : world B) r,
             does l s w r -> exists w' path, goes l s w w' path).
  { intros s w [w1 [|t]] D.
    - exists w1, []. apply goes_break. exact D.
    - destruct (HT t w1) as (w' & path & Hg).
      exists w', (t :: path). eapply goes_goto; eassumption. }
  intros s w. destruct s.
  - apply HC.
  - exact (HB _ _ _ (does_ADDR l w)).
  - exact (HB _ _ _ (does_CMDW l w)).
  - exact (HB _ _ _ (does_CMDR l w)).
  - apply HR.
Qed.

(** A [loop()] that read a byte never returns in [ST_RECV]. *)
Lemma loop_not_RECV (fuel : nat) (c : Z) (w w' : world B) :
  loop fuel (Some c) w = Some w' -> state w' <> ST_RECV.
Proof.
  intros H. apply loop_inv in H.
  set (l := to_upper (u8 c)) in *. clearbody l.
  destruct w as [r a d g p st b cs out]. fields.
  destruct st.
  4: destruct H as [[Hk ->]|[_ (n & ds & b' & _ & ->)]];
       [revert Hk; open_blocks; split_ifs; intros Hk; congruence|].
  all: try (destruct H as (n & ds & b' & _ & ->)).
  all: try subst w'.
  all: open_blocks; split_ifs; discriminate.
Qed.

(** Nor does a run of them, idle passes included. *)
Lemma run_not_RECV (fuel : nat) (inputs : list (option Z)) (w w' : world B) :
  run fuel inputs w = Some w' -> state w <> ST_RECV -> state w' <> ST_RECV.
Proof.
  revert w. induction inputs as [|i rest IH]; intros w H Hs.
  - injection H as <-. exact Hs.
  - cbn [run] in H. destruct (loop fuel i w) as [w1|] eqn:E; [|discriminate].
    apply (IH _ H). destruct i as [c|].
    + exact (loop_not_RECV _ _ _ _ E).
    + injection E as <-. destruct w as [r a d g p st b cs out].
      unfold idle. fields. destruct (p =? 0); exact Hs.
Qed.

(** [case ST_CMDR] goes to [recv_now] only on a byte that is not a digit,
    with a digit counter that is not 0. *)
Lemma case_ST_CMDR_recv_now (l : Z) (w w1 : world B) :
  case_ST_CMDR l w = (w1, Goto recv_now_label) ->
  fst (read_hex_at (data w) l) = 0 /\ u8 (digits w) <> 0.
Proof.
  pose proof (read_hex_at_flag (data w) l) as Hf.
  destruct w as [r a d g p st b cs out]. cbn [data digits] in *.
  unfold case_ST_CMDR, accumulate_CMDR, do_requestFrom. fields.
  destruct (read_hex_at d l) as [z z0]. cbn [fst] in *. fields.
  destruct Hf as [-> | ->].
  - rewrite Z.add_0_r. cbn [Z.eqb andb].
    destruct (u8 g =? 0) eqn:Eg; cbn [negb].
    + destruct (negb (l =? chr " ") && negb (l =? LF)); discriminate.
    + intros _. split; [reflexivity|]. apply Z.eqb_neq. exact Eg.
  - cbn [Z.eqb andb]. discriminate.
Qed.

(** C9, as the code has it.  A [loop()] that returns has taken no jump,
    or the one to [parse_cmd], or the two of a read: first to
    [recv_now], then to [parse_cmd].  So at most two jumps for one byte,
    at most one to each label, and none back.  The jump to [recv_now] is
    taken from [case ST_CMDR] only, by a byte that is not a digit, while
    the 8-bit digit counter is not 0; and no [loop()] returns with
    [state == ST_RECV], so that from power-on the [switch] itself never
    selects [case ST_RECV].  On a bus where the receive loop ends, every
    [loop()] returns: with enough fuel, and then with any more, and with
    the same result. *)
Theorem reprocessing_is_bounded (c : Z) (w : world B) :
  (forall fuel w' path,
     loop_path fuel (Some c) w = Some (w', path) ->
     (path = [] \/ path = [parse_cmd_label] \/ path = [recv_now_label; parse_cmd_label])
     /\ (List.length path <= 2)%nat
     /\ (jumps_to parse_cmd_label path <= 1)%nat
     /\ (jumps_to recv_now_label path <= 1)%nat
     /\ (In recv_now_label path ->
         state w = ST_CMDR
         /\ fst (read_hex_at (data w) (to_upper (u8 c))) = 0
         /\ u8 (digits w) <> 0)
     /\ state w' <> ST_RECV)
  /\ (drains ->
      exists fuel w' path,
        forall fuel', (fuel <= fuel')%nat -> loop_path fuel' (Some c) w = Some (w', path))
  /\ (forall fuel, loop_path fuel None w = Some (idle w, []))
  /\ (forall fuel inputs b w0,
        run fuel inputs (power_on b) = Some w0 -> state w0 <> ST_RECV).
Proof.
  split; [|split; [|split]].
  - intros fuel w' path H.
    assert (Hn : state w' <> ST_RECV).
    { apply (loop_not_RECV fuel c w w'). unfold loop. rewrite H. reflexivity. }
    rewrite loop_path_switch in H.
    apply switch_goes in H. apply goes_cases in H.
    destruct H as [[_ ->]|[(w1 & _ & _ & ->)|(w1 & w2 & Hs & Hd & _ & _ & ->)]].
    + split; [auto|]. split; [cbn; lia|]. split; [cbn; lia|]. split; [cbn; lia|].
      split; [intros []|exact Hn].
    + split; [auto|]. split; [cbn; lia|]. split; [cbn; lia|]. split; [cbn; lia|].
      split; [intros [E|[]]; discriminate E|exact Hn].
    + split; [auto|]. split; [cbn; lia|]. split; [cbn; lia|]. split; [cbn; lia|].
      split; [|exact Hn]. intros _.
      assert (Hst : state w = ST_CMDR) by (destruct w; exact Hs).
      split; [exact Hst|].
      rewrite Hs in Hd. apply does_inv in Hd. symmetry in Hd.
      apply case_ST_CMDR_recv_now in Hd. destruct w; exact Hd.
  - intros Hd.
    destruct (goes_total (to_upper (u8 c)) Hd (state w) (set_to_print (filler c) w))
      as (w' & path & Hg).
    destruct (goes_switch _ _ _ _ _ Hg) as [n Hn].
    exists n, w', path. intros fuel' Hle. rewrite loop_path_switch. apply Hn. exact Hle.
  - reflexivity.
  - intros fuel inputs b w0 H. apply (run_not_RECV _ _ _ _ H). discriminate.
Qed.

(** On the babbling bus the receive loop never ends. *)
Lemma pull_babbling (n : nat) (b : babbling) : pull n b = None.
Proof.
  revert b. induction n as [|n IH]; intros b; [reflexivity|].
  cbn [pull available receive babbling_bus]. change (uint8_t 1 =? 0) with false.
  cbn iota. rewrite IH. reflexivity.
Qed.

End Reprocessing.

(** C9 at a concrete input: the space after [R1] on a quiet bus. *)
Lemma reprocessing_is_bounded_witness :
  (exists fuel w' path,
     forall fuel', (fuel <= fuel')%nat ->
       loop_path fuel' (Some (chr " ")) (World 1 0 1 1 32 ST_CMDR quiet [] [])
       = Some (w', path))
  /\ (jumps_to parse_cmd_label [recv_now_label; parse_cmd_label] <= 1)%nat.
Proof.
  destruct (reprocessing_is_bounded (chr " ") (World 1 0 1 1 32 ST_CMDR quiet [] []))
    as (H1 & H2 & _).
  split.
  - apply H2. intros b. exists 1%nat, [], b. reflexivity.
  - exact (proj1 (proj2 (proj2 (H1 3%nat _ _ eq_refl)))).
Defined.

(** C9 as stated fails: the byte that ends the count of a read is
    reprocessed twice, at [recv_now] and then at [parse_cmd]; and on a
    bus whose [available()] never returns 0 that [loop()] does not
    return, whatever the fuel. *)
Lemma two_jumps_for_one_byte :
  run 2 (typed "R1") (power_on quiet) = Some (World 1 0 1 1 32 ST_CMDR quiet [] [])
  /\ option_map snd (loop_path 3 (Some (chr " ")) (World 1 0 1 1 32 ST_CMDR quiet [] []))
     = Some [recv_now_label; parse_cmd_label]
  /\ (forall fuel,
        loop fuel (Some (chr " ")) (World 1 0 1 1 32 ST_CMDR Babbling [] []) = None).
Proof.
  split; [reflexivity|]. split; [reflexivity|].
  intros fuel.
  destruct (loop fuel (Some (chr " ")) (World 1 0 1 1 32 ST_CMDR Babbling [] []))
    as [w'|] eqn:E; [|reflexivity].
  apply loop_inv in E. cbn [state] in E.
  destruct E as [[Hk _]|[_ (n & ds & b' & Hp & _)]].
  - exfalso. apply Hk. reflexivity.
  - rewrite pull_babbling in Hp. discriminate.
Qed.

(** ** End to end *)

(** C2, as the code has it.  On the responder with every register zero,
    [S68W0 0P] writes nothing to the serial port, and [S68W0R7] after it
    prints its row once a byte that is not a digit follows the count (the
    line feed that [echo] and a here-string send): seven hex pairs, each
    followed by a space, then CR LF; 23 bytes. *)
Theorem read_after_init (k : nat) :
  option_map serial (run (10 + k) (typed "S68W0 0P") (power_on all_zero)) = Some []
  /\ option_map serial
       (run (10 + k) (typed "S68W0 0P" ++ typed "S68W0R7" ++ [Some LF]) (power_on all_zero))
     = Some (str "00 00 00 00 00 00 00 " ++ [CR; LF])
  /\ option_map serial
       (run (10 + k) (typed "S68W0 0P" ++ [Some LF] ++ typed "S68W0R7" ++ [Some LF])
          (power_on all_zero))
     = Some (str "00 00 00 00 00 00 00 " ++ [CR; LF])
  /\ List.length (str "00 00 00 00 00 00 00 " ++ [CR; LF]) = 23%nat.
Proof. repeat split; vm_compute; reflexivity. Qed.

(** C2 as stated fails: without a byte after the count nothing is read,
    and the row that the line feed brings has a space after the last
    pair. *)
Lemma row_needs_a_terminator_and_ends_in_a_space :
  option_map (fun w => (serial w, state w, digits w))
    (run 12 (typed "S68W0 0P" ++ typed "S68W0R7") (power_on all_zero))
    = Some ([], ST_CMDR, 1)
  /\ option_map serial
       (run 12 (typed "S68W0 0P" ++ typed "S68W0R7" ++ [Some LF]) (power_on all_zero))
     = Some (str "00 00 00 00 00 00 00 " ++ [CR; LF])
  /\ str "00 00 00 00 00 00 00 " ++ [CR; LF] <> str "00 00 00 00 00 00 00" ++ [CR; LF].
Proof. split; [reflexivity|]. split; [reflexivity|discriminate]. Qed.

(** ** The digit decoder *)

(** Called on its own, out of [loop()], [read_hex] would take [g] (and
    every letter up to [z]) for a digit, return 1 and shift 16 into the
    accumulator; the capital [G] it refuses.  The function is [static]
    and [loop()] hands it upper-cased bytes only, so that no typed byte
    gets there: see [read_hex_after_to_upper]. *)
Lemma read_hex_takes_g :
  read_hex (Some 0) (chr "g") = (1, Some 16)
  /\ read_hex (Some 0) (chr "z") = (1, Some 35)
  /\ read_hex (Some 0) (chr "G") = (0, Some 0)
  /\ read_hex (Some 0) (chr "A") = (1, Some 10)
  /\ read_hex (Some 0) (chr "a") = (1, Some 10).
Proof. repeat split; reflexivity. Qed.

(** * More of the sketch *)

(** ** The hex codec, both ways *)

Lemma to_upper_cases (c : Z) :
  0 <= c < 256 ->
  (97 <= c <= 122 /\ to_upper c = c - 32) \/ ((c < 97 \/ 122 < c) /\ to_upper c = c).
Proof.
  intros Hc. unfold to_upper, u8. chars.
  destruct (Z_lt_le_dec c 97) as [Hlt|Hge].
  - replace ((c - 97) mod 256) with (c - 97 + 256)
      by (apply (Z.mod_unique_pos _ _ (-1)); lia).
    leb_cases; lia.
  - rewrite (Z.mod_small (c - 97)) by lia.
    leb_cases; [left|lia]. split; [lia|]. apply Z.mod_small. lia.
Qed.

(** X1. [tohex] and [read_hex] undo each other.  [read_hex] takes the
    character [tohex] gives for a value below 16 for a digit and shifts
    that value into the accumulator; and for a byte that [read_hex] takes
    for a digit, the value it shifts in is below 36 and [tohex] of it is
    the byte, upper-cased. *)
Theorem tohex_read_hex_round_trip (x i c : Z) :
  0 <= i < 16 -> 0 <= c < 256 -> fst (read_hex None c) = 1 ->
  read_hex (Some x) (tohex i) = (1, Some (u8 (Z.shiftl x 4 + i)))
  /\ exists v, read_hex (Some x) c = (1, Some (u8 (Z.shiftl x 4 + v)))
               /\ 0 <= v < 36 /\ tohex v = to_upper c.
Proof.
  intros Hi Hc Hf. split.
  - unfold tohex, read_hex, u8. chars. cbn [option_map].
    destruct (Z.ltb_spec i 10).
    + rewrite (Z.mod_small (i + 48)) by lia. leb_cases; cbn [andb]; try lia.
      repeat f_equal. lia.
    + rewrite (Z.mod_small (i - 10 + 65)) by lia. leb_cases; cbn [andb]; try lia.
      repeat f_equal. lia.
  - revert Hf. destruct (to_upper_cases c Hc) as [[Hr ->]|[Hr ->]].
    all: unfold read_hex, tohex, u8; chars; cbn [option_map].
    all: leb_cases; cbn [andb fst]; intros Hf; try lia; try discriminate.
    all: eexists; split; [reflexivity|]; split; [lia|].
    all: leb_cases; try lia; rewrite Z.mod_small; lia.
Qed.

(** X1 at concrete inputs: the value 10 and the byte [g]. *)
Lemma tohex_read_hex_round_trip_witness :
  read_hex (Some 3) (tohex 10) = (1, Some 58)
  /\ exists v, read_hex (Some 3) (chr "g") = (1, Some (u8 (Z.shiftl 3 4 + v)))
               /\ 0 <= v < 36 /\ tohex v = to_upper (chr "g").
Proof.
  apply (tohex_read_hex_round_trip 3 10 (chr "g")).
  - lia.
  - change (chr "g") with 103. lia.
  - reflexivity.
Defined.

Lemma upper_hex_range (c : Z) :
  is_upper_hex c = true -> 48 <= c <= 57 \/ 65 <= c <= 70.
Proof.
  unfold is_upper_hex. chars. leb_cases; cbn [andb orb]; intros; try discriminate; lia.
Qed.

Lemma read_hex_upper_hex (x c : Z) :
  is_upper_hex c = true ->
  read_hex (Some x) c = (1, Some (u8 (16 * x + hex_value c))) /\ 0 <= hex_value c < 16.
Proof.
  intros H. apply upper_hex_range in H. split.
  - unfold read_hex, hex_value. chars. cbn [option_map].
    rewrite Z.shiftl_mul_pow2 by lia. change (2 ^ 4) with 16.
    leb_cases; cbn [andb]; try lia; f_equal; unfold u8; do 2 f_equal; lia.
  - unfold hex_value. chars. leb_cases; lia.
Qed.

(** What [loop] makes of an uppercase hex digit. *)
Lemma read_hex_at_upper_hex (x c : Z) :
  is_upper_hex c = true ->
  read_hex_at x c = (1, u8 (16 * x + hex_value c))
  /\ 0 <= hex_value c < 16 /\ to_upper (u8 c) = c /\ filler c = 32.
Proof.
  intros H. destruct (read_hex_upper_hex x c H) as [E V].
  apply upper_hex_range in H.
  assert (Hu : u8 c = c) by (apply Z.mod_small; lia).
  split; [|split; [|split]].
  - unfold read_hex_at. rewrite E. reflexivity.
  - exact V.
  - rewrite Hu. destruct (to_upper_cases c) as [[Hr _]|[_ ->]]; lia.
  - unfold filler. rewrite Hu. chars. leb_cases; cbn [orb]; lia.
Qed.

(** X2. What [print_hex] writes can be read back: the prefix (none when
    NULL or empty), two uppercase hex digits and the suffix, and nothing
    else changes; [read_hex], given the two digits one after the other
    from 0, returns 1 both times and leaves the byte that was printed. *)
Theorem print_hex_reads_back {B : Type} (pfx sfx : option (list Z)) (x : Z) (w : world B) :
  0 <= x < 256 ->
  exists h l,
    print_hex pfx x sfx w = write (affix pfx ++ [h; l] ++ affix sfx) w
    /\ is_upper_hex h = true /\ is_upper_hex l = true
    /\ read_hex (Some 0) h = (1, Some (x / 16))
    /\ read_hex (Some (x / 16)) l = (1, Some x).
Proof.
  intros Hx. destruct (hex2_digits x Hx) as (h & l & E & Hh & Hl & Hv).
  exists h, l. rewrite print_hex_write, E.
  split; [reflexivity|]. split; [exact Hh|]. split; [exact Hl|].
  destruct (read_hex_upper_hex 0 h Hh) as (Rh & Vh).
  destruct (read_hex_upper_hex (x / 16) l Hl) as (Rl & Vl).
  assert (Hq : x / 16 = hex_value h)
    by (symmetry; apply (Z.div_unique x 16 _ (hex_value l)); lia).
  rewrite Rh, Rl, Hq. unfold u8.
  rewrite !Z.mod_small by lia. split; do 2 f_equal; lia.
Qed.

(** X2 at a concrete input: the byte 2 with the prefix of a write error. *)
Lemma print_hex_reads_back_witness :
  exists h l,
    print_hex (Some (str "W!")) 2 None (power_on quiet)
      = write (affix (Some (str "W!")) ++ [h; l] ++ affix None) (power_on quiet)
    /\ is_upper_hex h = true /\ is_upper_hex l = true
    /\ read_hex (Some 0) h = (1, Some (2 / 16))
    /\ read_hex (Some (2 / 16)) l = (1, Some 2).
Proof. apply (print_hex_reads_back (Some (str "W!")) None 2 (power_on quiet)). lia. Defined.

(** ** Case and idle calls *)

Lemma to_upper_twice (c : Z) : to_upper (u8 (to_upper (u8 c))) = to_upper (u8 c).
Proof.
  assert (Hc : 0 <= u8 c < 256) by apply u8_range.
  destruct (to_upper_cases (u8 c) Hc) as [[Hr ->]|[Hr ->]].
  - replace (u8 (u8 c - 32)) with (u8 c - 32) by (symmetry; apply Z.mod_small; lia).
    destruct (to_upper_cases (u8 c - 32)) as [[Hr' _]|[_ ->]]; lia.
  - replace (u8 (u8 c)) with (u8 c) by (symmetry; apply Z.mod_small; lia).
    destruct (to_upper_cases (u8 c) Hc) as [[Hr' _]|[_ ->]]; lia.
Qed.

Lemma filler_to_upper (c : Z) : filler (to_upper (u8 c)) = filler c.
Proof.
  assert (Hc : 0 <= u8 c < 256) by apply u8_range.
  unfold filler at 1.
  destruct (to_upper_cases (u8 c) Hc) as [[Hr ->]|[Hr ->]].
  - replace (u8 (u8 c - 32)) with (u8 c - 32) by (symmetry; apply Z.mod_small; lia).
    unfold filler. chars. leb_cases; cbn [orb]; lia.
  - replace (u8 (u8 c)) with (u8 c) by (symmetry; apply Z.mod_small; lia).
    reflexivity.
Qed.

Section Polls.

Context {B : Type} {TW : TinyWireM B}.

Lemma loop_to_upper (fuel : nat) (c : Z) (w : world B) :
  loop fuel (Some (to_upper (u8 c))) w = loop fuel (Some c) w.
Proof.
  unfold loop. rewrite !loop_path_switch, to_upper_twice, filler_to_upper. reflexivity.
Qed.

(** X3. Case does not matter, whatever the input: upper-casing every
    byte before it is handed to [loop] leaves every call of [loop], and
    so the whole run, as it is. *)
Theorem input_is_case_insensitive (fuel : nat) (inputs : list (option Z)) (w : world B) :
  run fuel (upper_cased inputs) w = run fuel inputs w.
Proof.
  revert w. induction inputs as [|[c|] rest IH]; intros w; [reflexivity| |].
  - cbn [upper_cased map option_map run]. rewrite loop_to_upper.
    destruct (loop fuel (Some c) w); [apply IH|reflexivity].
  - cbn [upper_cased map option_map run].
    destruct (loop fuel None w); [apply IH|reflexivity].
Qed.

(** What a block does depends on neither the keep-alive byte nor on what
    was written before. *)
Lemma block_parser_side (fuel : nat) (s : enum_state) (l : Z) (w1 w2 : world B) :
  parser_side w1 = parser_side w2 ->
  option_map (fun r => (parser_side (fst r), snd r)) (block fuel s l w1)
  = option_map (fun r => (parser_side (fst r), snd r)) (block fuel s l w2).
Proof.
  destruct w1 as [r a d g p st b cs out], w2 as [r2 a2 d2 g2 p2 st2 b2 cs2 out2].
  intros H. injection H as -> -> -> -> -> -> ->.
  destruct s; cbn [block option_map].
  - open_blocks. split_ifs; reflexivity.
  - open_blocks. split_ifs; reflexivity.
  - open_blocks. split_ifs; reflexivity.
  - open_blocks. split_ifs; reflexivity.
  - unfold case_ST_RECV. rewrite !recv_while_pull. cbn [wire].
    destruct (pull fuel b2) as [[ds b']|]; reflexivity.
Qed.

Lemma switch_parser_side (fuel : nat) (s : enum_state) (l : Z) (w1 w2 : world B) :
  parser_side w1 = parser_side w2 ->
  option_map (fun r => (parser_side (fst r), snd r)) (switch fuel s l w1)
  = option_map (fun r => (parser_side (fst r), snd r)) (switch fuel s l w2).
Proof.
  revert s w1 w2. induction fuel as [|fuel IH]; intros s w1 w2 H; [reflexivity|].
  cbn [switch]. pose proof (block_parser_side fuel s l w1 w2 H) as Hb.
  destruct (block fuel s l w1) as [[w1' k1]|], (block fuel s l w2) as [[w2' k2]|];
    cbn [option_map fst snd] in Hb; try discriminate; [|reflexivity].
  injection Hb as Hw ->. destruct k2 as [|t]; cbn [option_map fst snd].
  - rewrite Hw. reflexivity.
  - pose proof (IH (case_of t) w1' w2' Hw) as Hs.
    destruct (switch fuel (case_of t) l w1') as [[w1'' q1]|],
             (switch fuel (case_of t) l w2') as [[w2'' q2]|];
      cbn [option_map fst snd] in Hs |- *; try discriminate; [|reflexivity].
    injection Hs as -> ->. reflexivity.
Qed.

Lemma loop_parser_side (fuel : nat) (i : option Z) (w1 w2 : world B) :
  parser_side w1 = parser_side w2 ->
  option_map parser_side (loop fuel i w1) = option_map parser_side (loop fuel i w2).
Proof.
  intros H. destruct i as [c|].
  - unfold loop. rewrite !loop_path_switch.
    assert (Hs : state w1 = state w2).
    { destruct w1, w2. injection H. intros. cbn. congruence. }
    assert (Hp : parser_side (set_to_print (filler c) w1)
                 = parser_side (set_to_print (filler c) w2)).
    { destruct w1, w2. exact H. }
    rewrite Hs.
    pose proof (switch_parser_side fuel (state w2) (to_upper (u8 c)) _ _ Hp) as E.
    destruct (switch fuel (state w2) (to_upper (u8 c)) (set_to_print (filler c) w1))
      as [[w1' q1]|],
      (switch fuel (state w2) (to_upper (u8 c)) (set_to_print (filler c) w2))
      as [[w2' q2]|];
      cbn [option_map fst snd] in E |- *; try discriminate; [|reflexivity].
    injection E as -> _. reflexivity.
  - rewrite !loop_idle. cbn [option_map]. f_equal.
    destruct w1 as [r a d g p st b cs out], w2 as [r2 a2 d2 g2 p2 st2 b2 cs2 out2].
    injection H as -> -> -> -> -> -> ->.
    unfold idle. fields. destruct (p =? 0), (p2 =? 0); reflexivity.
Qed.

Lemma idle_parser_side (w : world B) : parser_side (idle w) = parser_side w.
Proof.
  destruct w as [r a d g p st b cs out]. unfold idle. fields.
  destruct (p =? 0); reflexivity.
Qed.

Lemma run_parser_side (fuel : nat) (inputs : list (option Z)) (w1 w2 : world B) :
  parser_side w1 = parser_side w2 ->
  option_map parser_side (run fuel inputs w1)
  = option_map parser_side (run fuel (polls_removed inputs) w2).
Proof.
  revert w1 w2. induction inputs as [|[c|] rest IH]; intros w1 w2 H.
  - cbn. f_equal. exact H.
  - cbn [polls_removed filter run]. fold (polls_removed rest).
    pose proof (loop_parser_side fuel (Some c) w1 w2 H) as E.
    destruct (loop fuel (Some c) w1) as [w1'|], (loop fuel (Some c) w2) as [w2'|];
      cbn [option_map] in E; try discriminate; [|reflexivity].
    apply IH. injection E as E. exact E.
  - cbn [polls_removed filter run]. fold (polls_removed rest).
    rewrite loop_idle. apply IH. rewrite idle_parser_side. exact H.
Qed.

(** X4. Calls of [loop()] that find nothing to read change nothing but
    the serial side: with them or without them the run returns or not
    alike, and ends with the same globals, the same state, the same bus
    and the same calls made; only the keep-alive byte and what was
    written differ. *)
Theorem idle_polls_do_not_matter (fuel : nat) (inputs : list (option Z)) (w : world B) :
  option_map parser_side (run fuel inputs w)
  = option_map parser_side (run fuel (polls_removed inputs) w).
Proof. apply run_parser_side. reflexivity. Qed.

End Polls.

(** ** The keep-alive byte *)

Lemma follows_app (p : phase) (xs ys : list bus_call) :
  follows p (xs ++ ys) =
  match follows p xs with
  | Some q => follows q ys
  | None => None
  end.
Proof.
  revert p. induction xs as [|x xs IH]; intros p; [reflexivity|].
  cbn [app follows]. destruct (next_phase p x); [apply IH|reflexivity].
Qed.

Lemma follows_pull_calls (n : nat) : follows Awaited (pull_calls n) = Some Polled.
Proof. induction n as [|n IH]; [reflexivity|exact IH]. Qed.

Section Invariants.

Context {B : Type} {TW : TinyWireM B}.

(** What a [loop()] that read a byte wrote, and the keep-alive byte it
    leaves armed. *)
Lemma loop_output (fuel : nat) (c : Z) (w w' : world B) :
  loop fuel (Some c) w = Some w' ->
  exists out,
    serial w' = serial w ++ out
    /\ ((out = [] /\ to_print w' = filler c) \/ (out <> [] /\ to_print w' = 0)).
Proof.
  intros H. apply loop_inv in H.
  set (l := to_upper (u8 c)) in *. clearbody l.
  set (f := filler c) in *. clearbody f.
  destruct w as [r a d g p st b cs out]. fields.
  destruct st.
  4: destruct H as [[Hk ->]|[_ (n & ds & b' & _ & ->)]];
       [revert Hk; open_blocks; split_ifs; intros Hk; try congruence|].
  all: try (destruct H as (n & ds & b' & _ & ->)).
  all: try subst w'.
  all: open_blocks; split_ifs.
  all: rewrite <- ?app_assoc.
  all: first
    [ exists []; rewrite ?app_nil_r;
      split; [reflexivity|]; left; split; reflexivity
    | eexists; split; [reflexivity|];
      right; split; [|reflexivity];
      first [discriminate | destruct ds; discriminate] ].
Qed.

Lemma idle_serial (w : world B) :
  serial (idle w) = serial w ++ (if to_print w =? 0 then [] else [to_print w])
  /\ to_print (idle w) = 0.
Proof.
  destruct w as [r a d g p st b cs out]. unfold idle. fields.
  destruct (p =? 0) eqn:E; fields; rewrite ?app_nil_r; split; try reflexivity.
  apply Z.eqb_eq in E. exact E.
Qed.

Lemma idle_twice (w : world B) : idle (idle w) = idle w.
Proof.
  unfold idle at 1. rewrite (proj2 (idle_serial w)). reflexivity.
Qed.

(** X5. The keep-alive byte.  A [loop()] that read a byte leaves it
    armed exactly when it wrote nothing: then the next [loop()] without
    input writes that one byte, CR after a CR or LF and a space after
    anything else; when the [loop()] wrote something (help, an error
    line, a row), no keep-alive byte follows.  A second [loop()] without
    input writes nothing. *)
Theorem keep_alive_armed_when_silent (fuel : nat) (c : Z) (w w' : world B) :
  loop fuel (Some c) w = Some w' ->
  exists out,
    serial w' = serial w ++ out
    /\ ((out = [] /\ to_print w' = filler c /\ serial (idle w') = serial w ++ [filler c])
        \/ (out <> [] /\ to_print w' = 0 /\ serial (idle w') = serial w'))
    /\ (filler c = CR \/ filler c = chr " ")
    /\ idle (idle w') = idle w'.
Proof.
  intros H. destruct (loop_output _ _ _ _ H) as (out & Hs & Hp).
  assert (Hf : filler c = CR \/ filler c = chr " ").
  { unfold filler. destruct ((u8 c =? CR) || (u8 c =? LF)); [left|right]; reflexivity. }
  exists out. split; [exact Hs|]. split; [|split; [exact Hf|apply idle_twice]].
  destruct (idle_serial w') as [Hi _].
  destruct Hp as [[-> Hp]|[Hne Hp]]; [left|right].
  - split; [reflexivity|]. split; [exact Hp|].
    rewrite Hi, Hs, Hp, app_nil_r. destruct Hf as [-> | ->]; reflexivity.
  - split; [exact Hne|]. split; [exact Hp|].
    rewrite Hi, Hp. apply app_nil_r.
Qed.

End Invariants.

(** X5 at a concrete input: [S] at power-on. *)
Lemma keep_alive_armed_when_silent_witness :
  exists out,
    serial (World 0 0 0 0 32 ST_ADDR quiet [] []) = serial (power_on quiet) ++ out
    /\ ((out = [] /\ to_print (World 0 0 0 0 32 ST_ADDR quiet [] []) = filler (chr "S")
         /\ serial (idle (World 0 0 0 0 32 ST_ADDR quiet [] []))
            = serial (power_on quiet) ++ [filler (chr "S")])
        \/ (out <> [] /\ to_print (World 0 0 0 0 32 ST_ADDR quiet [] []) = 0
            /\ serial (idle (World 0 0 0 0 32 ST_ADDR quiet [] []))
               = serial (World 0 0 0 0 32 ST_ADDR quiet [] [])))
    /\ (filler (chr "S") = CR \/ filler (chr "S") = chr " ")
    /\ idle (idle (World 0 0 0 0 32 ST_ADDR quiet [] []))
       = idle (World 0 0 0 0 32 ST_ADDR quiet [] []).
Proof.
  exact (keep_alive_armed_when_silent 1 (chr "S") (power_on quiet)
           (World 0 0 0 0 32 ST_ADDR quiet [] []) eq_refl).
Defined.

(** ** The order of the calls on the bus *)

Section Turns.

Context {B : Type} {TW : TinyWireM B}.

Lemma loop_in_turn (fuel : nat) (i : option Z) (w w' : world B) :
  loop fuel i w = Some w' -> in_turn w -> in_turn w'.
Proof.
  intros H (ph & Hph & Hna & Hw & Hr). destruct i as [c|].
  2:{ injection H as <-. exists ph. destruct w as [r a d g p st b cs out].
      unfold idle. fields. destruct (p =? 0); fields; repeat split; tauto. }
  apply loop_inv in H.
  set (l := to_upper (u8 c)) in *. clearbody l.
  set (f := filler c) in *. clearbody f.
  destruct w as [r a d g p st b cs out]. fields. unfold in_turn.
  destruct st; try congruence.
  4: destruct H as [[Hk ->]|[Hk (n & ds & b' & _ & ->)]].
  all: try subst w'.
  all: destruct ph; try congruence;
    try (exfalso; destruct Hw as [Hw1 Hw2];
         first [discriminate (Hw1 eq_refl) | discriminate (Hw2 eq_refl)]).
  all: try revert Hk.
  all: open_blocks; split_ifs; try (intros Hk; congruence); intros.
  all: rewrite ?follows_app, Hph; cbn [follows next_phase];
       rewrite ?follows_app, ?follows_pull_calls; cbn [follows next_phase].
  all: eexists; split; [reflexivity|]; split; [discriminate|]; split; [|discriminate].
  all: split; intros; first [reflexivity | discriminate].
Qed.

Lemma run_in_turn (fuel : nat) (inputs : list (option Z)) (w w' : world B) :
  run fuel inputs w = Some w' -> in_turn w -> in_turn w'.
Proof.
  revert w. induction inputs as [|i rest IH]; intros w H Hw.
  - injection H as <-. exact Hw.
  - cbn [run] in H. destruct (loop fuel i w) as [w1|] eqn:E; [|discriminate].
    apply (IH _ H). eapply loop_in_turn; eassumption.
Qed.

(** X6. From power-on, whatever the input and the bus, the calls on the
    I2C master come in turn: [send] and [endTransmission] only inside a
    transmission that was begun, no [beginTransmission] or [requestFrom]
    while one is open, [available] after each [requestFrom] and each
    [receive], [receive] only after [available].  A transmission is open
    exactly when [loop] rests in [ST_CMDW], and it never rests in
    [ST_RECV]. *)
Theorem bus_calls_in_turn (fuel : nat) (inputs : list (option Z)) (b : B) (w' : world B) :
  run fuel inputs (power_on b) = Some w' ->
  exists ph, follows Free (calls w') = Some ph
    /\ ph <> Awaited /\ (ph = Writing <-> state w' = ST_CMDW) /\ state w' <> ST_RECV.
Proof.
  intros H. apply (run_in_turn _ _ _ _ H).
  exists Free. split; [reflexivity|]. split; [discriminate|].
  split; [split; discriminate|discriminate].
Qed.

End Turns.

(** X6 at a concrete input: [S68W0R2W] on the responder. *)
Lemma bus_calls_in_turn_witness :
  exists ph,
    follows Free [BeginTransmission 104; Send 0; EndTransmission; RequestFrom 104 2;
                  Available; Receive; Available; Receive; Available; BeginTransmission 104]
      = Some ph
    /\ ph <> Awaited /\ (ph = Writing <-> ST_CMDW = ST_CMDW) /\ ST_CMDW <> ST_RECV.
Proof.
  exact (bus_calls_in_turn 5 (typed "S68W0R2W") all_zero
           (World 0 104 0 0 0 ST_CMDW (Responder (repeat 0 64) 2 [] [])
              [BeginTransmission 104; Send 0; EndTransmission; RequestFrom 104 2;
               Available; Receive; Available; Receive; Available; BeginTransmission 104]
              (str "00 00 " ++ [CR; LF]))
           eq_refl).
Defined.

(** ** Digits, one [loop()] at a time *)

Lemma hex_number_app (xs ys : list Z) (x : Z) :
  hex_number (xs ++ ys) x = hex_number ys (hex_number xs x).
Proof. apply fold_left_app. Qed.

Lemma hex_number_range (ds : list Z) (x : Z) :
  0 <= x < 256 -> 0 <= hex_number ds x < 256.
Proof.
  revert x. induction ds as [|c ds IH]; intros x Hx; [exact Hx|].
  apply IH. apply u8_range.
Qed.

(** Only the last two digits count. *)
Lemma hex_number_last_two (pre : list Z) (h l x : Z) :
  0 <= hex_value h < 16 -> 0 <= hex_value l < 16 ->
  hex_number (pre ++ [h; l]) x = 16 * hex_value h + hex_value l.
Proof.
  intros Hh Hl. rewrite hex_number_app. generalize (hex_number pre x). intros y.
  cbn [hex_number fold_left]. unfold u8.
  pose proof (Z.div_mod (16 * y + hex_value h) 256 ltac:(lia)) as E.
  symmetry.
  apply (Z.mod_unique_pos _ _ (y - 16 * ((16 * y + hex_value h) / 256))); lia.
Qed.

Section Steps.

Context {B : Type} {TW : TinyWireM B}.

(** A digit in [ST_ADDR] is shifted into the address. *)
Lemma loop_ADDR_digit (k : nat) (c r a d g p : Z) (b : B) (cs : list bus_call) (out : list Z) :
  is_upper_hex c = true ->
  loop (S (S k)) (Some c) (World r a d g p ST_ADDR b cs out)
  = Some (World r (u8 (16 * a + hex_value c)) d g 32 ST_ADDR b cs out).
Proof.
  intros H. destruct (read_hex_at_upper_hex a c H) as (E & V & U & F).
  apply upper_hex_range in H.
  unfold loop. rewrite loop_path_switch, U, F. cbn [state switch block].
  unfold case_ST_ADDR. fields. rewrite E. fields.
  decide_tests. reflexivity.
Qed.

(** A digit in [ST_CMDW]: the first one is kept, the second one
    completes the byte, which is sent. *)
Lemma loop_CMDW_digit (k : nat) (c r a d g p : Z) (b : B) (cs : list bus_call) (out : list Z) :
  is_upper_hex c = true -> g = 0 \/ g = 1 ->
  loop (S (S k)) (Some c) (World r a d g p ST_CMDW b cs out)
  = Some (if g =? 0
          then World 1 a (u8 (16 * d + hex_value c)) 1 32 ST_CMDW b cs out
          else World 1 a 0 0 32 ST_CMDW (send (u8 (16 * d + hex_value c)) b)
                 (cs ++ [Send (u8 (16 * d + hex_value c))]) out).
Proof.
  intros H Hg. destruct (read_hex_at_upper_hex d c H) as (E & V & U & F).
  apply upper_hex_range in H.
  unfold loop. rewrite loop_path_switch, U, F. cbn [state switch block].
  unfold case_ST_CMDW, accumulate_CMDW. fields. rewrite E. fields.
  destruct Hg as [-> | ->]; cbn; reflexivity.
Qed.

(** A digit in [ST_CMDR] is shifted into the count. *)
Lemma loop_CMDR_digit (k : nat) (c r a d g p : Z) (b : B) (cs : list bus_call) (out : list Z) :
  is_upper_hex c = true ->
  loop (S (S k)) (Some c) (World r a d g p ST_CMDR b cs out)
  = Some (World 1 a (u8 (16 * d + hex_value c)) (u8 (g + 1)) 32 ST_CMDR b cs out).
Proof.
  intros H. destruct (read_hex_at_upper_hex d c H) as (E & V & U & F).
  apply upper_hex_range in H.
  unfold loop. rewrite loop_path_switch, U, F. cbn [state switch block].
  unfold case_ST_CMDR, accumulate_CMDR. fields. rewrite E. fields.
  cbn [Z.eqb andb]. decide_tests. reflexivity.
Qed.

End Steps.

(** The two digits [print_hex] writes for a byte, read as a number. *)
Lemma hex2_number (x : Z) :
  0 <= x < 256 ->
  exists h l, hex2 x = [h; l] /\ is_upper_hex h = true /\ is_upper_hex l = true
              /\ forall y, hex_number [h; l] y = x.
Proof.
  intros Hx. destruct (hex2_digits x Hx) as (h & l & E & Hh & Hl & Hv).
  exists h, l. repeat (split; [assumption|]). intros y.
  change [h; l] with ([] ++ [h; l]). rewrite (hex_number_last_two [] h l y).
  - exact Hv.
  - apply (read_hex_upper_hex 0 h Hh).
  - apply (read_hex_upper_hex 0 l Hl).
Qed.

Lemma hex_typed_cons (x : Z) (bs : list Z) :
  hex_typed (x :: bs) = map Some (hex2 x) ++ hex_typed bs.
Proof. unfold hex_typed. cbn [flat_map]. apply map_app. Qed.

Lemma hex_typed_one (x : Z) : hex_typed [x] = map Some (hex2 x).
Proof. rewrite hex_typed_cons. apply app_nil_r. Qed.

Section Typed.

Context {B : Type} {TW : TinyWireM B}.

Lemma run_ADDR_digits (k : nat) (ds : list Z) (r a d g p : Z) (b : B)
  (cs : list bus_call) (out : list Z) :
  Forall (fun c => is_upper_hex c = true) ds ->
  exists p',
    run (S (S k)) (map Some ds) (World r a d g p ST_ADDR b cs out)
    = Some (World r (hex_number ds a) d g p' ST_ADDR b cs out).
Proof.
  intros H. revert a p. induction H as [|c ds Hc Hds IH]; intros a p.
  - exists p. reflexivity.
  - cbn [map run]. rewrite (loop_ADDR_digit k c r a d g p b cs out Hc).
    destruct (IH (u8 (16 * a + hex_value c)) 32) as [p' E]. exists p'. exact E.
Qed.

Lemma run_CMDR_digits (k : nat) (ds : list Z) (r a d g p : Z) (b : B)
  (cs : list bus_call) (out : list Z) :
  Forall (fun c => is_upper_hex c = true) ds -> 0 <= g < 256 ->
  exists r' p',
    run (S (S k)) (map Some ds) (World r a d g p ST_CMDR b cs out)
    = Some (World r' a (hex_number ds d) (u8 (g + Z.of_nat (List.length ds))) p'
              ST_CMDR b cs out).
Proof.
  intros H. revert r d g p. induction H as [|c ds Hc Hds IH]; intros r d g p Hg.
  - exists r, p. cbn [map run List.length hex_number fold_left Z.of_nat].
    rewrite Z.add_0_r, u8_small by exact Hg. reflexivity.
  - cbn [map run]. rewrite (loop_CMDR_digit k c r a d g p b cs out Hc).
    destruct (IH 1 (u8 (16 * d + hex_value c)) (u8 (g + 1)) 32 (u8_range _))
      as (r' & p' & E).
    exists r', p'. rewrite E. cbn [hex_number fold_left]. do 2 f_equal.
    unfold u8. rewrite Z.add_mod_idemp_l by lia. f_equal. cbn [List.length]. lia.
Qed.

Lemma run_CMDW_bytes (k : nat) (bs : list Z) (r a p : Z) (b : B)
  (cs : list bus_call) (out : list Z) :
  Forall (fun x => 0 <= x < 256) bs ->
  exists r' p',
    run (S (S k)) (hex_typed bs) (World r a 0 0 p ST_CMDW b cs out)
    = Some (World r' a 0 0 p' ST_CMDW (bus_sent bs b) (cs ++ map Send bs) out).
Proof.
  intros H. revert r p b cs. induction H as [|x bs Hx Hbs IH]; intros r p b cs.
  - exists r, p. cbn. rewrite app_nil_r. reflexivity.
  - destruct (hex2_number x Hx) as (h & l & E & Hh & Hl & Hv).
    rewrite hex_typed_cons, run_app, E. cbn [map run].
    rewrite (loop_CMDW_digit k h r a 0 0 p b cs out Hh) by (left; reflexivity).
    cbn [Z.eqb].
    rewrite (loop_CMDW_digit k l 1 a _ 1 32 b cs out Hl) by (right; reflexivity).
    cbn [Z.eqb].
    change (u8 (16 * u8 (16 * 0 + hex_value h) + hex_value l)) with (hex_number [h; l] 0).
    rewrite Hv.
    destruct (IH 1 32 (send x b) (cs ++ [Send x])) as (r' & p' & E').
    exists r', p'. rewrite E'. cbn [bus_sent fold_left map].
    rewrite <- app_assoc. reflexivity.
Qed.

(** The byte that ends a write with nothing pending: [endTransmission()],
    the error line if it failed, and the byte goes to [parse_cmd]. *)
Lemma loop_CMDW_close (k : nat) (c r a p : Z) (b : B) (cs : list bus_call) (out : list Z)
  (s : Z) (b' : B) :
  closes_write 0 c = true -> endTransmission b = (s, b') ->
  loop (S (S k)) (Some c) (World r a 0 0 p ST_CMDW b cs out)
  = Some (parse_cmd (to_upper (u8 c))
            (World (uint8_t s) a 0 0 (if uint8_t s =? 0 then filler c else 0) ST_CMD b'
               (cs ++ [EndTransmission]) (out ++ error_line "W!" s))).
Proof.
  intros Hc He.
  assert (Hf : read_hex_at 0 (to_upper (u8 c)) = (0, 0)).
  { unfold closes_write in Hc. apply andb_true_iff in Hc. destruct Hc as [Hc _].
    apply andb_true_iff in Hc. destruct Hc as [Hc _]. apply Z.eqb_eq in Hc.
    pose proof (read_hex_at_miss 0 _ Hc) as Hm.
    destruct (read_hex_at 0 (to_upper (u8 c))) as [z z0]. cbn [fst snd] in *. congruence. }
  assert (Ha : accumulate_CMDW (to_upper (u8 c))
                 (set_to_print (filler c) (World r a 0 0 p ST_CMDW b cs out))
               = World 0 a 0 0 (filler c) ST_CMDW b cs out).
  { unfold accumulate_CMDW. fields. rewrite Hf. reflexivity. }
  destruct (loop_closes_write k c (World r a 0 0 p ST_CMDW b cs out) s b') as [_ Hl].
  - reflexivity.
  - exact Hc.
  - rewrite Ha. exact He.
  - rewrite Hl, Ha, report_write. unfold error_line. fields.
    destruct (uint8_t s =? 0); fields; rewrite ?app_nil_r; reflexivity.
Qed.

End Typed.

(** ** Commands as they are typed *)

Lemma read_hex_at_flag_any (x y c : Z) : fst (read_hex_at x c) = fst (read_hex_at y c).
Proof.
  unfold read_hex_at, read_hex. cbn [option_map].
  destruct ((chr "0" <=? c) && (c <=? chr "9")); [reflexivity|].
  destruct ((chr "A" <=? c) && (c <=? chr "F")); [reflexivity|].
  destruct ((chr "a" <=? c) && (c <=? chr "z")); reflexivity.
Qed.

Section Transactions.

Context {B : Type} {TW : TinyWireM B}.

Lemma loop_CMD_S (k : nat) (r a d g p : Z) (b : B) (cs : list bus_call) (out : list Z) :
  loop (S (S k)) (Some (chr "S")) (World r a d g p ST_CMD b cs out)
  = Some (World r 0 0 0 32 ST_ADDR b cs out).
Proof. reflexivity. Qed.

Lemma loop_ADDR_S (k : nat) (r a d g p : Z) (b : B) (cs : list bus_call) (out : list Z) :
  loop (S (S k)) (Some (chr "S")) (World r a d g p ST_ADDR b cs out)
  = Some (World r 0 d g 32 ST_ADDR b cs out).
Proof. reflexivity. Qed.

Lemma loop_ADDR_W (k : nat) (r a d g p : Z) (b : B) (cs : list bus_call) (out : list Z) :
  loop (S (S k)) (Some (chr "W")) (World r a d g p ST_ADDR b cs out)
  = Some (World r a 0 0 32 ST_CMDW (beginTransmission a b) (cs ++ [BeginTransmission a]) out).
Proof. reflexivity. Qed.

Lemma loop_CMD_R (k : nat) (r a d g p : Z) (b : B) (cs : list bus_call) (out : list Z) :
  loop (S (S k)) (Some (chr "R")) (World r a d g p ST_CMD b cs out)
  = Some (World r a 0 0 32 ST_CMDR b cs out).
Proof. reflexivity. Qed.

(** X7. After [S], the address is a two-digit shift register: of the
    hex digits typed, only the last two count (their value is the
    address), a single digit is the address itself, and no call is made
    on the bus. *)
Theorem address_is_last_two_digits (k : nat) (pre : list Z) (h l : Z) (w : world B) :
  state w = ST_CMD \/ state w = ST_ADDR ->
  Forall (fun c => is_upper_hex c = true) pre ->
  is_upper_hex h = true -> is_upper_hex l = true ->
  (exists w',
     run (S (S k)) (Some (chr "S") :: map Some (pre ++ [h; l])) w = Some w'
     /\ addr w' = 16 * hex_value h + hex_value l
     /\ state w' = ST_ADDR /\ calls w' = calls w /\ serial w' = serial w
     /\ wire w' = wire w)
  /\ (exists w',
        run (S (S k)) [Some (chr "S"); Some h] w = Some w'
        /\ addr w' = hex_value h /\ state w' = ST_ADDR).
Proof.
  intros Hs Hpre Hh Hl.
  assert (Hds : Forall (fun c => is_upper_hex c = true) (pre ++ [h; l])).
  { apply Forall_app. split; [exact Hpre|]. repeat constructor; assumption. }
  destruct (read_hex_upper_hex 0 h Hh) as [_ Vh].
  destruct (read_hex_upper_hex 0 l Hl) as [_ Vl].
  destruct w as [r a d g p st b cs out]. cbn [state] in Hs.
  assert (E : exists d' g',
             loop (S (S k)) (Some (chr "S")) (World r a d g p st b cs out)
             = Some (World r 0 d' g' 32 ST_ADDR b cs out)).
  { destruct Hs as [-> | ->]; eexists; eexists; reflexivity. }
  destruct E as (d' & g' & E). split.
  - cbn [run]. rewrite E.
    destruct (run_ADDR_digits k (pre ++ [h; l]) r 0 d' g' 32 b cs out Hds) as [p' E'].
    rewrite E'. eexists. split; [reflexivity|]. fields.
    rewrite hex_number_last_two by assumption. repeat split; reflexivity.
  - cbn [run]. rewrite E.
    rewrite (loop_ADDR_digit k h r 0 d' g' 32 b cs out Hh).
    eexists. split; [reflexivity|]. fields. split; [|reflexivity].
    apply u8_small. lia.
Qed.

(** X8. A write, end to end, against any bus: [S], the address as two
    hex digits, [W], the bytes as two hex digits each, [P].  The bus sees
    one transmission to that address with exactly those bytes in that
    order, then [endTransmission]; the serial port gets nothing, or the
    error line when the status is not 0; [loop] is back in [ST_CMD]. *)
Theorem bytes_written_as_typed (k : nat) (a : Z) (bs : list Z) (b : B) (s : Z) (b' : B) :
  0 <= a < 256 -> Forall (fun x => 0 <= x < 256) bs ->
  endTransmission (bus_sent bs (beginTransmission a b)) = (s, b') ->
  exists w,
    run (S (S k)) (typed "S" ++ hex_typed [a] ++ typed "W" ++ hex_typed bs ++ typed "P")
      (power_on b) = Some w
    /\ calls w = BeginTransmission a :: map Send bs ++ [EndTransmission]
    /\ wire w = b' /\ serial w = error_line "W!" s
    /\ state w = ST_CMD /\ addr w = a /\ ret w = uint8_t s.
Proof.
  intros Ha Hbs He.
  destruct (hex2_number a Ha) as (h & l & Ea & Hh & Hl & Hv).
  unfold power_on, typed. cbn [str map app run].
  rewrite loop_CMD_S. cbv beta iota.
  rewrite hex_typed_one, Ea, run_app.
  destruct (run_ADDR_digits k [h; l] 0 0 0 0 32 b [] []) as [p1 E1];
    [repeat constructor; assumption|].
  rewrite E1, Hv. cbv beta iota. cbn [run].
  rewrite loop_ADDR_W. cbv beta iota. cbn [app]. rewrite run_app.
  destruct (run_CMDW_bytes k bs 0 a 32 (beginTransmission a b) [BeginTransmission a] [] Hbs)
    as (r2 & p2 & E2).
  rewrite E2. cbv beta iota. cbn [run].
  rewrite (loop_CMDW_close k (chr "P") r2 a p2 _ _ _ s b' eq_refl He).
  eexists. split; [reflexivity|].
  unfold parse_cmd. fields. cbn [app]. repeat split; reflexivity.
Qed.

End Transactions.

(** X7 at a concrete input: [S123] gives the address 0x23. *)
Lemma address_is_last_two_digits_witness :
  exists w',
    run 2 (Some (chr "S") :: map Some (str "1" ++ [chr "2"; chr "3"])) (power_on quiet)
      = Some w'
    /\ addr w' = 16 * hex_value (chr "2") + hex_value (chr "3").
Proof.
  destruct (address_is_last_two_digits 0 (str "1") (chr "2") (chr "3") (power_on quiet))
    as [(w' & E & Ha & _) _].
  - left. reflexivity.
  - repeat constructor.
  - reflexivity.
  - reflexivity.
  - exists w'. split; assumption.
Defined.

(** X8 at a concrete input: [S68W00ABP]. *)
Lemma bytes_written_as_typed_witness :
  exists w,
    run 2 (typed "S" ++ hex_typed [104] ++ typed "W" ++ hex_typed [0; 171] ++ typed "P")
      (power_on quiet) = Some w
    /\ calls w = [BeginTransmission 104; Send 0; Send 171; EndTransmission].
Proof.
  destruct (bytes_written_as_typed 0 104 [0; 171] quiet 0 quiet) as (w & E & Hc & _).
  - lia.
  - repeat (constructor; [lia|]). constructor.
  - reflexivity.
  - exists w. split; assumption.
Defined.

Section Reads.

Context {B : Type} {TW : TinyWireM B}.

(** A read typed in [ST_CMDR]: the digits of the count, then a byte that
    is not a digit while the digit counter is not 0. *)
Lemma run_CMDR_count (n k : nat) (ds : list Z) (c r a p : Z) (b : B)
  (cs : list bus_call) (out : list Z) (s : Z) (b1 b2 : B) (rs : list Z) :
  Forall (fun c => is_upper_hex c = true) ds ->
  Z.of_nat (List.length ds) mod 256 <> 0 ->
  fst (read_hex_at 0 (to_upper (u8 c))) = 0 ->
  requestFrom a (hex_number ds 0) b = (s, b1) ->
  pull n b1 = Some (rs, b2) ->
  exists w',
    run (S (S (n + k))) (map Some ds ++ [Some c]) (World r a 0 0 p ST_CMDR b cs out)
      = Some w'
    /\ calls w' =
       cs ++ RequestFrom a (hex_number ds 0) :: pull_calls (List.length rs)
       ++ (if to_upper (u8 c) =? chr "W" then [BeginTransmission a] else [])
    /\ serial w' =
       out ++ error_line "R!" s ++ hex_row rs ++ [CR; LF]
       ++ (if to_upper (u8 c) =? chr "?" then help_text else [])
    /\ state w' = state (parse_cmd (to_upper (u8 c)) (World r a 0 0 p ST_CMD b cs out))
    /\ (to_upper (u8 c) <> chr "S" -> addr w' = a).
Proof.
  intros Hds Hn Hc Hr Hp.
  destruct (run_CMDR_digits (n + k) ds r a 0 0 p b cs out Hds) as (r' & p' & E); [lia|].
  rewrite run_app, E. cbv beta iota. cbn [run].
  destruct (loop_reads n (S (S (n + k))) c
              (World r' a (hex_number ds 0) (u8 (0 + Z.of_nat (List.length ds))) p'
                 ST_CMDR b cs out) s b1 b2 rs)
    as (w' & Hl & Hser & _ & Hst & Hcalls).
  - reflexivity.
  - cbn [data]. rewrite (read_hex_at_flag_any _ 0). exact Hc.
  - cbn [digits]. rewrite Z.add_0_l. unfold u8. rewrite Z.mod_mod by lia. exact Hn.
  - exact Hr.
  - exact Hp.
  - lia.
  - exists w'. rewrite Hl. split; [reflexivity|]. split; [exact Hcalls|].
    split; [exact Hser|]. split.
    + rewrite Hst. unfold parse_cmd. fields.
      destruct (to_upper (u8 c) =? chr "S"); [reflexivity|].
      destruct (to_upper (u8 c) =? chr "W"); [reflexivity|].
      destruct (to_upper (u8 c) =? chr "R"); [reflexivity|].
      destruct (to_upper (u8 c) =? chr "?"); reflexivity.
    + intros HS. destruct (loop_addr _ _ _ _ Hl) as (_ & Hk & _).
      apply Hk; [discriminate|]. intros c0 E0. injection E0 as <-. exact HS.
Qed.

(** The same with a digit counter that is 0: nothing is requested. *)
Lemma run_CMDR_no_count (k : nat) (ds : list Z) (c r a p : Z) (b : B)
  (cs : list bus_call) (out : list Z) :
  Forall (fun c => is_upper_hex c = true) ds ->
  Z.of_nat (List.length ds) mod 256 = 0 ->
  fst (read_hex_at 0 (to_upper (u8 c))) = 0 ->
  exists w',
    run (S (S k)) (map Some ds ++ [Some c]) (World r a 0 0 p ST_CMDR b cs out) = Some w'
    /\ calls w' =
       cs ++ (if to_upper (u8 c) =? chr "W" then [BeginTransmission a] else [])
    /\ serial w' = out ++ (if to_upper (u8 c) =? chr "?" then help_text else [])
    /\ (to_upper (u8 c) = chr " " \/ to_upper (u8 c) = LF ->
        state w' = ST_CMDR /\ data w' = hex_number ds 0 /\ digits w' = 0).
Proof.
  intros Hds Hn Hc.
  destruct (run_CMDR_digits k ds r a 0 0 p b cs out Hds) as (r' & p' & E); [lia|].
  replace (u8 (0 + Z.of_nat (List.length ds))) with 0 in E
    by (unfold u8; rewrite Z.add_0_l; symmetry; exact Hn).
  rewrite run_app, E. cbv beta iota. cbn [run].
  assert (Hf : read_hex_at (hex_number ds 0) (to_upper (u8 c)) = (0, hex_number ds 0)).
  { pose proof (read_hex_at_flag_any (hex_number ds 0) 0 (to_upper (u8 c))) as Hx.
    rewrite Hc in Hx. pose proof (read_hex_at_miss _ _ Hx) as Hm.
    destruct (read_hex_at (hex_number ds 0) (to_upper (u8 c))) as [z z0].
    cbn [fst snd] in *. congruence. }
  unfold loop. rewrite loop_path_switch.
  set (l := to_upper (u8 c)) in *. clearbody l. cbn [state switch block].
  unfold case_ST_CMDR, accumulate_CMDR. fields. rewrite Hf. fields.
  change (u8 (0 + 0)) with 0. cbn [Z.eqb andb negb].
  destruct ((l =? chr " ") || (l =? LF)) eqn:Esp.
  - replace (negb (l =? chr " ") && negb (l =? LF)) with false
      by (destruct (l =? chr " "), (l =? LF); try reflexivity; discriminate).
    cbn [option_map fst]. eexists. split; [reflexivity|]. fields.
    apply orb_true_iff in Esp. rewrite !Z.eqb_eq in Esp.
    destruct (Z.eqb_spec l (chr "W")) as [->|_];
      [destruct Esp; discriminate|].
    destruct (Z.eqb_spec l (chr "?")) as [->|_];
      [destruct Esp; discriminate|].
    rewrite !app_nil_r. repeat split; reflexivity.
  - replace (negb (l =? chr " ") && negb (l =? LF)) with true
      by (destruct (l =? chr " "), (l =? LF); try reflexivity; discriminate).
    cbn [case_of switch block option_map fst]. unfold case_ST_CMD, parse_cmd.
    apply orb_false_iff in Esp. rewrite !Z.eqb_neq in Esp.
    eexists. split; [reflexivity|].
    open_blocks. split_ifs; rewrite ?app_nil_r; repeat split; try reflexivity.
    all: try (intros [-> | ->]); exfalso; tests; chars; lia.
Qed.

(** X9. A read typed from [ST_CMD]: [R], hex digits (not a multiple of
    256 of them), then a byte that is not a digit.  One [requestFrom] is
    issued, to the current address, for the number the digits spell
    (their last two count), the bus is drained, and the row goes out,
    after the error line if the request failed and before the help if
    the byte was [?]. *)
Theorem read_count_is_typed_number (n k : nat) (ds : list Z) (c : Z) (w : world B)
  (s : Z) (b1 b2 : B) (rs : list Z) :
  state w = ST_CMD ->
  Forall (fun c => is_upper_hex c = true) ds ->
  Z.of_nat (List.length ds) mod 256 <> 0 ->
  fst (read_hex_at 0 (to_upper (u8 c))) = 0 ->
  requestFrom (addr w) (hex_number ds 0) (wire w) = (s, b1) ->
  pull n b1 = Some (rs, b2) ->
  (exists w',
     run (S (S (n + k))) (Some (chr "R") :: map Some ds ++ [Some c]) w = Some w'
     /\ calls w' =
        calls w ++ RequestFrom (addr w) (hex_number ds 0) :: pull_calls (List.length rs)
        ++ (if to_upper (u8 c) =? chr "W" then [BeginTransmission (addr w)] else [])
     /\ serial w' =
        serial w ++ error_line "R!" s ++ hex_row rs ++ [CR; LF]
        ++ (if to_upper (u8 c) =? chr "?" then help_text else []))
  /\ 0 <= hex_number ds 0 < 256
  /\ (forall pre h l, ds = pre ++ [h; l] -> hex_number ds 0 = 16 * hex_value h + hex_value l).
Proof.
  intros Hst Hds Hn Hc Hr Hp.
  destruct w as [r a d g p st b cs out]. cbn [state addr wire calls serial] in *. subst st.
  split; [|split].
  - cbn [run]. rewrite loop_CMD_R.
    destruct (run_CMDR_count n k ds c r a 32 b cs out s b1 b2 rs Hds Hn Hc Hr Hp)
      as (w' & E & Hcalls & Hser & _).
    exists w'. repeat split; assumption.
  - apply hex_number_range. lia.
  - intros pre h l ->. apply Forall_app in Hds. destruct Hds as [_ Hhl].
    inversion Hhl as [|? ? Hh Hl']. inversion Hl' as [|? ? Hl _]. subst.
    apply hex_number_last_two.
    + apply (read_hex_upper_hex 0 h Hh).
    + apply (read_hex_upper_hex 0 l Hl).
Qed.

(** X10. The digit counter of a read is one byte: after 256 digits (or
    any multiple, none included) it is 0 again, and the byte that should
    end the count requests nothing.  A space or line feed then leaves
    [loop] waiting in [ST_CMDR] with the number still in [data]. *)
Theorem read_count_of_256_digits_is_dropped (k : nat) (ds : list Z) (c : Z) (w : world B) :
  state w = ST_CMD ->
  Forall (fun c => is_upper_hex c = true) ds ->
  Z.of_nat (List.length ds) mod 256 = 0 ->
  fst (read_hex_at 0 (to_upper (u8 c))) = 0 ->
  exists w',
    run (S (S k)) (Some (chr "R") :: map Some ds ++ [Some c]) w = Some w'
    /\ calls w' =
       calls w ++ (if to_upper (u8 c) =? chr "W" then [BeginTransmission (addr w)] else [])
    /\ serial w' = serial w ++ (if to_upper (u8 c) =? chr "?" then help_text else [])
    /\ (to_upper (u8 c) = chr " " \/ to_upper (u8 c) = LF ->
        state w' = ST_CMDR /\ data w' = hex_number ds 0 /\ digits w' = 0).
Proof.
  intros Hst Hds Hn Hc.
  destruct w as [r a d g p st b cs out]. cbn [state addr wire calls serial] in *. subst st.
  cbn [run]. rewrite loop_CMD_R.
  apply run_CMDR_no_count; assumption.
Qed.

(** X11. A register read, end to end, against any bus: [S] address [W]
    register [R] count and a line feed.  The bus sees the one-byte write,
    its end, the request for the count at the same address and the
    draining; the serial port gets the error lines of the statuses that
    are not 0, then one hex pair and a space for each byte received,
    then CR LF. *)
Theorem register_read_end_to_end (m k : nat) (a reg n : Z) (b : B)
  (s1 : Z) (b1 : B) (s2 : Z) (b2 : B) (rs : list Z) (b3 : B) :
  0 <= a < 256 -> 0 <= reg < 256 -> 0 <= n < 256 ->
  endTransmission (send reg (beginTransmission a b)) = (s1, b1) ->
  requestFrom a n b1 = (s2, b2) ->
  pull m b2 = Some (rs, b3) ->
  exists w,
    run (S (S (m + k)))
      (typed "S" ++ hex_typed [a] ++ typed "W" ++ hex_typed [reg] ++ typed "R"
       ++ hex_typed [n] ++ [Some LF]) (power_on b) = Some w
    /\ calls w =
       [BeginTransmission a; Send reg; EndTransmission; RequestFrom a n]
       ++ pull_calls (List.length rs)
    /\ serial w = error_line "W!" s1 ++ error_line "R!" s2 ++ hex_row rs ++ [CR; LF]
    /\ state w = ST_CMD /\ addr w = a.
Proof.
  intros Ha Hreg Hn He Hr Hp.
  destruct (hex2_number a Ha) as (h & l & Ea & Hh & Hl & Hv).
  destruct (hex2_number n Hn) as (h' & l' & En & Hh' & Hl' & Hv').
  unfold power_on, typed. cbn [str map app run].
  rewrite loop_CMD_S. cbv beta iota.
  rewrite hex_typed_one, Ea, run_app.
  destruct (run_ADDR_digits (m + k) [h; l] 0 0 0 0 32 b [] []) as [p1 E1];
    [repeat constructor; assumption|].
  rewrite E1, Hv. cbv beta iota. cbn [run].
  rewrite loop_ADDR_W. cbv beta iota. cbn [app]. rewrite run_app.
  destruct (run_CMDW_bytes (m + k) [reg] 0 a 32 (beginTransmission a b)
              [BeginTransmission a] []) as (r2 & p2 & E2);
    [constructor; [exact Hreg|constructor]|].
  rewrite E2. cbv beta iota. cbn [run bus_sent fold_left map app].
  rewrite (loop_CMDW_close (m + k) (chr "R") r2 a p2 _ _ _ s1 b1 eq_refl He).
  cbv beta iota.
  change (parse_cmd (to_upper (u8 (chr "R"))) ?w) with (parse_cmd 82 w).
  unfold parse_cmd. fields. cbn [Z.eqb]. fields. cbn [app].
  rewrite hex_typed_one, En.
  destruct (run_CMDR_count m k [h'; l'] LF (uint8_t s1) a
              (if uint8_t s1 =? 0 then filler (chr "R") else 0) b1
              [BeginTransmission a; Send reg; EndTransmission] (error_line "W!" s1)
              s2 b2 b3 rs) as (w & E & Hcalls & Hser & Hst & Haddr).
  - repeat constructor; assumption.
  - cbn. lia.
  - reflexivity.
  - rewrite Hv'. exact Hr.
  - exact Hp.
  - exists w. split; [exact E|]. rewrite Hv' in Hcalls.
    split; [etransitivity; [exact Hcalls|]; cbn; rewrite app_nil_r; reflexivity|].
    split; [etransitivity; [exact Hser|];
            change (to_upper (u8 LF) =? chr "?") with false; cbv iota;
            rewrite !app_nil_r; reflexivity|].
    split; [exact Hst|]. apply Haddr. discriminate.
Qed.

End Reads.

(** X9 at a concrete input: [R07] and a line feed on the responder. *)
Lemma read_count_is_typed_number_witness :
  exists w',
    run 10 (Some (chr "R") :: map Some (str "07") ++ [Some LF]) (power_on all_zero) = Some w'
    /\ serial w' = str "00 00 00 00 00 00 00 " ++ [CR; LF].
Proof.
  destruct (read_count_is_typed_number 8 0 (str "07") LF (power_on all_zero) 0
              (Responder (repeat 0 64) 7 [] (repeat 0 7))
              (Responder (repeat 0 64) 7 [] [])
              (repeat 0 7)) as [(w' & E & _ & Hs) _].
  - reflexivity.
  - repeat constructor.
  - vm_compute. discriminate.
  - reflexivity.
  - reflexivity.
  - reflexivity.
  - exists w'. split; [exact E|exact Hs].
Defined.

(** X10 at a concrete input: [R], 256 digits and a space. *)
Lemma read_count_of_256_digits_is_dropped_witness :
  exists w',
    run 2 (Some (chr "R") :: map Some (repeat (chr "1") 256) ++ [Some (chr " ")])
      (power_on quiet) = Some w'
    /\ calls w' = [] /\ state w' = ST_CMDR.
Proof.
  destruct (read_count_of_256_digits_is_dropped 0 (repeat (chr "1") 256) (chr " ")
              (power_on quiet)) as (w' & E & Hc & _ & Hs).
  - reflexivity.
  - apply Forall_forall. intros x Hx. apply repeat_spec in Hx. subst x. reflexivity.
  - rewrite repeat_length. reflexivity.
  - reflexivity.
  - exists w'. split; [exact E|]. split; [exact Hc|].
    exact (proj1 (Hs (or_introl eq_refl))).
Defined.

(** X11 at a concrete input: [S68W00R07] and a line feed on the responder. *)
Lemma register_read_end_to_end_witness :
  exists w,
    run 10 (typed "S" ++ hex_typed [104] ++ typed "W" ++ hex_typed [0] ++ typed "R"
            ++ hex_typed [7] ++ [Some LF]) (power_on all_zero) = Some w
    /\ serial w = str "00 00 00 00 00 00 00 " ++ [CR; LF].
Proof.
  destruct (register_read_end_to_end 8 0 104 0 7 all_zero
              0 (Responder (repeat 0 64) 0 [] [])
              0 (Responder (repeat 0 64) 7 [] (repeat 0 7))
              (repeat 0 7) (Responder (repeat 0 64) 7 [] []))
    as (w & E & _ & Hs & _).
  1-3: lia.
  1-3: reflexivity.
  exists w. split; [exact E|exact Hs].
Defined.

(** ** Commands from anywhere *)

(** After the upper-casing of [loop], a digit is worth less than 16. *)
Lemma read_hex_at_to_upper (x c : Z) :
  fst (read_hex_at x (to_upper (u8 c))) = 1 ->
  exists v, 0 <= v < 16 /\ snd (read_hex_at x (to_upper (u8 c))) = u8 (16 * x + v).
Proof.
  assert (Hc : 0 <= u8 c < 256) by apply u8_range.
  destruct (to_upper_cases (u8 c) Hc) as [[Hr ->]|[Hr ->]].
  all: unfold read_hex_at, read_hex; cbn [option_map]; chars.
  all: rewrite Z.shiftl_mul_pow2 by lia; change (2 ^ 4) with 16.
  all: leb_cases; cbn [andb fst snd]; intros Hf; try discriminate; try lia.
  all: eexists; (split; [|unfold u8; f_equal; rewrite Z.mul_comm; reflexivity]).
  all: unfold u8 in *; lia.
Qed.

Section Commands.

Context {B : Type} {TW : TinyWireM B}.

(** On a bus where the receive loop ends, [loop] returns. *)
Lemma loop_drains (c : Z) (w : world B) :
  drains ->
  exists n w', forall fuel, (n <= fuel)%nat -> loop fuel (Some c) w = Some w'.
Proof.
  intros Hd.
  destruct (goes_total (to_upper (u8 c)) Hd (state w) (set_to_print (filler c) w))
    as (w' & path & Hg).
  destruct (goes_switch _ _ _ _ _ Hg) as [n Hn].
  exists n, w'. intros fuel Hle. unfold loop. rewrite loop_path_switch, (Hn fuel Hle).
  reflexivity.
Qed.

(** Outside the receive path, [loop] returns with any fuel of at least 2. *)
Lemma loop_returns_plain (k : nat) (c : Z) (w : world B) :
  state w = ST_CMD \/ state w = ST_ADDR \/ state w = ST_CMDW
  \/ (state w = ST_CMDR /\ (u8 (digits w) = 0 \/ fst (read_hex_at 0 (to_upper (u8 c))) = 1)) ->
  exists w', loop (S (S k)) (Some c) w = Some w'.
Proof.
  intros Hs.
  assert (Hb : exists r, block 0 (state w) (to_upper (u8 c)) (set_to_print (filler c) w)
                         = Some r /\ snd r <> Goto recv_now_label).
  { destruct w as [r a d g p st b cs out]. cbn [state digits] in *.
    destruct Hs as [-> |[-> |[-> |[-> Hg]]]]; cbn [block]; eexists; (split; [reflexivity|]).
    - discriminate.
    - open_blocks. split_ifs; discriminate.
    - open_blocks. split_ifs; discriminate.
    - rewrite (read_hex_at_flag_any 0 d) in Hg.
      pose proof (read_hex_at_flag d (to_upper (u8 c))) as Hfl.
      set (l := to_upper (u8 c)) in *. clearbody l.
      unfold case_ST_CMDR, accumulate_CMDR. fields.
      destruct (read_hex_at d l) as [z z0]. cbn [fst] in *. fields.
      destruct Hfl as [-> | ->].
      + destruct Hg as [Hg|Hg]; [|discriminate]. rewrite Z.add_0_r, Hg.
        cbn [Z.eqb negb andb]. split_ifs; discriminate.
      + cbn [Z.eqb andb]. discriminate. }
  destruct Hb as (r & Hb & Hr). eexists. apply (loop_returns k c w r Hb Hr).
Qed.

(** X12. [S] (or [s]) resynchronises from anywhere: the [loop()] that
    returns from it rests in [ST_ADDR] with address 0; an open write was
    ended by exactly one [endTransmission()], and nothing else ends one;
    outside [ST_ADDR] the accumulator is cleared.  It returns with fuel 2
    unless a read is pending, and in any case on a bus whose receive loop
    ends. *)
Theorem S_resyncs (c : Z) (w : world B) :
  to_upper (u8 c) = chr "S" ->
  (forall fuel w', loop fuel (Some c) w = Some w' ->
     state w' = ST_ADDR /\ addr w' = 0
     /\ (state w <> ST_ADDR -> data w' = 0 /\ digits w' = 0)
     /\ count is_end (calls w') =
        (count is_end (calls w) + if enum_state_eqb (state w) ST_CMDW then 1 else 0)%nat)
  /\ (drains -> exists n w', forall fuel, (n <= fuel)%nat -> loop fuel (Some c) w = Some w')
  /\ (state w = ST_CMD \/ state w = ST_ADDR \/ state w = ST_CMDW
      \/ (state w = ST_CMDR /\ u8 (digits w) = 0) ->
      forall k, exists w', loop (S (S k)) (Some c) w = Some w').
Proof.
  intros HS. split; [|split].
  - intros fuel w' H. apply loop_inv in H. rewrite HS in H.
    set (f := filler c) in *. clearbody f.
    destruct w as [r a d g p st b cs out]. fields.
    destruct st.
    4: destruct H as [[Hk ->]|[Hk (n & ds & b' & _ & ->)]].
    all: try (destruct H as (n & ds & b' & _ & ->)).
    all: try subst w'.
    all: try revert Hk.
    all: open_blocks; cbn [enum_state_eqb]; split_ifs; try (intros Hk; congruence); intros.
    all: chars; digit_facts; cbn [Z.eqb Pos.eqb andb orb negb] in *; try congruence.
    all: rewrite ?count_app, ?count_pull_calls by reflexivity.
    all: repeat split; try reflexivity; try congruence; try (cbn; lia).
  - apply loop_drains.
  - intros Hs k. apply loop_returns_plain.
    destruct Hs as [Hs|[Hs|[Hs|[Hs Hg]]]]; auto.
    right. right. right. split; [exact Hs|left; exact Hg].
Qed.

End Commands.

(** X12 at a concrete input: [s] with a write open and a digit pending. *)
Lemma S_resyncs_witness :
  exists w',
    loop 2 (Some (chr "s")) (World 1 104 5 1 32 ST_CMDW quiet [BeginTransmission 104] [])
      = Some w'
    /\ state w' = ST_ADDR /\ addr w' = 0.
Proof.
  destruct (S_resyncs (chr "s")
              (World 1 104 5 1 32 ST_CMDW quiet [BeginTransmission 104] []) eq_refl)
    as (H1 & _ & H3).
  destruct (H3 (or_intror (or_intror (or_introl eq_refl))) 0%nat) as [w' E].
  exists w'. split; [exact E|]. destruct (H1 _ _ E) as (Hs & Ha & _).
  split; assumption.
Defined.

Lemma ends_with_app {A : Type} (xs ys t : list A) :
  (exists pre, ys = pre ++ t) -> exists pre, xs ++ ys = pre ++ t.
Proof. intros [pre ->]. exists (xs ++ pre). apply app_assoc. Qed.

Lemma ends_with_after {A : Type} (out ys t : list A) :
  (exists pre, ys = pre ++ t) -> exists pre, out ++ ys = out ++ pre ++ t.
Proof. intros [pre ->]. exists pre. reflexivity. Qed.

Section Help.

Context {B : Type} {TW : TinyWireM B}.

(** X13. [?] prints the help from anywhere: the [loop()] that returns
    from it has written the help text last, leaves no keep-alive byte
    armed, rests in [ST_CMD] with the address as it was and the
    accumulator cleared.  From [ST_CMD] and [ST_ADDR] the help is all it
    writes and the bus is not touched. *)
Theorem question_mark_prints_help (c : Z) (w : world B) :
  to_upper (u8 c) = chr "?" ->
  (forall fuel w', loop fuel (Some c) w = Some w' ->
     (exists pre, serial w' = serial w ++ pre ++ help_text)
     /\ to_print w' = 0 /\ state w' = ST_CMD /\ addr w' = addr w
     /\ data w' = 0 /\ digits w' = 0
     /\ (state w = ST_CMD \/ state w = ST_ADDR ->
         serial w' = serial w ++ help_text /\ calls w' = calls w /\ wire w' = wire w))
  /\ (drains -> exists n w', forall fuel, (n <= fuel)%nat -> loop fuel (Some c) w = Some w')
  /\ (state w = ST_CMD \/ state w = ST_ADDR \/ state w = ST_CMDW
      \/ (state w = ST_CMDR /\ u8 (digits w) = 0) ->
      forall k, exists w', loop (S (S k)) (Some c) w = Some w').
Proof.
  intros HQ. split; [|split].
  - intros fuel w' H. apply loop_inv in H. rewrite HQ in H.
    set (f := filler c) in *. clearbody f.
    destruct w as [r a d g p st b cs out]. fields.
    destruct st.
    4: destruct H as [[Hk ->]|[Hk (n & ds & b' & _ & ->)]].
    all: try (destruct H as (n & ds & b' & _ & ->)).
    all: try subst w'.
    all: try revert Hk.
    all: open_blocks; split_ifs; try (intros Hk; congruence); intros.
    all: chars; digit_facts; cbn [Z.eqb Pos.eqb andb orb negb] in *; try congruence.
    all: rewrite <- ?app_assoc.
    all: split; [apply ends_with_after;
                 repeat first [exists []; reflexivity | apply ends_with_app]|].
    all: repeat split; try reflexivity; try congruence.
    all: match goal with H : _ \/ _ |- _ => destruct H; congruence end.
  - apply loop_drains.
  - intros Hs k. apply loop_returns_plain.
    destruct Hs as [Hs|[Hs|[Hs|[Hs Hg]]]]; auto.
    right. right. right. split; [exact Hs|left; exact Hg].
Qed.

(** X14. Inside a write, [W] (or [w]) is a space: in [ST_CMDW] the
    [loop()] on it is the [loop()] on a space.  It ends no transmission
    and begins none, stays in [ST_CMDW], and sends the pending digit if
    there is one. *)
Theorem W_is_a_delimiter_in_a_write (fuel : nat) (w : world B) :
  state w = ST_CMDW ->
  loop fuel (Some (chr "W")) w = loop fuel (Some (chr " ")) w
  /\ loop fuel (Some (chr "w")) w = loop fuel (Some (chr " ")) w
  /\ exists w',
       loop (S (S fuel)) (Some (chr "W")) w = Some w'
       /\ state w' = ST_CMDW /\ count is_end (calls w') = count is_end (calls w)
       /\ calls w' = calls w ++ (if u8 (digits w) =? 0 then [] else [Send (data w)]).
Proof.
  intros Hs. destruct w as [r a d g p st b cs out]. cbn [state] in Hs. subst st.
  assert (HW : forall l, l = 87 \/ l = 32 ->
            switch fuel ST_CMDW l (World r a d g 32 ST_CMDW b cs out)
            = switch fuel ST_CMDW 32 (World r a d g 32 ST_CMDW b cs out)).
  { intros l Hl. destruct fuel as [|fuel]; [reflexivity|]. cbn [switch block].
    unfold case_ST_CMDW, accumulate_CMDW. fields.
    replace (read_hex_at d l) with (0, d) by (destruct Hl as [-> | ->]; reflexivity).
    change (read_hex_at d 32) with (0, d). fields.
    destruct (negb (u8 (g + 0) =? 0) && (0 =? 0) || (u8 (g + 0) =? 2)); fields;
      destruct Hl as [-> | ->]; reflexivity. }
  split; [|split].
  - unfold loop. rewrite !loop_path_switch. f_equal. apply HW. left. reflexivity.
  - unfold loop. rewrite !loop_path_switch. f_equal. apply HW. left. reflexivity.
  - clear HW. unfold loop. rewrite loop_path_switch. cbn [state switch block].
    change (to_upper (u8 (chr "W"))) with 87.
    unfold case_ST_CMDW, accumulate_CMDW. fields.
    change (read_hex_at d 87) with (0, d). fields. rewrite Z.add_0_r.
    cbn [Z.eqb Pos.eqb andb negb]. rewrite andb_true_r.
    destruct (u8 g =? 0) eqn:Eg.
    + replace (u8 g =? 2) with false
        by (apply Z.eqb_eq in Eg; rewrite Eg; reflexivity).
      cbn [negb andb orb fst option_map]. eexists. split; [reflexivity|]. fields.
      rewrite app_nil_r. repeat split; reflexivity.
    + cbn [negb andb orb fst option_map]. eexists. split; [reflexivity|].
      unfold do_send. fields. rewrite count_app. cbn. repeat split; try reflexivity. lia.
Qed.

End Help.

(** X13 at a concrete input: [?] in [ST_ADDR]. *)
Lemma question_mark_prints_help_witness :
  exists w',
    loop 2 (Some (chr "?")) (World 0 104 0 0 0 ST_ADDR quiet [] []) = Some w'
    /\ serial w' = help_text /\ to_print w' = 0 /\ state w' = ST_CMD /\ addr w' = 104.
Proof.
  destruct (question_mark_prints_help (chr "?")
              (World 0 104 0 0 0 ST_ADDR quiet [] []) eq_refl)
    as (H1 & _ & H3).
  destruct (H3 (or_intror (or_introl eq_refl)) 0%nat) as [w' E].
  exists w'. split; [exact E|].
  destruct (H1 _ _ E) as (_ & Hp & Hs & Ha & _ & _ & Hq).
  destruct (Hq (or_intror eq_refl)) as (Hser & _).
  repeat split; assumption.
Defined.

(** X14 at a concrete input: [W] with a digit pending. *)
Lemma W_is_a_delimiter_in_a_write_witness :
  loop 2 (Some (chr "W")) (World 1 0 5 1 32 ST_CMDW quiet [BeginTransmission 0] [])
  = loop 2 (Some (chr " ")) (World 1 0 5 1 32 ST_CMDW quiet [BeginTransmission 0] []).
Proof.
  exact (proj1 (W_is_a_delimiter_in_a_write 2
                  (World 1 0 5 1 32 ST_CMDW quiet [BeginTransmission 0] []) eq_refl)).
Defined.

(** ** The accumulator between commands *)

Section Accumulator.

Context {B : Type} {TW : TinyWireM B}.

Lemma loop_pending (fuel : nat) (i : option Z) (w w' : world B) :
  loop fuel i w = Some w' -> pending w -> pending w'.
Proof.
  intros H [HI HW]. destruct i as [c|].
  2:{ injection H as <-. destruct w as [r a d g p st b cs out].
      unfold idle, pending in *. fields. destruct (p =? 0); fields; tauto. }
  apply loop_inv in H.
  assert (Hv : forall x z z0, read_hex_at x (to_upper (u8 c)) = (z, z0) -> z = 1 ->
               exists v, 0 <= v < 16 /\ z0 = u8 (16 * x + v)).
  { intros x z z0 E ->. destruct (read_hex_at_to_upper x c) as (v & Hr & Ev).
    - rewrite E. reflexivity.
    - rewrite E in Ev. exists v. split; [exact Hr|exact Ev]. }
  set (l := to_upper (u8 c)) in *. clearbody l.
  set (f := filler c) in *. clearbody f.
  destruct w as [r a d g p st b cs out]. unfold pending. fields.
  destruct st.
  4: destruct H as [[Hk ->]|[Hk (n & ds & b' & _ & ->)]].
  all: try (destruct H as (n & ds & b' & _ & ->)).
  all: try subst w'.
  all: try revert Hk.
  all: open_blocks; split_ifs; try (intros Hk; congruence); intros.
  all: split; [intros [?|?]; try congruence|intros ?; try congruence].
  all: try (split; reflexivity).
  all: try (left; split; reflexivity).
  all: try (apply HI; auto; fail).
  all: destruct HW as [[-> ->]|[-> Hd]]; [reflexivity| |].
  all: match goal with
       | E : read_hex_at _ _ = (?z, ?z0) |- _ =>
           pose proof (Hv _ _ _ E) as Hv'; apply read_hex_at_facts in E;
           destruct E as (_ & Hm & Hf & _)
       end.
  all: destruct Hf as [-> | ->];
       [specialize (Hm eq_refl); subst
       |destruct (Hv' eq_refl) as (v & Hr & ->)].
  all: cbn [Z.add Z.eqb Pos.eqb Pos.add Pos.succ negb andb orb] in *; try discriminate.
  all: change (u8 0) with 0 in *; change (u8 1) with 1 in *; change (u8 2) with 2 in *;
       cbn [Z.eqb Pos.eqb negb andb orb] in *; try discriminate.
  all: first [ left; split; [reflexivity|reflexivity]
             | right; split; [reflexivity|rewrite u8_small by lia; lia] ].
Qed.

Lemma run_pending (fuel : nat) (inputs : list (option Z)) (w w' : world B) :
  run fuel inputs w = Some w' -> pending w -> pending w'.
Proof.
  revert w. induction inputs as [|i rest IH]; intros w H Hw.
  - injection H as <-. exact Hw.
  - cbn [run] in H. destruct (loop fuel i w) as [w1|] eqn:E; [|discriminate].
    apply (IH _ H). eapply loop_pending; eassumption.
Qed.

(** X15. From power-on, whatever the input and the bus: between
    commands ([ST_CMD], [ST_ADDR]) the accumulator is empty, and inside a
    write it holds nothing or one digit, worth less than 16.  So nothing
    of a byte that was sent or dropped is left for the next one. *)
Theorem accumulator_clear_between_commands
  (fuel : nat) (inputs : list (option Z)) (b : B) (w' : world B) :
  run fuel inputs (power_on b) = Some w' ->
  (state w' = ST_CMD \/ state w' = ST_ADDR -> data w' = 0 /\ digits w' = 0)
  /\ (state w' = ST_CMDW ->
      (digits w' = 0 /\ data w' = 0) \/ (digits w' = 1 /\ 0 <= data w' < 16)).
Proof.
  intros H. apply (run_pending _ _ _ _ H). split.
  - intros _. split; reflexivity.
  - discriminate.
Qed.

(** X16. A [P] typed right after an address discards it: [S], any hex
    digits, [P], [W] begins a transmission to address 0. *)
Theorem P_after_address_discards_it (k : nat) (ds : list Z) (b : B) :
  Forall (fun c => is_upper_hex c = true) ds ->
  exists w,
    run (S (S k)) (typed "S" ++ map Some ds ++ typed "PW") (power_on b) = Some w
    /\ calls w = [BeginTransmission 0] /\ addr w = 0 /\ state w = ST_CMDW.
Proof.
  intros Hds. unfold power_on, typed. cbn [str map app run].
  rewrite loop_CMD_S. cbv beta iota. rewrite run_app.
  destruct (run_ADDR_digits k ds 0 0 0 0 32 b [] [] Hds) as [p' E].
  rewrite E. cbv beta iota. eexists. split; [reflexivity|].
  repeat split; reflexivity.
Qed.

End Accumulator.

(** X15 at a concrete input: after [W1]. *)
Lemma accumulator_clear_between_commands_witness :
  ((ST_CMDW = ST_CMD \/ ST_CMDW = ST_ADDR -> 1 = 0 /\ 1 = 0)
   /\ (ST_CMDW = ST_CMDW -> (1 = 0 /\ 1 = 0) \/ (1 = 1 /\ 0 <= 1 < 16))).
Proof.
  exact (accumulator_clear_between_commands 2 (typed "W1") quiet
           (World 1 0 1 1 32 ST_CMDW quiet [BeginTransmission 0] []) eq_refl).
Defined.

(** X16 at a concrete input: [S68PW]. *)
Lemma P_after_address_discards_it_witness :
  exists w,
    run 2 (typed "S" ++ map Some (str "68") ++ typed "PW") (power_on quiet) = Some w
    /\ calls w = [BeginTransmission 0] /\ addr w = 0 /\ state w = ST_CMDW.
Proof.
  apply (P_after_address_discards_it 0 (str "68") quiet).
  repeat constructor.
Defined.

(** ** What reaches the terminal *)

Lemma hex2_text (x : Z) : 0 <= x < 256 -> forallb is_text (hex2 x) = true.
Proof.
  intros Hx. destruct (hex2_digits x Hx) as (h & l & -> & Hh & Hl & _).
  apply upper_hex_range in Hh, Hl. cbn [forallb]. unfold is_text. chars.
  leb_cases; cbn [orb andb]; try reflexivity; lia.
Qed.

Lemma hex_row_text (ds : list Z) :
  Forall (fun d => 0 <= d < 256) ds -> forallb is_text (hex_row ds) = true.
Proof.
  induction 1 as [|d ds Hd Hds IH]; [reflexivity|].
  cbn [hex_row]. rewrite forallb_app, (hex2_text d Hd). cbn [forallb andb].
  rewrite IH. reflexivity.
Qed.

Lemma help_text_text : forallb is_text help_text = true.
Proof. vm_compute. reflexivity. Qed.

Section Text.

Context {B : Type} {TW : TinyWireM B}.

Lemma pull_bytes (n : nat) (b b' : B) (ds : list Z) :
  pull n b = Some (ds, b') -> Forall (fun d => 0 <= d < 256) ds.
Proof.
  revert b ds. induction n as [|n IH]; intros b ds H; [discriminate|].
  cbn [pull] in H. destruct (available b) as [k b1].
  destruct (uint8_t k =? 0); [injection H as <- _; constructor|].
  destruct (receive b1) as [d b2].
  destruct (pull n b2) as [[ds' b3]|] eqn:E; [|discriminate].
  injection H as <- <-. constructor; [apply uint8_t_range|]. eapply IH. exact E.
Qed.

Lemma loop_text (fuel : nat) (i : option Z) (w w' : world B) :
  loop fuel i w = Some w' ->
  forallb is_text (serial w) = true -> (to_print w = 0 \/ is_text (to_print w) = true) ->
  forallb is_text (serial w') = true /\ (to_print w' = 0 \/ is_text (to_print w') = true).
Proof.
  intros H Hout Hp. destruct i as [c|].
  2:{ injection H as <-. destruct w as [r a d g p st b cs out].
      unfold idle. fields. destruct (p =? 0) eqn:E; fields.
      - split; [exact Hout|left; apply Z.eqb_eq; exact E].
      - destruct Hp as [-> |Hp]; [discriminate|].
        rewrite forallb_app, Hout. cbn [forallb]. rewrite Hp.
        split; [reflexivity|left; reflexivity]. }
  apply loop_inv in H.
  assert (Hf : is_text (filler c) = true).
  { unfold filler. destruct ((u8 c =? CR) || (u8 c =? LF)); reflexivity. }
  set (l := to_upper (u8 c)) in *. clearbody l.
  set (f := filler c) in *. clearbody f.
  destruct w as [r a d g p st b cs out]. fields.
  destruct st.
  4: destruct H as [[Hk ->]|[Hk (n & ds & b' & Hpull & ->)]].
  all: try (destruct H as (n & ds & b' & Hpull & ->)).
  all: try subst w'.
  all: try (apply pull_bytes in Hpull; apply hex_row_text in Hpull).
  all: try revert Hk.
  all: open_blocks; split_ifs; try (intros Hk; congruence); intros.
  all: rewrite ?forallb_app, ?Hout, ?Hpull, ?help_text_text,
         ?(hex2_text (uint8_t _)) by apply uint8_t_range.
  all: split; [reflexivity|first [left; reflexivity|right; exact Hf]].
Qed.

(** X17. From power-on, whatever the input (idle calls included) and
    the bus: every byte written to the serial port is printable ASCII,
    CR or LF. *)
Theorem serial_output_is_text (fuel : nat) (inputs : list (option Z)) (b : B) (w' : world B) :
  run fuel inputs (power_on b) = Some w' ->
  forallb is_text (serial w') = true.
Proof.
  intros H.
  assert (G : forall w : world B,
            run fuel inputs w = Some w' ->
            forallb is_text (serial w) = true ->
            (to_print w = 0 \/ is_text (to_print w) = true) ->
            forallb is_text (serial w') = true).
  { clear H. induction inputs as [|i rest IH]; intros w H Hout Hp.
    - injection H as <-. exact Hout.
    - cbn [run] in H. destruct (loop fuel i w) as [w1|] eqn:E; [|discriminate].
      destruct (loop_text _ _ _ _ E Hout Hp) as [Hout1 Hp1].
      exact (IH _ H Hout1 Hp1). }
  apply (G _ H); [reflexivity|left; reflexivity].
Qed.

End Text.

(** X17 at a concrete input: a read, an idle call, the help, an idle call. *)
Lemma serial_output_is_text_witness :
  exists w',
    run 10 (typed "S68W0R7" ++ [Some LF; None] ++ typed "?" ++ [None]) (power_on all_zero)
      = Some w'
    /\ forallb is_text (serial w') = true.
Proof.
  destruct (run 10 (typed "S68W0R7" ++ [Some LF; None] ++ typed "?" ++ [None])
              (power_on all_zero)) as [w'|] eqn:E.
  - exists w'. split; [reflexivity|].
    exact (serial_output_is_text 10 _ all_zero w' E).
  - vm_compute in E. discriminate E.
Defined.

(** ** Single digits in a write *)

Lemma tohex_upper_hex (v : Z) :
  0 <= v < 16 -> is_upper_hex (tohex v) = true /\ hex_value (tohex v) = v.
Proof.
  intros H.
  assert (E : v = 0 \/ v = 1 \/ v = 2 \/ v = 3 \/ v = 4 \/ v = 5 \/ v = 6 \/ v = 7
              \/ v = 8 \/ v = 9 \/ v = 10 \/ v = 11 \/ v = 12 \/ v = 13 \/ v = 14
              \/ v = 15) by lia.
  repeat (destruct E as [-> |E]; [split; reflexivity|]). subst v. split; reflexivity.
Qed.

Section Singles.

Context {B : Type} {TW : TinyWireM B}.

Lemma loop_CMDW_space (k : nat) (r a d p : Z) (b : B) (cs : list bus_call) (out : list Z) :
  loop (S (S k)) (Some (chr " ")) (World r a d 1 p ST_CMDW b cs out)
  = Some (World 0 a 0 0 32 ST_CMDW (send d b) (cs ++ [Send d]) out).
Proof. reflexivity. Qed.

(** X18. In a write, a single hex digit followed by a space is a byte:
    the values below 16, typed as one digit and a space each, are sent
    as they are, in order, in the open transmission. *)
Theorem single_digits_are_sent_at_the_space (k : nat) (vs : list Z) (w : world B) :
  state w = ST_CMDW -> digits w = 0 -> data w = 0 ->
  Forall (fun v => 0 <= v < 16) vs ->
  exists w',
    run (S (S k)) (digits_typed vs) w = Some w'
    /\ calls w' = calls w ++ map Send vs /\ wire w' = bus_sent vs (wire w)
    /\ state w' = ST_CMDW /\ digits w' = 0 /\ data w' = 0
    /\ serial w' = serial w /\ addr w' = addr w.
Proof.
  intros Hs Hg Hd Hvs. destruct w as [r a d g p st b cs out].
  cbn [state digits data calls wire serial addr] in *. subst st g d.
  revert r p b cs. induction Hvs as [|v vs Hv Hvs IH]; intros r p b cs.
  - eexists. split; [reflexivity|]. cbn. rewrite app_nil_r. repeat split; reflexivity.
  - destruct (tohex_upper_hex v Hv) as [Hu Hx].
    cbn [digits_typed flat_map app run]. fold (digits_typed vs).
    rewrite (loop_CMDW_digit k (tohex v) r a 0 0 p b cs out Hu) by (left; reflexivity).
    cbn [Z.eqb]. rewrite Hx. change (16 * 0 + v) with v.
    rewrite (u8_small v) by lia. rewrite loop_CMDW_space.
    destruct (IH 0 32 (send v b) (cs ++ [Send v])) as (w' & E & Hc & Hb & Hrest).
    exists w'. split; [exact E|]. split; [|split; [exact Hb|exact Hrest]].
    rewrite Hc. cbn [map]. rewrite <- app_assoc. reflexivity.
Qed.

End Singles.

(** X18 at a concrete input: [3 F ] in a write to 0x60. *)
Lemma single_digits_are_sent_at_the_space_witness :
  exists w',
    run 2 (digits_typed [3; 15]) (World 0 96 0 0 32 ST_CMDW quiet [BeginTransmission 96] [])
      = Some w'
    /\ calls w' = [BeginTransmission 96; Send 3; Send 15].
Proof.
  destruct (single_digits_are_sent_at_the_space 0 [3; 15]
              (World 0 96 0 0 32 ST_CMDW quiet [BeginTransmission 96] []))
    as (w' & E & Hc & _).
  1-3: reflexivity.
  - repeat (constructor; [lia|]). constructor.
  - exists w'. split; assumption.
Defined.

(** ** The earlier sketch *)

Lemma hextab_at_tohex (i : Z) : 0 <= i < 16 -> Earlier.hextab_at i = tohex i.
Proof.
  intros H.
  assert (E : i = 0 \/ i = 1 \/ i = 2 \/ i = 3 \/ i = 4 \/ i = 5 \/ i = 6 \/ i = 7
              \/ i = 8 \/ i = 9 \/ i = 10 \/ i = 11 \/ i = 12 \/ i = 13 \/ i = 14
              \/ i = 15) by lia.
  repeat (destruct E as [-> |E]; [reflexivity|]). subst i. reflexivity.
Qed.

Lemma nibbles (x : Z) : 0 <= x < 256 -> 0 <= Z.shiftr x 4 < 16 /\ 0 <= Z.land x 15 < 16.
Proof.
  intros H. rewrite Z.shiftr_div_pow2 by lia. change (2 ^ 4) with 16.
  change 15 with (Z.ones 4). rewrite Z.land_ones by lia. change (2 ^ 4) with 16.
  split; [|apply Z.mod_pos_bound; lia].
  split; [apply Z.div_pos; lia|apply Z.div_lt_upper_bound; lia].
Qed.

Lemma hextab_row_hex_row (ds : list Z) :
  Forall (fun d => 0 <= d < 256) ds -> hextab_row ds = hex_row ds.
Proof.
  induction 1 as [|d ds Hd Hds IH]; [reflexivity|].
  destruct (nibbles d Hd) as [Hh Hl].
  cbn [hextab_row hex_row hex2 app]. rewrite IH, !hextab_at_tohex by assumption.
  reflexivity.
Qed.

Section Revisions.

Context {B : Type} {TW : TinyWireM B}.

(** X19. [print_hex] writes the same in both revisions: through
    [hextab] in the earlier one and through [tohex] in the later one,
    the prefix, the two hex digits of the byte and the suffix. *)
Theorem hextab_prints_as_tohex (pfx sfx : option (list Z)) (x : Z)
  (w1 : Earlier.world B) (w2 : world B) :
  0 <= x < 256 ->
  Earlier.print_hex pfx x sfx w1 = Earlier.write (affix pfx ++ hex2 x ++ affix sfx) w1
  /\ print_hex pfx x sfx w2 = write (affix pfx ++ hex2 x ++ affix sfx) w2.
Proof.
  intros Hx. destruct (nibbles x Hx) as [Hh Hl]. split; [|apply print_hex_write].
  destruct w1 as [r a d g s b cs out]. unfold Earlier.print_hex, hex2.
  rewrite !hextab_at_tohex by assumption.
  destruct pfx as [[|c0 s0]|], sfx as [[|c1 s1]|]; cbn;
    rewrite <- ?app_assoc, ?app_nil_r; reflexivity.
Qed.

Lemma old_recv_while_pull (fuel : nat) (w : Earlier.world B) :
  Earlier.recv_while fuel w =
  match pull fuel (Earlier.wire w) with
  | None => None
  | Some (ds, b') =>
      Some (Earlier.World (Earlier.ret w) (Earlier.addr w) (last ds (Earlier.data w))
              (Earlier.digits w) (Earlier.state w) b'
              (Earlier.calls w ++ pull_calls (List.length ds))
              (Earlier.serial w ++ hextab_row ds))
  end.
Proof.
  revert w. induction fuel as [|fuel IH]; intros w; [reflexivity|].
  destruct w as [r a d g s b cs out].
  cbn [Earlier.recv_while pull Earlier.wire]. unfold Earlier.do_available. cbn [Earlier.wire].
  destruct (available b) as [n b1].
  destruct (uint8_t n =? 0).
  - cbn. rewrite !app_nil_r. reflexivity.
  - unfold Earlier.do_receive. cbn [Earlier.wire Earlier.on_bus].
    destruct (receive b1) as [x b2].
    cbn [Earlier.set_data Earlier.data Earlier.print_hex Earlier.write str].
    rewrite IH. cbn [Earlier.wire].
    destruct (pull fuel b2) as [[ds b3]|]; [|reflexivity].
    cbn [Earlier.ret Earlier.addr Earlier.data Earlier.digits Earlier.state Earlier.calls
         Earlier.serial].
    rewrite last_cons_default. cbn [List.length pull_calls hextab_row].
    repeat rewrite <- app_assoc. reflexivity.
Qed.

End Revisions.

(** X19 at a concrete input: the byte 0xAB in an error line. *)
Lemma hextab_prints_as_tohex_witness :
  Earlier.print_hex (Some (str "W!")) 171 (Some [LF]) (Earlier.power_on quiet)
    = Earlier.write (affix (Some (str "W!")) ++ hex2 171 ++ affix (Some [LF]))
        (Earlier.power_on quiet)
  /\ print_hex (Some (str "W!")) 171 (Some [LF]) (power_on quiet)
     = write (affix (Some (str "W!")) ++ hex2 171 ++ affix (Some [LF])) (power_on quiet).
Proof.
  apply (hextab_prints_as_tohex (Some (str "W!")) (Some [LF]) 171
           (Earlier.power_on quiet) (power_on quiet)).
  lia.
Defined.

Section Simulation.

Context {B : Type} {TW : TinyWireM B}.

Lemma switch_S (f : nat) (s : enum_state) (l : Z) (w : world B) :
  switch (S f) s l w =
  match block f s l w with
  | None => None
  | Some (w', Break) => Some (w', [])
  | Some (w', Goto t) =>
      match switch f (case_of t) l w' with
      | None => None
      | Some (w'', path) => Some (w'', t :: path)
      end
  end.
Proof. reflexivity. Qed.

Lemma old_switch_S (f : nat) (s : Earlier.enum_state) (l : Z) (w : Earlier.world B) :
  Earlier.switch (S f) s l w =
  match Earlier.block f s l w with
  | None => None
  | Some (w', Break) => Some w'
  | Some (w', Goto t) => Earlier.switch f (Earlier.case_of t) l w'
  end.
Proof. reflexivity. Qed.

(** From [parse_cmd] on, with the same byte, which is not [?]. *)
Lemma parse_cmd_agree (l r a d g p : Z) (b : B) (cs : list bus_call)
  (out1 out2 : list Z) (s1 : Earlier.enum_state) (s2 : enum_state) :
  l <> chr "?" -> later_state s1 = Some s2 ->
  same_point (Earlier.parse_cmd l (Earlier.World r a d g s1 b cs out1))
             (parse_cmd l (World r a d g p s2 b cs out2)).
Proof.
  intros Hl Hs. unfold same_point. old_blocks. open_blocks. split_both.
  all: tests; try contradiction.
  all: repeat split; try reflexivity; exact Hs.
Qed.

(** Entered at [recv_now], at the same point. *)
Lemma switch_RECV_agree (f : nat) (l r a d g p : Z) (b : B) (cs : list bus_call)
  (out1 out2 : list Z) (s1 : Earlier.enum_state) (s2 : enum_state) :
  l <> chr "?" ->
  agree (Earlier.switch f Earlier.ST_RECV l (Earlier.World r a d g s1 b cs out1))
        (option_map fst (switch f ST_RECV l (World r a d g p s2 b cs out2))).
Proof.
  intros Hl. destruct f as [|f]; [exact I|].
  rewrite switch_S, old_switch_S. cbn [block Earlier.block].
  unfold case_ST_RECV, Earlier.case_ST_RECV.
  rewrite recv_while_pull, old_recv_while_pull. cbn [wire Earlier.wire].
  destruct (pull f b) as [[ds b']|] eqn:E; [|exact I].
  destruct (pull_needs_fuel _ _ _ E) as [f' ->].
  cbn [case_of Earlier.case_of]. rewrite switch_S, old_switch_S.
  cbn [block Earlier.block case_ST_CMD Earlier.case_ST_CMD option_map fst].
  unfold finish_RECV, received. old_fields. fields.
  apply parse_cmd_agree; [exact Hl|reflexivity].
Qed.

Lemma fst_path (t : label) (x : option (world B * list label)) :
  option_map fst
    match x with
    | None => None
    | Some (w'', path) => Some (w'', t :: path)
    end
  = option_map fst x.
Proof. destruct x as [[w q]|]; reflexivity. Qed.

(** One byte, not [?], taken by both sketches from the same point. *)
Lemma switch_agree (f : nat) (l : Z) (w1 : Earlier.world B) (w2 : world B) :
  l <> chr "?" -> same_point w1 w2 ->
  agree (Earlier.switch (S (S f)) (Earlier.state w1) l w1)
        (option_map fst (switch (S (S f)) (state w2) l w2)).
Proof.
  intros Hl (Hs & Hr & Ha & Hd & Hg & Hb & Hc).
  destruct w1 as [r a d g s1 b cs out1], w2 as [r2 a2 d2 g2 p2 s2 b2 cs2 out2].
  cbn [Earlier.state Earlier.ret Earlier.addr Earlier.data Earlier.digits Earlier.wire
       Earlier.calls state ret addr data digits wire calls] in *.
  subst r2 a2 d2 g2 b2 cs2.
  destruct s1; cbn [later_state] in Hs; try discriminate; injection Hs as <-.
  5: apply switch_RECV_agree; exact Hl.
  all: rewrite switch_S, old_switch_S; cbn [block Earlier.block].
  all: old_blocks; open_blocks; split_both.
  all: cbn [case_of Earlier.case_of]; rewrite ?fst_path.
  all: try (apply switch_RECV_agree; exact Hl).
  all: rewrite ?switch_S, ?old_switch_S;
       cbn [block Earlier.block option_map fst case_ST_CMD Earlier.case_ST_CMD].
  all: old_blocks; open_blocks; split_both.
  all: try (exfalso; cbn [andb orb negb] in *; branches; chars; first [congruence|lia]).
  all: unfold agree, same_point; old_fields; fields; repeat split; reflexivity.
Qed.

End Simulation.

Section Agreement.

Context {B : Type} {TW : TinyWireM B}.

Lemma iteration_agree (f : nat) (avl c : Z) (w1 : Earlier.world B) (w2 : world B) :
  to_upper (u8 c) <> chr "?" -> same_point w1 w2 ->
  agree (Earlier.iteration (S (S f)) avl c w1) (loop (S (S f)) (Some c) w2).
Proof.
  intros Hl Hw. unfold loop, Earlier.iteration. rewrite loop_path_switch.
  assert (Hw' : same_point (if avl <? 2 then Earlier.write [chr " "] w1 else w1)
                           (set_to_print (filler c) w2)).
  { destruct w1, w2. destruct (avl <? 2); exact Hw. }
  replace (state w2) with (state (set_to_print (filler c) w2)) by (destruct w2; reflexivity).
  apply switch_agree; assumption.
Qed.

Lemma loop_agree (f : nat) (port : list (Z * Z)) (w1 : Earlier.world B) (w2 : world B) :
  Forall (fun ac => 0 < fst ac /\ to_upper (u8 (snd ac)) <> chr "?") port ->
  same_point w1 w2 ->
  agree (Earlier.loop (S (S f)) port w1)
        (run (S (S f)) (map (fun ac => Some (snd ac)) port) w2).
Proof.
  intros H. revert w1 w2. induction H as [|[avl c] port [Ha Hc] Hp IH]; intros w1 w2 Hw.
  - exact Hw.
  - cbn [fst snd] in *. cbn [Earlier.loop map run snd].
    replace (0 <? avl) with true by (symmetry; apply Z.ltb_lt; exact Ha).
    pose proof (iteration_agree f avl c w1 w2 Hc Hw) as Hi.
    destruct (Earlier.iteration (S (S f)) avl c w1) as [w1'|],
             (loop (S (S f)) (Some c) w2) as [w2'|]; cbn [agree] in Hi; try contradiction.
    + apply IH. exact Hi.
    + exact I.
Qed.

(** X20. The two revisions agree on the bus.  Fed the same bytes,
    starting with an [S] and with no [?] among them, both come back or
    neither does (with fuel of at least 2), and then with the same
    globals, the same bus, the same calls made, and in states that stand
    for each other. *)
Theorem sketches_agree_on_the_bus (f : nat) (avl : Z) (port : list (Z * Z)) (b : B) :
  0 < avl ->
  Forall (fun ac => 0 < fst ac /\ to_upper (u8 (snd ac)) <> chr "?") port ->
  agree (Earlier.loop (S (S f)) ((avl, chr "S") :: port) (Earlier.power_on b))
        (run (S (S f)) (Some (chr "S") :: map (fun ac => Some (snd ac)) port) (power_on b)).
Proof.
  intros Ha Hp. cbn [Earlier.loop run].
  replace (0 <? avl) with true by (symmetry; apply Z.ltb_lt; exact Ha).
  change (loop (S (S f)) (Some (chr "S")) (power_on b))
    with (Some (World 0 0 0 0 32 ST_ADDR b [] [])).
  replace (Earlier.iteration (S (S f)) avl (chr "S") (Earlier.power_on b))
    with (Some (Earlier.World 0 0 0 0 Earlier.ST_ADDR b []
                  (if avl <? 2 then [chr " "] else [])))
    by (unfold Earlier.iteration, Earlier.power_on; destruct (avl <? 2); reflexivity).
  apply loop_agree; [exact Hp|]. repeat split; reflexivity.
Qed.

(** Where the switch of the earlier sketch can end. *)
Lemma old_switch_state (f : nat) (l : Z) (w w' : Earlier.world B) :
  Earlier.switch f (Earlier.state w) l w = Some w' ->
  Earlier.state w <> Earlier.ST_INIT ->
  Earlier.state w' <> Earlier.ST_INIT /\ Earlier.state w' <> Earlier.ST_RECV.
Proof.
  revert w. induction f as [|f IH]; intros w H Hs; [discriminate|].
  rewrite old_switch_S in H.
  destruct (Earlier.block f (Earlier.state w) l w) as [[w1 k]|] eqn:E; [|discriminate].
  assert (Hk : match k with
               | Break => Earlier.state w1 <> Earlier.ST_INIT
                          /\ Earlier.state w1 <> Earlier.ST_RECV
               | Goto t => Earlier.state w1 = Earlier.case_of t
               end).
  { destruct w as [r a d g s b cs out]. cbn [Earlier.state] in *.
    destruct s; cbn [Earlier.block] in E; try congruence.
    5:{ unfold Earlier.case_ST_RECV in E. rewrite old_recv_while_pull in E.
        destruct (pull f _) as [[ds b']|]; [|discriminate].
        injection E as <- <-. reflexivity. }
    all: injection E as E; revert E; old_blocks; split_both; intros E.
    all: first [injection E as <- <- | subst w1 k | subst k w1].
    all: old_fields; try reflexivity; split; discriminate. }
  destruct k as [|t].
  - injection H as <-. exact Hk.
  - rewrite <- Hk in H. apply (IH _ H). rewrite Hk. destruct t; discriminate.
Qed.

(** X21. The earlier revision starts in [ST_INIT] and does nothing
    before the first [S]: bytes other than [S] leave it there, with no
    call on the bus; all it writes is the space that goes out when fewer
    than two bytes are pending.  Once left, [ST_INIT] is not entered
    again, and no iteration ends in [ST_RECV]. *)
Theorem nothing_before_the_first_S (fuel : nat) (port : list (Z * Z)) (b : B) :
  Forall (fun ac => 0 < fst ac /\ to_upper (u8 (snd ac)) <> chr "S") port ->
  (exists w,
     Earlier.loop (S fuel) port (Earlier.power_on b) = Some w
     /\ Earlier.state w = Earlier.ST_INIT /\ Earlier.calls w = [] /\ Earlier.wire w = b
     /\ Earlier.serial w = map (fun _ => chr " ") (filter (fun ac => fst ac <? 2) port))
  /\ (forall f avl c w w',
        Earlier.iteration f avl c w = Some w' ->
        Earlier.state w <> Earlier.ST_INIT ->
        Earlier.state w' <> Earlier.ST_INIT /\ Earlier.state w' <> Earlier.ST_RECV).
Proof.
  intros Hp. split.
  - assert (G : forall out,
              exists w,
                Earlier.loop (S fuel) port (Earlier.World 0 0 0 0 Earlier.ST_INIT b [] out)
                  = Some w
                /\ Earlier.state w = Earlier.ST_INIT /\ Earlier.calls w = []
                /\ Earlier.wire w = b
                /\ Earlier.serial w
                   = out ++ map (fun _ => chr " ") (filter (fun ac => fst ac <? 2) port)).
    { induction Hp as [|[avl c] port [Ha Hc] Hp IH]; intros out.
      - eexists. split; [reflexivity|]. cbn. rewrite app_nil_r. repeat split; reflexivity.
      - cbn [fst snd] in *. cbn [Earlier.loop filter fst].
        replace (0 <? avl) with true by (symmetry; apply Z.ltb_lt; exact Ha).
        unfold Earlier.iteration. rewrite old_switch_S.
        destruct (avl <? 2); old_fields; cbn [Earlier.block Earlier.case_ST_INIT].
        all: replace (to_upper (u8 c) =? chr "S") with false
               by (symmetry; apply Z.eqb_neq; exact Hc).
        + destruct (IH (out ++ [chr " "])) as (w & E & H1 & H2 & H3 & H4).
          exists w. rewrite E, H4. cbn [map]. rewrite <- app_assoc.
          repeat split; assumption.
        + destruct (IH out) as (w & E & H1 & H2 & H3 & H4).
          exists w. rewrite E. repeat split; assumption. }
    apply (G []).
  - intros f avl c w w' H Hs. unfold Earlier.iteration in H.
    assert (E : Earlier.state (if avl <? 2 then Earlier.write [chr " "] w else w)
                = Earlier.state w) by (destruct w, (avl <? 2); reflexivity).
    apply (old_switch_state _ _ _ _ H). rewrite E. exact Hs.
Qed.

End Agreement.

(** X20 at a concrete input: [S68W0R2] and a space on the responder. *)
Lemma sketches_agree_on_the_bus_witness :
  agree (Earlier.loop 10 ((8, chr "S") :: Earlier.queued (str "68W0R2 ")) 
           (Earlier.power_on all_zero))
        (run 10 (Some (chr "S")
                 :: map (fun ac => Some (snd ac)) (Earlier.queued (str "68W0R2 ")))
           (power_on all_zero)).
Proof.
  apply (sketches_agree_on_the_bus 8 8 (Earlier.queued (str "68W0R2 ")) all_zero).
  - lia.
  - repeat (constructor; [split; [reflexivity|vm_compute; discriminate]|]). constructor.
Defined.

(** X21 at a concrete input: [W5P] pending at power-on. *)
Lemma nothing_before_the_first_S_witness :
  exists w,
    Earlier.loop 1 (Earlier.queued (str "W5P")) (Earlier.power_on quiet) = Some w
    /\ Earlier.state w = Earlier.ST_INIT /\ Earlier.calls w = []
    /\ Earlier.serial w = [chr " "].
Proof.
  destruct (nothing_before_the_first_S 0 (Earlier.queued (str "W5P")) quiet)
    as [(w & E & Hs & Hc & _ & Hser) _].
  - repeat (constructor; [split; [reflexivity|vm_compute; discriminate]|]). constructor.
  - exists w. repeat split; assumption.
Defined.

Section Rows.

Context {B : Type} {TW : TinyWireM B}.

(** X22. A read in the earlier revision prints its row without a line
    end.  The iteration that ends the count writes the keep-alive space
    if fewer than two bytes were pending, the error line if the request
    failed, and one hex pair and a space for each byte received; no CR
    LF follows (the later revision adds it). *)
Theorem earlier_row_has_no_line_end (n k : nat) (avl c : Z) (w : Earlier.world B)
  (s : Z) (b1 b2 : B) (ds : list Z) :
  Earlier.state w = Earlier.ST_CMDR ->
  fst (read_hex_at (Earlier.data w) (to_upper (u8 c))) = 0 ->
  u8 (Earlier.digits w) <> 0 ->
  requestFrom (Earlier.addr w) (Earlier.data w) (Earlier.wire w) = (s, b1) ->
  pull n b1 = Some (ds, b2) ->
  exists w',
    Earlier.iteration (n + 3 + k) avl c w = Some w'
    /\ Earlier.serial w' =
       Earlier.serial w ++ (if avl <? 2 then [chr " "] else [])
       ++ error_line "R!" s ++ hex_row ds
    /\ Earlier.calls w' =
       Earlier.calls w
       ++ RequestFrom (Earlier.addr w) (Earlier.data w) :: pull_calls (List.length ds)
       ++ (if to_upper (u8 c) =? chr "W" then [BeginTransmission (Earlier.addr w)] else []).
Proof.
  intros Hst Hf Hg Hr Hp.
  pose proof (read_hex_at_miss _ _ Hf) as Hm.
  pose proof (hextab_row_hex_row ds (pull_bytes _ _ _ _ Hp)) as Hrow.
  destruct (nibbles (uint8_t s) (uint8_t_range s)) as [Nh Nl].
  set (l := to_upper (u8 c)) in *.
  destruct w as [r a d g st b cs out].
  cbn [Earlier.state Earlier.data Earlier.digits Earlier.addr Earlier.wire Earlier.calls
       Earlier.serial] in *.
  subst st. unfold Earlier.iteration. fold l. clearbody l.
  replace (n + 3 + k)%nat with (S (S (S (n + k)))) by lia.
  remember (out ++ (if avl <? 2 then [chr " "] else [])) as out0 eqn:Eo.
  replace (if avl <? 2
           then Earlier.write [chr " "] (Earlier.World r a d g Earlier.ST_CMDR b cs out)
           else Earlier.World r a d g Earlier.ST_CMDR b cs out)
    with (Earlier.World r a d g Earlier.ST_CMDR b cs out0)
    by (rewrite Eo; destruct (avl <? 2); cbn; rewrite ?app_nil_r; reflexivity).
  cbn [Earlier.state].
  rewrite old_switch_S. cbn [Earlier.block]. unfold Earlier.case_ST_CMDR. old_fields.
  destruct (read_hex_at d l) as [z z0]. cbn [fst snd] in Hf, Hm. subst z z0. old_fields.
  replace (g + 0) with g by lia.
  replace (u8 g =? 0) with false by (symmetry; apply Z.eqb_neq; exact Hg).
  cbn [Z.eqb andb negb]. unfold Earlier.do_requestFrom. old_fields. rewrite Hr.
  unfold Earlier.report, Earlier.print_hex, error_line. old_fields.
  destruct (uint8_t s =? 0) eqn:Es; cbn [negb str]; old_fields.
  all: cbn [Earlier.case_of]; rewrite old_switch_S; cbn [Earlier.block].
  all: unfold Earlier.case_ST_RECV; rewrite old_recv_while_pull; cbn [Earlier.wire].
  all: rewrite (pull_more n (S (n + k)) _ _ Hp) by lia.
  all: old_fields; cbn [Earlier.case_of].
  all: destruct (pull_needs_fuel _ _ _ Hp) as [m ->].
  all: cbn [Nat.add]; rewrite old_switch_S; cbn [Earlier.block Earlier.case_ST_CMD].
  all: eexists; (split; [reflexivity|]).
  all: rewrite Hrow, ?hextab_at_tohex by assumption.
  all: unfold Earlier.parse_cmd, Earlier.do_beginTransmission; split_both.
  all: subst out0; unfold hex2; rewrite <- ?app_assoc; cbn [app]; rewrite ?app_nil_r.
  all: first [split; reflexivity | exfalso; tests; chars; congruence].
Qed.

End Rows.

(** X22 at a concrete input: the line feed after [R7], alone in the queue. *)
Lemma earlier_row_has_no_line_end_witness :
  exists w',
    Earlier.iteration 11 1 LF
      (Earlier.World 1 104 7 1 Earlier.ST_CMDR all_zero [] []) = Some w'
    /\ Earlier.serial w' = str " 00 00 00 00 00 00 00 ".
Proof.
  destruct (earlier_row_has_no_line_end 8 0 1 LF
              (Earlier.World 1 104 7 1 Earlier.ST_CMDR all_zero [] [])
              0 (Responder (repeat 0 64) 7 [] (repeat 0 7))
              (Responder (repeat 0 64) 7 [] []) (repeat 0 7))
    as (w' & E & Hs & _).
  1-2: reflexivity.
  1: vm_compute; discriminate.
  1-2: reflexivity.
  exists w'. split; [exact E|exact Hs].
Defined.

(** ** The upper-casing *)

(** X23. The upper-casing of [loop], written with one unsigned
    comparison, changes exactly the lowercase letters: a byte from [a]
    to [z] loses 32, every other byte (below [a], above [z], 128 and
    more) is left as it is.  The result is a byte, never a lowercase
    letter, and upper-casing it again changes nothing. *)
Theorem upper_casing_changes_only_letters (c : Z) :
  0 <= c < 256 ->
  to_upper c = (if (chr "a" <=? c) && (c <=? chr "z") then c - 32 else c)
  /\ 0 <= to_upper c < 256
  /\ (to_upper c < chr "a" \/ chr "z" < to_upper c)
  /\ to_upper (to_upper c) = to_upper c.
Proof.
  intros Hc. chars.
  destruct (to_upper_cases c Hc) as [[Hr E]|[Hr E]]; rewrite E.
  - assert (Hc' : 0 <= c - 32 < 256) by lia.
    destruct (to_upper_cases (c - 32) Hc') as [[Hr' _]|[_ E']]; [lia|].
    rewrite E'. leb_cases; cbn [andb]; lia.
  - rewrite E. leb_cases; cbn [andb]; lia.
Qed.

(** X23 at a concrete input: the byte [s]. *)
Lemma upper_casing_changes_only_letters_witness :
  to_upper (chr "s") = chr "S" /\ to_upper (to_upper (chr "s")) = to_upper (chr "s").
Proof.
  destruct (upper_casing_changes_only_letters (chr "s")) as (E & _ & _ & I).
  - change (chr "s") with 115. lia.
  - split; [exact E|exact I].
Defined.

(** ** The digit decoder, as [loop()] calls it *)

Lemma read_hex_as_at (x l : Z) :
  read_hex (Some x) l = (fst (read_hex_at x l), Some (snd (read_hex_at x l))).
Proof.
  unfold read_hex_at, read_hex. cbn [option_map].
  destruct ((chr "0" <=? l) && (l <=? chr "9")); [reflexivity|].
  destruct ((chr "A" <=? l) && (l <=? chr "F")); [reflexivity|].
  destruct ((chr "a" <=? l) && (l <=? chr "z")); reflexivity.
Qed.

Lemma read_hex_NULL (x l : Z) :
  read_hex None l = (fst (read_hex_at x l), None).
Proof.
  unfold read_hex_at, read_hex. cbn [option_map].
  destruct ((chr "0" <=? l) && (l <=? chr "9")); [reflexivity|].
  destruct ((chr "A" <=? l) && (l <=? chr "F")); [reflexivity|].
  destruct ((chr "a" <=? l) && (l <=? chr "z")); reflexivity.
Qed.

(** C5.  [read_hex] is [static]; [loop()] is its one caller, and calls it
    on the byte read, upper-cased (the last part: the [switch], and with
    it each of the three calls, gets [to_upper (u8 c)]).  So called, the
    decoder returns 1 for exactly the bytes [0]-[9], [A]-[F] and
    [a]-[f], and then shifts a value below 16 into the accumulator; for
    every other byte, [g] among them, it returns 0 and leaves the
    accumulator as it was, and with no accumulator it stores nothing.
    [A] and [a] both decode to 10. *)
Theorem hex_decoder_takes_hex_digits_only (c x : Z) :
  (fst (read_hex (Some x) (to_upper (u8 c))) = 1 <->
     (chr "0" <= u8 c <= chr "9" \/ chr "A" <= u8 c <= chr "F"
      \/ chr "a" <= u8 c <= chr "f"))
  /\ (fst (read_hex (Some x) (to_upper (u8 c))) = 1 ->
      exists v, 0 <= v < 16
        /\ read_hex (Some x) (to_upper (u8 c)) = (1, Some (u8 (16 * x + v))))
  /\ (fst (read_hex (Some x) (to_upper (u8 c))) <> 1 ->
      read_hex (Some x) (to_upper (u8 c)) = (0, Some x)
      /\ read_hex None (to_upper (u8 c)) = (0, None))
  /\ read_hex (Some x) (to_upper (u8 (chr "g"))) = (0, Some x)
  /\ read_hex (Some 0) (to_upper (u8 (chr "A"))) = (1, Some 10)
  /\ read_hex (Some 0) (to_upper (u8 (chr "a"))) = (1, Some 10)
  /\ (forall (B : Type) (TW : TinyWireM B) (fuel : nat) (w : world B),
        loop_path fuel (Some c) w
        = switch fuel (state w) (to_upper (u8 c)) (set_to_print (filler c) w)).
Proof.
  rewrite read_hex_as_at. cbn [fst].
  split; [|split; [|split; [|split; [|split; [|split]]]]].
  - apply read_hex_after_to_upper. apply u8_range.
  - intros H. destruct (read_hex_at_to_upper x c H) as (v & Hv & E).
    exists v. split; [exact Hv|]. rewrite H, E. reflexivity.
  - intros H. destruct (read_hex_at_flag x (to_upper (u8 c))) as [E|E]; [|contradiction].
    rewrite (read_hex_NULL x), E, (read_hex_at_miss _ _ E). split; reflexivity.
  - reflexivity.
  - reflexivity.
  - reflexivity.
  - intros B TW fuel w. apply loop_path_switch.
Qed.
